(** * The Nova Sonic bridge of [src/runtime/index.py] and its webhook

    A shallow embedding of the class [NovaSonicBridge]: the handshake of
    [start], the audio relay of [send_audio], the draining task
    [_process_responses] and the shutdown of [stop]; of its caller, the
    endpoint [websocket_endpoint] that bridges one call; of the credential
    provider [setup_credentials]; and of the webhook [handler] of
    [src/lambda/api/index.py] that sends a call to the bridge; together
    with the properties the specification states about them and further
    properties of the code.

    The Python code is asynchronous.  The embedding threads an explicit
    state through every method; the state holds the bridge object and the
    environment around it (the behaviour of the inference stream, what the
    service delivers to the draining task at each suspension point of the
    calling task, the calls made to the audio sink and the log). *)

From Stdlib Require Import List ZArith NArith Bool Lia RelationClasses.
From Stdlib.Strings Require Import String Ascii Byte.
From Stdlib Require Import DecimalString.
Import ListNotations.

Set Warnings "-register-all".

Local Open Scope string_scope.
Local Open Scope Z_scope.

(** ** Python values

    The values that [json.dumps] serialises and [json.loads] returns.  A
    [dict] is an association list: Python dictionaries keep insertion
    order, and [list(event.keys())[0]] depends on it.  A float literal is
    kept as the decimal the source writes: [JDec m e] is [m / 10^e]. *)

Inductive json : Type :=
| JNull
| JBool (b : bool)
| JInt (n : Z)
| JDec (m : Z) (e : nat)
| JStr (s : string)
| JArr (items : list json)
| JObj (fields : list (string * json)).

Definition bytes : Type := list byte.

(** The exception classes the code can meet.  All of them derive from
    [Exception]; [asyncio.CancelledError] derives from [BaseException] and
    only ever reaches the draining task, through [cancel] below. *)
Inductive exn : Type :=
| StopAsyncIteration
| TypeError
| AttributeError
| KeyError
| ValueError
| BinasciiError
| StreamError (msg : string).

Inductive Outcome (A : Type) : Type :=
| Ok (a : A)
| Raise (e : exn).
Arguments Ok {A} a.
Arguments Raise {A} e.

Definition is_ok {A} (o : Outcome A) : bool :=
  match o with Ok _ => true | Raise _ => false end.

(** *** Operators of Python on these values *)

(** [bool(v)] *)
Definition truthy (v : json) : bool :=
  match v with
  | JNull => false
  | JBool b => b
  | JInt n => negb (n =? 0)
  | JDec m _ => negb (m =? 0)
  | JStr s => negb (String.eqb s "")
  | JArr l => match l with [] => false | _ => true end
  | JObj l => match l with [] => false | _ => true end
  end.

Fixpoint lookup (key : string) (fields : list (string * json)) : option json :=
  match fields with
  | [] => None
  | (k, v) :: rest => if String.eqb key k then Some v else lookup key rest
  end.

Definition is_str (key : string) (v : json) : bool :=
  match v with JStr s => String.eqb key s | _ => false end.

Definition substringb (key s : string) : bool :=
  match String.index 0 key s with Some _ => true | None => false end.

(** [key in v] *)
Definition py_in (key : string) (v : json) : Outcome bool :=
  match v with
  | JObj fields => Ok (match lookup key fields with Some _ => true | None => false end)
  | JStr s => Ok (substringb key s)
  | JArr items => Ok (existsb (is_str key) items)
  | _ => Raise TypeError
  end.

(** [v[key]] with a string key *)
Definition py_getitem (v : json) (key : string) : Outcome json :=
  match v with
  | JObj fields => match lookup key fields with Some x => Ok x | None => Raise KeyError end
  | _ => Raise TypeError
  end.

(** [v.get(key, default)] *)
Definition py_get (v : json) (key : string) (default : json) : Outcome json :=
  match v with
  | JObj fields => Ok (match lookup key fields with Some x => x | None => default end)
  | _ => Raise AttributeError
  end.

(** [list(v.keys())[0] if v else 'unknown'] *)
Definition first_key_or_unknown (v : json) : Outcome string :=
  if truthy v then
    match v with
    | JObj ((k, _) :: _) => Ok k
    | _ => Raise AttributeError
    end
  else Ok "unknown".

(** ** Base64, as [base64.b64encode] and [base64.b64decode] of the Python
    standard library compute it (RFC 4648, standard alphabet, [=] padding;
    the decoder in its default non-strict mode). *)

Module Base64.

Local Open Scope N_scope.

Definition alphabet : string :=
  "ABCDEFGHIJKLMNOPQRSTUVWXYZabcdefghijklmnopqrstuvwxyz0123456789+/".

Definition pad : ascii := "="%char.

Definition enc_char (n : N) : ascii :=
  match String.get (N.to_nat n) alphabet with
  | Some c => c
  | None => pad
  end.

Fixpoint b64encode (bs : bytes) : string :=
  match bs with
  | [] => EmptyString
  | [a] =>
      let a := Byte.to_N a in
      String (enc_char (N.shiftr a 2))
        (String (enc_char (N.shiftl (N.land a 3) 4))
           (String pad (String pad EmptyString)))
  | [a; b] =>
      let a := Byte.to_N a in
      let b := Byte.to_N b in
      String (enc_char (N.shiftr a 2))
        (String (enc_char (N.lor (N.shiftl (N.land a 3) 4) (N.shiftr b 4)))
           (String (enc_char (N.shiftl (N.land b 15) 2))
              (String pad EmptyString)))
  | a :: b :: c :: rest =>
      let a := Byte.to_N a in
      let b := Byte.to_N b in
      let c := Byte.to_N c in
      String (enc_char (N.shiftr a 2))
        (String (enc_char (N.lor (N.shiftl (N.land a 3) 4) (N.shiftr b 4)))
           (String (enc_char (N.lor (N.shiftl (N.land b 15) 2) (N.shiftr c 6)))
              (String (enc_char (N.land c 63)) (b64encode rest))))
  end.

(** The decoding table: the position of a character in the alphabet. *)
Fixpoint index_of (c : ascii) (s : string) (i : N) : option N :=
  match s with
  | EmptyString => None
  | String d rest => if Ascii.eqb c d then Some i else index_of c rest (i + 1)
  end.

Definition dec_char (c : ascii) : option N := index_of c alphabet 0.

Definition byte_of_N (n : N) : byte :=
  match Byte.of_N (N.land n 255) with
  | Some b => b
  | None => Byte.x00
  end.

(** The loop of [binascii.a2b_base64]: characters outside the alphabet are
    skipped, a pad sequence that completes a quad ends the input, and input
    that stops in the middle of a quad is an error. *)
Fixpoint a2b_base64 (s : string) (quad_pos leftchar pads : N) : option bytes :=
  match s with
  | EmptyString => if quad_pos =? 0 then Some [] else None
  | String ch rest =>
      if Ascii.eqb ch pad then
        if 2 <=? quad_pos then
          if 4 <=? quad_pos + (pads + 1) then Some []
          else a2b_base64 rest quad_pos leftchar (pads + 1)
        else a2b_base64 rest quad_pos leftchar pads
      else
        match dec_char ch with
        | None => a2b_base64 rest quad_pos leftchar pads
        | Some v =>
            match quad_pos with
            | 0 => a2b_base64 rest 1 v 0
            | 1 =>
                option_map
                  (cons (byte_of_N (N.lor (N.shiftl leftchar 2) (N.shiftr v 4))))
                  (a2b_base64 rest 2 (N.land v 15) 0)
            | 2 =>
                option_map
                  (cons (byte_of_N (N.lor (N.shiftl leftchar 4) (N.shiftr v 2))))
                  (a2b_base64 rest 3 (N.land v 3) 0)
            | _ =>
                option_map
                  (cons (byte_of_N (N.lor (N.shiftl leftchar 6) v)))
                  (a2b_base64 rest 0 0 0)
            end
        end
  end.

Definition is_ascii (s : string) : bool :=
  forallb (fun c => N.ltb (N_of_ascii c) 128) (list_ascii_of_string s).

End Base64.

(** [base64.b64decode(v)]: a [str] must be ASCII, anything else that the
    draining task can hold here is rejected with a [TypeError]. *)
Definition b64decode (v : json) : Outcome bytes :=
  match v with
  | JStr s =>
      if Base64.is_ascii s then
        match Base64.a2b_base64 s 0 0 0 with
        | Some bs => Ok bs
        | None => Raise BinasciiError
        end
      else Raise ValueError
  | _ => Raise TypeError
  end.

Definition b64encode : bytes -> string := Base64.b64encode.


(** ** The state

    [Stream] is the bidirectional stream object the bridge owns: the chunks
    its input half has accepted, oldest first, and whether that half has
    been closed.  A chunk is kept as the event it carries; the wrapping
    [InvokeModelWithBidirectionalStreamInputChunk(value=
    BidirectionalInputPayloadPart(bytes_=json.dumps(event).encode()))] is
    not modelled. *)

Record Stream : Type := mkStream {
  sent : list json;
  input_closed : bool
}.

(** What one [await self.stream.await_output()] followed by
    [await output[1].receive()] gives the draining task. *)
Inductive RecvItem : Type :=
| RecvRaise (e : exn)        (* one of the two awaits raises *)
| RecvNoValue                (* [result.value] or its [bytes_] is falsy *)
| RecvGarbage                (* bytes that [decode] or [json.loads] rejects *)
| RecvJson (json_data : json) (* bytes that [json.loads] turns into a value *).

(** The draining task is a coroutine: created, then suspended in the
    receive with its local variable [role], then finished. *)
Inductive TaskState : Type :=
| TaskCreated
| TaskWaiting (role : json)
| TaskDone.

Record Task : Type := mkTask {
  send_callback : bytes -> Outcome unit;
  task_state : TaskState;
  cancel_calls : nat
}.

Definition done (t : Task) : bool :=
  match task_state t with TaskDone => true | _ => false end.

Record NovaSonicBridge : Type := mkBridge {
  stream : option Stream;
  is_active : bool;
  prompt_name : string;
  content_name : string;
  audio_content_name : string;
  audio_chunks_sent : Z;
  response_task : option Task
}.

Inductive Level : Type := INFO | ERROR.

Inductive LogArg : Type :=
| ArgStr (s : string)
| ArgVal (v : json)
| ArgExn (e : exn).

(** A log record keeps the literal text of the f-string and the values
    interpolated into it. *)
Record LogRecord : Type := mkLog {
  level : Level;
  template : string;
  args : list LogArg
}.

(** The environment of a bridge.  [open_result], [send_results] and
    [close_result] say how the inference service answers the stream-open
    call, the successive [input_stream.send] calls and
    [input_stream.close] ([None]: the call returns; a send beyond the end
    of [send_results] returns).  [arrivals] holds, for each coming
    suspension point of the calling task, what the stream delivers to the
    draining task while the caller is suspended there.  [sink_log] is the
    list of calls made to the audio sink, oldest first. *)
Record Env : Type := mkEnv {
  open_result : option exn;
  send_results : list (option exn);
  close_result : option exn;
  arrivals : list (list RecvItem);
  sink_log : list bytes;
  log : list LogRecord
}.

Record State : Type := mkState {
  self : NovaSonicBridge;
  env : Env
}.

(** *** Field updates *)

Definition set_stream (x : option Stream) (b : NovaSonicBridge) : NovaSonicBridge :=
  mkBridge x (is_active b) (prompt_name b) (content_name b)
    (audio_content_name b) (audio_chunks_sent b) (response_task b).

Definition set_is_active (x : bool) (b : NovaSonicBridge) : NovaSonicBridge :=
  mkBridge (stream b) x (prompt_name b) (content_name b)
    (audio_content_name b) (audio_chunks_sent b) (response_task b).

Definition set_audio_chunks_sent (x : Z) (b : NovaSonicBridge) : NovaSonicBridge :=
  mkBridge (stream b) (is_active b) (prompt_name b) (content_name b)
    (audio_content_name b) x (response_task b).

Definition set_response_task (x : option Task) (b : NovaSonicBridge) : NovaSonicBridge :=
  mkBridge (stream b) (is_active b) (prompt_name b) (content_name b)
    (audio_content_name b) (audio_chunks_sent b) x.

Definition set_task_state (x : TaskState) (t : Task) : Task :=
  mkTask (send_callback t) x (cancel_calls t).

Definition set_send_results (x : list (option exn)) (e : Env) : Env :=
  mkEnv (open_result e) x (close_result e) (arrivals e) (sink_log e) (log e).

Definition set_arrivals (x : list (list RecvItem)) (e : Env) : Env :=
  mkEnv (open_result e) (send_results e) (close_result e) x (sink_log e) (log e).

Definition set_sink_log (x : list bytes) (e : Env) : Env :=
  mkEnv (open_result e) (send_results e) (close_result e) (arrivals e) x (log e).

Definition set_log (x : list LogRecord) (e : Env) : Env :=
  mkEnv (open_result e) (send_results e) (close_result e) (arrivals e) (sink_log e) x.

Definition on_self (f : NovaSonicBridge -> NovaSonicBridge) (st : State) : State :=
  mkState (f (self st)) (env st).

Definition on_env (f : Env -> Env) (st : State) : State :=
  mkState (self st) (f (env st)).

(** ** The monad of the methods: state and exceptions *)

Definition M (A : Type) : Type := State -> Outcome A * State.

Definition ret {A} (a : A) : M A := fun st => (Ok a, st).

Definition bind {A B} (m : M A) (k : A -> M B) : M B :=
  fun st =>
    match m st with
    | (Ok a, st') => k a st'
    | (Raise e, st') => (Raise e, st')
    end.

Definition raise {A} (e : exn) : M A := fun st => (Raise e, st).

(** [try: body / except Exception as e: handler e] *)
Definition try_except {A} (body : M A) (handler : exn -> M A) : M A :=
  fun st =>
    match body st with
    | (Ok a, st') => (Ok a, st')
    | (Raise e, st') => handler e st'
    end.

Definition lift {A} (o : Outcome A) : M A := fun st => (o, st).

Definition update (f : State -> State) : M unit := fun st => (Ok tt, f st).

Definition read {A} (f : NovaSonicBridge -> A) : M A := fun st => (Ok (f (self st)), st).

Definition when (c : bool) (m : M unit) : M unit := if c then m else ret tt.

Declare Scope py_scope.
Delimit Scope py_scope with py.
Notation "x <- m ;; k" := (bind m (fun x => k))
  (at level 100, m at next level, right associativity) : py_scope.
Notation "m ;; k" := (bind m (fun _ => k))
  (at level 100, right associativity) : py_scope.
Local Open Scope py_scope.

Definition logger_info (template : string) (args : list LogArg) : M unit :=
  update (on_env (fun e => set_log (log e ++ [mkLog INFO template args]) e)).

Definition logger_error (template : string) (args : list LogArg) : M unit :=
  update (on_env (fun e => set_log (log e ++ [mkLog ERROR template args]) e)).

(** ** The draining task, [_process_responses]

    The coroutine is cut at its receive: [_process_responses_start] runs it
    from its creation to the first receive, [_process_responses_resume]
    from a completed receive to the next one or to the end of the
    coroutine, and [_process_responses_cancel] throws
    [asyncio.CancelledError] into the pending receive.  One resumption runs
    a whole pass of the loop body: the await of the sink inside it is not
    cut.  The bridge keeps one task handle, and the model follows the task
    of that handle: a task that a second [start] replaces is no longer
    followed. *)

(** [await send_callback(audio_bytes)] *)
Definition call_sink (callback : bytes -> Outcome unit) (audio_bytes : bytes) : M unit :=
  fun st =>
    (callback audio_bytes,
     on_env (fun e => set_sink_log (sink_log e ++ [audio_bytes]) e) st).

(** The inner [try] around the two awaits of the receive. *)
Definition receive (result : RecvItem) : M RecvItem :=
  match result with
  | RecvRaise e =>
      logger_error "Error in response processor: {}: {}" [ArgExn e; ArgExn e] ;;
      raise e
  | _ => ret result
  end.

(** The rest of the loop body; it returns the new value of [role]. *)
Definition dispatch (callback : bytes -> Outcome unit) (role : json)
    (result : RecvItem) : M json :=
  match result with
  | RecvRaise e => raise e
  | RecvNoValue => ret role
  | RecvGarbage => raise ValueError
  | RecvJson json_data =>
      has_event <- lift (py_in "event" json_data) ;;
      if has_event : bool then
        event <- lift (py_getitem json_data "event") ;;
        event_type <- lift (first_key_or_unknown event) ;;
        when (negb (String.eqb event_type "audioOutput"))
          (logger_info "Event: {}" [ArgStr event_type]) ;;
        is_content_start <- lift (py_in "contentStart" event) ;;
        if is_content_start : bool then
          content_start <- lift (py_getitem event "contentStart") ;;
          lift (py_get content_start "role" (JStr ""))
        else
          is_text_output <- lift (py_in "textOutput" event) ;;
          if is_text_output : bool then
            text_output <- lift (py_getitem event "textOutput") ;;
            text_content <- lift (py_get text_output "content" (JStr "")) ;;
            text_role <- lift (py_get text_output "role" role) ;;
            when (truthy text_content)
              (logger_info "[{}] {}" [ArgVal text_role; ArgVal text_content]) ;;
            ret role
          else
            is_audio_output <- lift (py_in "audioOutput" event) ;;
            if is_audio_output : bool then
              audio_output <- lift (py_getitem event "audioOutput") ;;
              audio_content <- lift (py_get audio_output "content" (JStr "")) ;;
              if truthy audio_content then
                audio_bytes <- lift (b64decode audio_content) ;;
                call_sink callback audio_bytes ;;
                ret role
              else ret role
            else ret role
      else ret role
  end.

(** One pass of the loop body, from the receive on. *)
Definition iteration (callback : bytes -> Outcome unit) (role : json)
    (result : RecvItem) : M json :=
  result <- receive result ;;
  dispatch callback role result.

(** The [except] clauses of the outer [try]. *)
Definition task_except (e : exn) : M unit :=
  match e with
  | StopAsyncIteration => ret tt
  | _ => logger_error "Fatal error in response processor: {}" [ArgExn e]
  end.

(** The coroutine returns: the task is done. *)
Definition finish_task (b : NovaSonicBridge) : NovaSonicBridge :=
  set_response_task (option_map (set_task_state TaskDone) (response_task b)) b.

(** [finally: self.is_active = False], and the coroutine returns. *)
Definition task_finally (st : State) : State :=
  on_self finish_task (on_self (set_is_active false) st).

(** [while self.is_active:] followed by the receive. *)
Definition loop_head (role : json) (st : State) : State :=
  if is_active (self st)
  then on_self (fun b => set_response_task
                  (option_map (set_task_state (TaskWaiting role)) (response_task b)) b) st
  else task_finally st.

(** [role = None] and the first test of the loop. *)
Definition _process_responses_start (st : State) : State :=
  match response_task (self st) with
  | Some t =>
      match task_state t with
      | TaskCreated => loop_head JNull st
      | _ => st
      end
  | None => st
  end.

(** The pending receive completes with [result]. *)
Definition _process_responses_resume (result : RecvItem) (st : State) : State :=
  match response_task (self st) with
  | Some t =>
      match task_state t with
      | TaskWaiting role =>
          match iteration (send_callback t) role result st with
          | (Ok role', st') => loop_head role' st'
          | (Raise e, st') => task_finally (snd (task_except e st'))
          end
      | _ => st
      end
  | None => st
  end.

(** [except asyncio.CancelledError: pass], then the [finally]; a coroutine
    cancelled before its first step never enters its [try]. *)
Definition _process_responses_cancel (st : State) : State :=
  match response_task (self st) with
  | Some t =>
      match task_state t with
      | TaskWaiting _ => task_finally st
      | TaskCreated => on_self finish_task st
      | TaskDone => st
      end
  | None => st
  end.

(** ** Suspension points

    asyncio switches tasks only where the running task awaits.  At each
    such point of the calling task the draining task runs on what the
    stream delivers meanwhile: the next batch of [arrivals].  Every await
    of the calling task on the stream or on the clock is such a point. *)
Definition deliver (batch : list RecvItem) (st : State) : State :=
  fold_left (fun s result => _process_responses_resume result s) batch st.

Definition drain (st : State) : State :=
  let batch := hd [] (arrivals (env st)) in
  let st1 := on_env (fun e => set_arrivals (tl (arrivals e)) e) st in
  deliver batch (_process_responses_start st1).

Definition suspend : M unit := fun st => (Ok tt, drain st).

(** [await asyncio.sleep(...)]; the model has no clock, the delay (in
    milliseconds) only names the pause. *)
Definition asyncio_sleep (ms : nat) : M unit := suspend.

(** [asyncio.create_task(self._process_responses(send_callback))] *)
Definition create_task (callback : bytes -> Outcome unit) : Task :=
  mkTask callback TaskCreated 0.

(** [self.response_task.cancel()] *)
Definition cancel : M unit :=
  update (on_self (fun b =>
    set_response_task
      (option_map (fun t => mkTask (send_callback t) (task_state t) (S (cancel_calls t)))
         (response_task b)) b)).

(** [await self.response_task] after [cancel], inside
    [try: ... except asyncio.CancelledError: pass]. *)
Definition await_cancelled_task : M unit := update _process_responses_cancel.

(** ** The stream client *)

(** [await self.client.invoke_model_with_bidirectional_stream(...)] *)
Definition invoke_model_with_bidirectional_stream : M Stream :=
  suspend ;;
  fun st =>
    match open_result (env st) with
    | None => (Ok (mkStream [] false), st)
    | Some e => (Raise e, st)
    end.

(** The input half of the stream takes a chunk. *)
Definition push_chunk (chunk : json) (b : NovaSonicBridge) : NovaSonicBridge :=
  set_stream
    (option_map (fun s => mkStream (sent s ++ [chunk]) (input_closed s)) (stream b)) b.

(** [await self.stream.input_stream.send(chunk)] *)
Definition input_stream_send (chunk : json) : M unit :=
  suspend ;;
  fun st =>
    match send_results (env st) with
    | Some e :: rest => (Raise e, on_env (set_send_results rest) st)
    | None :: rest => (Ok tt, on_env (set_send_results rest) (on_self (push_chunk chunk) st))
    | [] => (Ok tt, on_self (push_chunk chunk) st)
    end.

(** [await self.stream.input_stream.close()] *)
Definition input_stream_close : M unit :=
  strm <- read stream ;;
  match strm with
  | None => raise AttributeError
  | Some _ =>
      suspend ;;
      fun st =>
        match close_result (env st) with
        | Some e => (Raise e, st)
        | None =>
            (Ok tt,
             on_self (fun b => set_stream
                        (option_map (fun s => mkStream (sent s) true) (stream b)) b) st)
        end
  end.

(** ** The class [NovaSonicBridge] *)

(** [__init__]; the three identifiers are what [uuid.uuid4()] returns. *)
Definition __init__ (uuid1 uuid2 uuid3 : string) : NovaSonicBridge :=
  mkBridge None false uuid1 uuid2 uuid3 0 None.

(** The [try] block of [_send] and its [except] clause. *)
Definition send_chunk (event : json) : M unit :=
  try_except (input_stream_send event)
    (fun e =>
       logger_error "Error sending to Nova Sonic: {}" [ArgExn e] ;;
       update (on_self (set_is_active false)) ;;
       raise e).

Definition _send (event : json) : M unit :=
  strm <- read stream ;;
  active <- read is_active ;;
  match strm with
  | Some _ => if active : bool then send_chunk event else ret tt
  | None => ret tt
  end.

(** [await self._send({...})], the dictionary being built from the fields
    of [self] at the time of the call. *)
Definition send_event (event : NovaSonicBridge -> json) : M unit :=
  ev <- read event ;;
  _send ev.

(** The double quote and the line feed. *)
Definition dq : string := String (ascii_of_nat 34) EmptyString.
Definition nl : string := String (ascii_of_nat 10) EmptyString.

Fixpoint spaces (n : nat) : string :=
  match n with
  | O => EmptyString
  | S k => String " "%char (spaces k)
  end.

(** The triple-quoted input schema of the tool, with the line breaks and
    the indentation of the source. *)
Definition getDateTool_schema : string :=
  "{" ++ nl ++
  spaces 48 ++ dq ++ "type" ++ dq ++ ": " ++ dq ++ "object" ++ dq ++ "," ++ nl ++
  spaces 48 ++ dq ++ "properties" ++ dq ++ ": {}," ++ nl ++
  spaces 48 ++ dq ++ "required" ++ dq ++ ": []" ++ nl ++
  spaces 44 ++ "}".

(** The four fields the two audio configurations begin with. *)
Definition lpcm_16k_mono : list (string * json) :=
  [("mediaType", JStr "audio/lpcm");
   ("sampleRateHertz", JInt 16000);
   ("sampleSizeBits", JInt 16);
   ("channelCount", JInt 1)].

Section Bridge.

(** [VOICE_ID] and [SYSTEM_PROMPT] are read from the process environment
    when the module is loaded. *)
Variable VOICE_ID : string.
Variable SYSTEM_PROMPT : string.

(** *** The events the bridge sends *)

Definition session_start (this : NovaSonicBridge) : json :=
  JObj [("event", JObj [("sessionStart", JObj
    [("inferenceConfiguration", JObj
       [("maxTokens", JInt 1024); ("topP", JDec 9 1); ("temperature", JDec 7 1)])])])].

Definition prompt_start (this : NovaSonicBridge) : json :=
  JObj [("event", JObj [("promptStart", JObj
    [("promptName", JStr (prompt_name this));
     ("textOutputConfiguration", JObj [("mediaType", JStr "text/plain")]);
     ("audioOutputConfiguration", JObj
        (lpcm_16k_mono ++
         [("voiceId", JStr VOICE_ID);
          ("encoding", JStr "base64");
          ("audioType", JStr "SPEECH")]));
     ("toolUseOutputConfiguration", JObj [("mediaType", JStr "application/json")]);
     ("toolConfiguration", JObj
        [("tools", JArr
           [JObj [("toolSpec", JObj
              [("name", JStr "getDateTool");
               ("description", JStr "get information about the current day");
               ("inputSchema", JObj [("json", JStr getDateTool_schema)])])]])])])])].

Definition system_content_start (this : NovaSonicBridge) : json :=
  JObj [("event", JObj [("contentStart", JObj
    [("promptName", JStr (prompt_name this));
     ("contentName", JStr (content_name this));
     ("type", JStr "TEXT");
     ("interactive", JBool false);
     ("role", JStr "SYSTEM");
     ("textInputConfiguration", JObj [("mediaType", JStr "text/plain")])])])].

Definition system_text_input (this : NovaSonicBridge) : json :=
  JObj [("event", JObj [("textInput", JObj
    [("promptName", JStr (prompt_name this));
     ("contentName", JStr (content_name this));
     ("content", JStr SYSTEM_PROMPT)])])].

Definition system_content_end (this : NovaSonicBridge) : json :=
  JObj [("event", JObj [("contentEnd", JObj
    [("promptName", JStr (prompt_name this));
     ("contentName", JStr (content_name this))])])].

Definition audio_content_start (this : NovaSonicBridge) : json :=
  JObj [("event", JObj [("contentStart", JObj
    [("promptName", JStr (prompt_name this));
     ("contentName", JStr (audio_content_name this));
     ("type", JStr "AUDIO");
     ("interactive", JBool true);
     ("role", JStr "USER");
     ("audioInputConfiguration", JObj
        (lpcm_16k_mono ++
         [("audioType", JStr "SPEECH");
          ("encoding", JStr "base64")]))])])].

Definition audio_input (pcm_bytes : bytes) (this : NovaSonicBridge) : json :=
  JObj [("event", JObj [("audioInput", JObj
    [("promptName", JStr (prompt_name this));
     ("contentName", JStr (audio_content_name this));
     ("content", JStr (b64encode pcm_bytes))])])].

Definition audio_content_end (this : NovaSonicBridge) : json :=
  JObj [("event", JObj [("contentEnd", JObj
    [("promptName", JStr (prompt_name this));
     ("contentName", JStr (audio_content_name this))])])].

Definition prompt_end (this : NovaSonicBridge) : json :=
  JObj [("event", JObj [("promptEnd", JObj
    [("promptName", JStr (prompt_name this))])])].

Definition session_end (this : NovaSonicBridge) : json :=
  JObj [("event", JObj [("sessionEnd", JObj [])])].

(** *** The methods *)

Definition start (send_audio_callback : bytes -> Outcome unit) : M unit :=
  try_except
    (logger_info "Connecting to Nova Sonic..." [] ;;
     strm <- invoke_model_with_bidirectional_stream ;;
     update (on_self (set_stream (Some strm))) ;;
     update (on_self (set_is_active true)) ;;
     logger_info "Stream connected" [] ;;
     update (on_self (set_response_task (Some (create_task send_audio_callback)))) ;;
     asyncio_sleep 100 ;;
     send_event session_start ;;
     asyncio_sleep 100 ;;
     send_event prompt_start ;;
     asyncio_sleep 100 ;;
     send_event system_content_start ;;
     asyncio_sleep 50 ;;
     send_event system_text_input ;;
     asyncio_sleep 50 ;;
     send_event system_content_end ;;
     asyncio_sleep 100 ;;
     send_event audio_content_start ;;
     logger_info "Nova Sonic ready for audio" [])
    (fun e =>
       logger_error "Failed to start Nova Sonic session: {}" [ArgExn e] ;;
       update (on_self (set_is_active false)) ;;
       raise e).

Definition send_audio (pcm_bytes : bytes) : M unit :=
  active <- read is_active ;;
  if negb active then ret tt
  else
    update (on_self (fun b => set_audio_chunks_sent (audio_chunks_sent b + 1) b)) ;;
    send_event (audio_input pcm_bytes).

(** The [try] block of [stop]. *)
Definition close_session : M unit :=
  try_except
    (send_event audio_content_end ;;
     asyncio_sleep 50 ;;
     send_event prompt_end ;;
     asyncio_sleep 50 ;;
     send_event session_end ;;
     input_stream_close)
    (fun e => logger_error "Error closing Nova Sonic session: {}" [ArgExn e]).

(** The last statement of [stop]. *)
Definition cancel_response_task : M unit :=
  task <- read response_task ;;
  match task with
  | Some t => if negb (done t) then cancel ;; await_cancelled_task else ret tt
  | None => ret tt
  end.

Definition stop : M unit :=
  active <- read is_active ;;
  if negb active then ret tt
  else
    update (on_self (set_is_active false)) ;;
    close_session ;;
    cancel_response_task.

End Bridge.

(** ** The credential provider

    [setup_credentials] and the two functions it calls.  The metadata
    service is given by the answer it has for each request, the process by
    its environment variables, the requests it has made and its log.  An
    exception of the HTTP client is kept as the text [str(e)] gives. *)

Inductive Method : Type := PUT | GET.

Record Request : Type := mkRequest {
  method : Method;
  url : string;
  headers : list (string * string);
  timeout : Z
}.

Record Response : Type := mkResponse {
  status_code : Z;
  text : string;
  json_result : string + json   (* [response.json()]: it raises, or the value *)
}.

Inductive HttpResult : Type :=
| HttpRaise (message : string)
| HttpReturn (response : Response).

Definition Imds : Type := Request -> HttpResult.

Record Process : Type := mkProcess {
  environ : list (string * string);
  requests : list Request;
  process_log : list LogRecord
}.

(** [os.getenv(key)] *)
Fixpoint getenv (key : string) (vars : list (string * string)) : option string :=
  match vars with
  | [] => None
  | (k, v) :: rest => if String.eqb key k then Some v else getenv key rest
  end.

(** The truth value of what [os.getenv] returns. *)
Definition is_set (value : option string) : bool :=
  match value with
  | Some v => negb (String.eqb v "")
  | None => false
  end.

Definition has_nul (s : string) : bool :=
  existsb (fun c => Ascii.eqb c zero) (list_ascii_of_string s).

(** [os.environ[key] = value]: the value must be a [str] without a null
    character. *)
Definition environ_set (key : string) (value : json) (p : Process)
    : Outcome unit * Process :=
  match value with
  | JStr v =>
      if has_nul v then (Raise ValueError, p)
      else
        (Ok tt,
         mkProcess
           ((key, v) :: filter (fun kv => negb (String.eqb key (fst kv))) (environ p))
           (requests p) (process_log p))
  | _ => (Raise TypeError, p)
  end.

Definition process_info (template : string) (args : list LogArg) (p : Process)
    : Process :=
  mkProcess (environ p) (requests p) (process_log p ++ [mkLog INFO template args]).

Definition process_error (template : string) (args : list LogArg) (p : Process)
    : Process :=
  mkProcess (environ p) (requests p) (process_log p ++ [mkLog ERROR template args]).

(** [requests.put] and [requests.get] *)
Definition http (imds : Imds) (request : Request) (p : Process)
    : HttpResult * Process :=
  (imds request, mkProcess (environ p) (requests p ++ [request]) (process_log p)).

(** [str(n)] for an [int] *)
Definition str_of_int (n : Z) : string := NilZero.string_of_int (Z.to_int n).

(** The characters [str.strip()] removes: those [str.isspace()] accepts,
    among the characters with a code below 256. *)
Definition isspace (c : ascii) : bool :=
  let n := N_of_ascii c in
  ((9 <=? n) && (n <=? 13) || (28 <=? n) && (n <=? 32) || (n =? 133) || (n =? 160))%N.

Fixpoint lstrip (s : string) : string :=
  match s with
  | String c rest => if isspace c then lstrip rest else s
  | EmptyString => EmptyString
  end.

Fixpoint rstrip (s : string) : string :=
  match s with
  | String c rest =>
      match rstrip rest with
      | EmptyString => if isspace c then EmptyString else String c EmptyString
      | kept => String c kept
      end
  | EmptyString => EmptyString
  end.

(** [s.strip()] *)
Definition strip (s : string) : string := rstrip (lstrip s).

Definition token_url : string := "http://169.254.169.254/latest/api/token".

Definition role_url : string :=
  "http://169.254.169.254/latest/meta-data/iam/security-credentials/".

Definition get_imdsv2_token (imds : Imds) (p : Process) : option string * Process :=
  match http imds
          (mkRequest PUT token_url [("X-aws-ec2-metadata-token-ttl-seconds", "21600")] 2)
          p with
  | (HttpReturn response, p') =>
      if status_code response =? 200 then (Some (text response), p') else (None, p')
  | (HttpRaise _, p') => (None, p')
  end.

(** The dict [get_credentials_from_imds] returns; [None] under
    [credentials] is [JNull]. *)
Record ImdsResult : Type := mkImdsResult {
  success : bool;
  credentials : json;
  error : option string
}.

(** [headers = {"X-aws-ec2-metadata-token": token} if token else {}] *)
Definition token_headers (token : option string) : list (string * string) :=
  match token with
  | Some t => if is_set token then [("X-aws-ec2-metadata-token", t)] else []
  | None => []
  end.

Definition get_credentials_from_imds (imds : Imds) (p : Process)
    : ImdsResult * Process :=
  let failed message := mkImdsResult false JNull (Some message) in
  let (token, p) := get_imdsv2_token imds p in
  let headers := token_headers token in
  match http imds (mkRequest GET role_url headers 2) p with
  | (HttpRaise message, p) => (failed ("IMDS error: " ++ message), p)
  | (HttpReturn role_response, p) =>
      if negb (status_code role_response =? 200) then
        (failed ("Failed to get role name: HTTP " ++
                 str_of_int (status_code role_response)), p)
      else
        let role_name := strip (text role_response) in
        match http imds (mkRequest GET (role_url ++ role_name) headers 2) p with
        | (HttpRaise message, p) => (failed ("IMDS error: " ++ message), p)
        | (HttpReturn creds_response, p) =>
            if negb (status_code creds_response =? 200) then
              (failed ("Failed to get credentials: HTTP " ++
                       str_of_int (status_code creds_response)), p)
            else
              match json_result creds_response with
              | inl message => (failed ("IMDS error: " ++ message), p)
              | inr value => (mkImdsResult true value None, p)
              end
        end
  end.

(** [os.environ[key] = creds[field]] *)
Definition export (key field : string) (creds : json) (p : Process)
    : Outcome unit * Process :=
  match py_getitem creds field with
  | Ok value => environ_set key value p
  | Raise e => (Raise e, p)
  end.

Definition setup_credentials (imds : Imds) (p : Process) : Outcome bool * Process :=
  if is_set (getenv "AWS_ACCESS_KEY_ID" (environ p))
     && is_set (getenv "AWS_SECRET_ACCESS_KEY" (environ p))
  then (Ok true, process_info "Using existing environment credentials" [] p)
  else
    let p := process_info "Fetching credentials from IMDS..." [] p in
    let (imds_result, p) := get_credentials_from_imds imds p in
    if success imds_result then
      let creds := credentials imds_result in
      match export "AWS_ACCESS_KEY_ID" "AccessKeyId" creds p with
      | (Raise e, p) => (Raise e, p)
      | (Ok _, p) =>
          match export "AWS_SECRET_ACCESS_KEY" "SecretAccessKey" creds p with
          | (Raise e, p) => (Raise e, p)
          | (Ok _, p) =>
              match export "AWS_SESSION_TOKEN" "Token" creds p with
              | (Raise e, p) => (Raise e, p)
              | (Ok _, p) =>
                  (Ok true,
                   process_info "Credentials loaded from IMDS successfully" [] p)
              end
          end
      end
    else
      (Ok false,
       process_error "Failed to get credentials: {}"
         [match error imds_result with
          | Some message => ArgStr message
          | None => ArgVal JNull
          end] p).

(** [startup], the hook FastAPI runs before it accepts a connection. *)
Definition startup (imds : Imds) (p : Process) : Outcome unit * Process :=
  match setup_credentials imds p with
  | (Ok _, p) => (Ok tt, p)
  | (Raise e, p) => (Raise e, p)
  end.

(** ** The call bridge loop, [websocket_endpoint]

    The endpoint owns the transport connection of one call.  The transport
    is given by what it will do: whether it accepts, what each
    [websocket.receive()] under [asyncio.wait_for(..., timeout=0.1)] gives,
    and whether it takes a frame.  The environment the endpoint runs in is
    that of the bridge it builds: [arrivals] is counted from the first
    suspension point after the bridge exists. *)

(** The values a message of the transport holds. *)
Inductive WsValue : Type :=
| WsStr (s : string)
| WsBytes (data : bytes)
| WsInt (n : Z)
| WsNone.

(** A message: the dict [websocket.receive()] returns. *)
Definition Message : Type := list (string * WsValue).

Fixpoint msg_get (key : string) (msg : Message) : option WsValue :=
  match msg with
  | [] => None
  | (k, v) :: rest => if String.eqb key k then Some v else msg_get key rest
  end.

(** [key in msg] *)
Definition msg_has (key : string) (msg : Message) : bool :=
  match msg_get key msg with Some _ => true | None => false end.

(** [msg.get("type") == "websocket.disconnect"] *)
Definition is_disconnect (msg : Message) : bool :=
  match msg_get "type" msg with
  | Some (WsStr s) => String.eqb s "websocket.disconnect"
  | _ => false
  end.

(** The exceptions the endpoint tells apart: [WebSocketDisconnect] and
    every other [Exception]. *)
Inductive WsExn : Type :=
| WebSocketDisconnect
| WsError (e : exn).

(** What one [await asyncio.wait_for(websocket.receive(), timeout=0.1)]
    gives. *)
Inductive Received : Type :=
| ReceiveTimeout                 (* [asyncio.TimeoutError] *)
| ReceiveMessage (msg : Message)
| ReceiveRaise (e : WsExn).

Record Transport : Type := mkTransport {
  client : string;                       (* [websocket.client], printed *)
  accept_result : option exn;            (* [None]: [accept()] returns *)
  inbox : list Received;                 (* the receives to come, in order *)
  send_bytes : bytes -> Outcome unit     (* [websocket.send_bytes(audio)] *)
}.

(** [send_to_vonage], the sink the endpoint hands to [start]. *)
Definition send_to_vonage (websocket : Transport) (audio : bytes) : M unit :=
  try_except (lift (send_bytes websocket audio))
    (fun e => logger_error "Error sending to Vonage: {}" [ArgExn e]).

(** The sink as the draining task holds it: a task keeps its sink as the
    function from a chunk to the outcome of the call.  The line
    [send_to_vonage] logs for a frame the transport refuses is therefore
    not in the log of a state in which the task has called it; what the
    log then holds is stated of [send_to_vonage] itself. *)
Definition vonage_sink (websocket : Transport) (audio : bytes) : Outcome unit :=
  fst (send_to_vonage websocket audio
         (mkState (__init__ "" "" "") (mkEnv None [] None [] [] []))).

(** [await bridge.send_audio(audio_data)] with whatever the message holds
    under [bytes].  [send_audio] tests the flag and counts the chunk before
    it builds the event; [base64.b64encode] rejects what is not bytes with
    a [TypeError]. *)
Definition send_audio_data (audio_data : WsValue) : M unit :=
  match audio_data with
  | WsBytes pcm_bytes => send_audio pcm_bytes
  | _ =>
      active <- read is_active ;;
      if negb active then ret tt
      else
        update (on_self (fun b => set_audio_chunks_sent (audio_chunks_sent b + 1) b)) ;;
        raise TypeError
  end.

(** How the [while] loop of the endpoint ends: by its test or by [break],
    by an exception, or not within the receives of the script. *)
Inductive LoopEnd : Type :=
| LoopLeft
| LoopRaised (e : WsExn)
| LoopRunning.

(** [while bridge.is_active: ...]; each pass takes one receive of the
    script, and the wait for it is a suspension point of the endpoint. *)
Fixpoint receive_loop (first_message : bool) (script : list Received) (st : State)
    : LoopEnd * State :=
  if negb (is_active (self st)) then (LoopLeft, st)
  else
    match script with
    | [] => (LoopRunning, st)
    | received :: rest =>
        let st := drain st in
        match received with
        | ReceiveTimeout => receive_loop first_message rest st
        | ReceiveRaise e => (LoopRaised e, st)
        | ReceiveMessage msg =>
            if is_disconnect msg then
              (LoopLeft, snd (logger_info "Vonage disconnected" [] st))
            else if first_message && msg_has "text" msg then
              receive_loop false rest st
            else
              match msg_get "bytes" msg with
              | Some audio_data =>
                  match send_audio_data audio_data st with
                  | (Ok _, st') => receive_loop first_message rest st'
                  | (Raise e, st') => (LoopRaised (WsError e), st')
                  end
              | None => receive_loop first_message rest st
              end
        end
    end.

(** How a run of the endpoint ends. *)
Inductive Ended : Type :=
| Refused (e : exn) (en : Env)   (* [accept()] raised; no bridge was built *)
| Returned (st : State)
| Raised (e : exn) (st : State)
| Pending (st : State)           (* still in its loop when the script ends *).

(** [finally: await bridge.stop()] *)
Definition finally_stop (st : State) : Ended :=
  match stop st with
  | (Ok _, st') => Returned st'
  | (Raise e, st') => Raised e st'
  end.

Section Endpoint.

Variable VOICE_ID : string.
Variable SYSTEM_PROMPT : string.

(** The [try] block of the endpoint. *)
Definition bridge_call (websocket : Transport) (st : State) : LoopEnd * State :=
  match start VOICE_ID SYSTEM_PROMPT (vonage_sink websocket) st with
  | (Raise e, st') => (LoopRaised (WsError e), st')
  | (Ok _, st') =>
      receive_loop true (inbox websocket)
        (snd (logger_info "Nova Sonic bridge started" [] st'))
  end.

Definition websocket_endpoint (websocket : Transport) (uuid1 uuid2 uuid3 : string)
    (en : Env) : Ended :=
  let en :=
    set_log (log en ++ [mkLog INFO "Vonage connecting from {}" [ArgStr (client websocket)]])
      en in
  match accept_result websocket with
  | Some e => Refused e en
  | None =>
      let bridge := __init__ uuid1 uuid2 uuid3 in
      match bridge_call websocket (mkState bridge en) with
      | (LoopRunning, st) => Pending st
      | (LoopLeft, st) => finally_stop st
      | (LoopRaised WebSocketDisconnect, st) =>
          finally_stop (snd (logger_info "Vonage WebSocket disconnected" [] st))
      | (LoopRaised (WsError e), st) =>
          finally_stop (snd (logger_error "WebSocket error: {}" [ArgExn e] st))
      end
  end.

End Endpoint.

(** ** The webhook of [src/lambda/api/index.py]

    The Lambda function that answers the call-control requests of Vonage:
    [verify_vonage_request], [generate_presigned_url] and [handler].  The
    event of a request is the JSON value API Gateway hands over.
    [json.loads] and the client of the agent runtime are taken as they
    are: the first as a function from the bytes to what it returns or
    raises, the second as the outcome of its call.  The text
    [json.dumps(v)] of a response is kept as [Dumps v]. *)

Module Api.

Inductive Level : Type := INFO | WARNING | ERROR.

(** The exceptions of this file: those of the runtime's values, the
    [IndexError] of a list index, and whatever the client raises, kept as
    the text [str(e)] gives. *)
Inductive Exception : Type :=
| Builtin (e : exn)
| IndexError
| ClientError (message : string).

Inductive Arg : Type :=
| ArgStr (s : string)
| ArgVal (v : json)
| ArgExc (e : Exception).

Record LogRecord : Type := mkLog {
  level : Level;
  template : string;
  args : list Arg
}.

Inductive Result (A : Type) : Type :=
| Return (a : A)
| Throw (e : Exception).
Arguments Return {A} a.
Arguments Throw {A} e.

(** The state of one invocation: the log, and how often the client has
    been asked for a URL. *)
Record Lambda : Type := mkLambda {
  log : list LogRecord;
  presigned : nat
}.

Definition write (lv : Level) (template : string) (args : list Arg) (lam : Lambda)
    : Lambda :=
  mkLambda (log lam ++ [mkLog lv template args]) (presigned lam).

Definition of_outcome {A} (o : Outcome A) : Result A :=
  match o with
  | Ok a => Return a
  | Raise e => Throw (Builtin e)
  end.

(** [s.split(sep)] for a separator of one character *)
Fixpoint split (sep : ascii) (s : string) : list string :=
  match s with
  | EmptyString => [EmptyString]
  | String c rest =>
      if Ascii.eqb c sep then EmptyString :: split sep rest
      else
        match split sep rest with
        | piece :: pieces => String c piece :: pieces
        | [] => [String c EmptyString]
        end
  end.

(** [pieces[1]] *)
Definition second (pieces : list string) : Result string :=
  match nth_error pieces 1 with
  | Some piece => Return piece
  | None => Throw IndexError
  end.

(** ['=' * n] *)
Fixpoint equals (n : nat) : string :=
  match n with
  | O => EmptyString
  | S k => String "="%char (equals k)
  end.

(** The table of [base64.urlsafe_b64decode]: [-] becomes [+] and [_]
    becomes [/]. *)
Definition urlsafe_decode_translation (c : ascii) : ascii :=
  if Ascii.eqb c "-" then "+"%char
  else if Ascii.eqb c "_" then "/"%char else c.

(** [s.translate(_urlsafe_decode_translation)] *)
Fixpoint translate (s : string) : string :=
  match s with
  | EmptyString => EmptyString
  | String c rest => String (urlsafe_decode_translation c) (translate rest)
  end.

(** [base64.urlsafe_b64decode(s)] for a [str] *)
Definition urlsafe_b64decode (s : string) : Outcome bytes :=
  if Base64.is_ascii s then b64decode (JStr (translate s)) else Raise ValueError.

(** [v.startswith(prefix)]; only a [str] has the method. *)
Definition startswith (v : json) (prefix : string) : Outcome bool :=
  match v with
  | JStr s => Ok (String.prefix prefix s)
  | _ => Raise AttributeError
  end.

(** The response dict of [handler]; [headers] is [None] when the dict
    has no such key. *)
Inductive Body : Type :=
| Text (s : string)
| Dumps (v : json).

Record Response : Type := mkResponse {
  statusCode : Z;
  headers : option (list (string * json));
  body : Body
}.

Section Handler.

(** [VONAGE_APPLICATION_ID] is read from the environment when the module
    is loaded: [None] when the variable is not set. *)
Variable VONAGE_APPLICATION_ID : option string.

(** [json.loads] *)
Variable json_loads : bytes -> Outcome json.

(** What [AgentRuntimeClient(region=REGION).generate_presigned_url(
    runtime_arn=AGENT_RUNTIME_ARN, expires=300)] returns or raises. *)
Variable client_url : Result json.

(** The [try] block of [verify_vonage_request], up to the claims. *)
Definition read_claims (auth_header : string) : Result json :=
  match second (split " " auth_header) with
  | Throw e => Throw e
  | Return token =>
      match second (split "." token) with
      | Throw e => Throw e
      | Return payload =>
          let payload :=
            payload ++ equals (4 - Nat.modulo (String.length payload) 4) in
          match urlsafe_b64decode payload with
          | Raise e => Throw (Builtin e)
          | Ok decoded => of_outcome (json_loads decoded)
          end
      end
  end.

(** The request is checked against [application_id]. *)
Definition check_claims (application_id : string) (event : json) (lam : Lambda)
    : Result bool * Lambda :=
  match py_get event "headers" (JObj []) with
  | Raise e => (Throw (Builtin e), lam)
  | Ok event_headers =>
      match py_get event_headers "authorization" (JStr "") with
      | Raise e => (Throw (Builtin e), lam)
      | Ok auth_header =>
          match auth_header with
          | JStr auth =>
              if negb (String.prefix "Bearer " auth) then
                (Return false,
                 write WARNING "Missing or invalid Authorization header" [] lam)
              else
                let caught e :=
                  (Return false,
                   write ERROR "JWT verification failed: {}" [ArgExc e] lam) in
                match read_claims auth with
                | Throw e => caught e
                | Return claims =>
                    match py_get claims "application_id" JNull with
                    | Raise e => caught (Builtin e)
                    | Ok claimed =>
                        if negb (is_str application_id claimed) then
                          (Return false,
                           write WARNING "Application ID mismatch: {}"
                             [ArgVal claimed] lam)
                        else (Return true, lam)
                    end
                end
          | _ => (Throw (Builtin AttributeError), lam)
          end
      end
  end.

Definition verify_vonage_request (event : json) (lam : Lambda)
    : Result bool * Lambda :=
  let skipped :=
    (Return true,
     write WARNING "VONAGE_APPLICATION_ID not set, skipping verification" [] lam) in
  match VONAGE_APPLICATION_ID with
  | Some application_id =>
      if String.eqb application_id "" then skipped
      else check_claims application_id event lam
  | None => skipped
  end.

Definition generate_presigned_url (lam : Lambda) : Result json * Lambda :=
  let lam := mkLambda (log lam) (S (presigned lam)) in
  match client_url with
  | Throw e => (Throw e, lam)
  | Return url_ => (Return url_, write INFO "Generated presigned URL: {}" [ArgVal url_] lam)
  end.

Definition json_content : option (list (string * json)) :=
  Some [("Content-Type", JStr "application/json")].

(** The branch of [handler] for [GET /vonage/answer]. *)
Definition answer (event : json) (lam : Lambda) : Result Response * Lambda :=
  match py_get event "queryStringParameters" JNull with
  | Raise e => (Throw (Builtin e), lam)
  | Ok given =>
      let query_params := if truthy given then given else JObj [] in
      match py_get query_params "uuid" (JStr "unknown") with
      | Raise e => (Throw (Builtin e), lam)
      | Ok call_uuid =>
          match py_get query_params "from" (JStr "unknown") with
          | Raise e => (Throw (Builtin e), lam)
          | Ok caller =>
              let (ws_url, lam) := generate_presigned_url lam in
              let (ncco, lam) :=
                match ws_url with
                | Return ws_url =>
                    (JArr
                       [JObj [("action", JStr "talk");
                              ("text", JStr "Connecting you now.")];
                        JObj [("action", JStr "connect");
                              ("endpoint", JArr
                                 [JObj [("type", JStr "websocket");
                                        ("uri", ws_url);
                                        ("content-type", JStr "audio/l16;rate=16000");
                                        ("headers", JObj
                                           [("x-call-uuid", call_uuid);
                                            ("x-caller", caller)])]])]],
                     lam)
                | Throw e =>
                    (JArr [JObj [("action", JStr "talk");
                                 ("text", JStr "Sorry, technical difficulties.")]],
                     write ERROR "Error: {}" [ArgExc e] lam)
                end in
              (Return (mkResponse 200 json_content (Dumps ncco)), lam)
          end
      end
  end.

(** [handler] after the verification of a Vonage path. *)
Definition route (path method event : json) (lam : Lambda)
    : Result Response * Lambda :=
  if is_str "/vonage/answer" path && is_str "GET" method then answer event lam
  else if is_str "/vonage/event" path && is_str "POST" method then
    match py_get event "body" (JStr "{}") with
    | Raise e => (Throw (Builtin e), lam)
    | Ok event_body =>
        (Return (mkResponse 200 None (Text "{}")),
         write INFO "Event: {}" [ArgVal event_body] lam)
    end
  else if is_str "/vonage/fallback" path && is_str "POST" method then
    (Return
       (mkResponse 200 json_content
          (Dumps (JArr [JObj [("action", JStr "talk");
                              ("text", JStr "Sorry, couldn't connect your call.")]]))),
     lam)
  else (Return (mkResponse 404 None (Text "Not found")), lam).

(** [path] and [method] as [handler] reads them from the event. *)
Definition request_line (event : json) : Outcome (json * json) :=
  match py_get event "path" (JStr "") with
  | Raise e => Raise e
  | Ok fallback_path =>
      match py_get event "rawPath" fallback_path with
      | Raise e => Raise e
      | Ok path =>
          match py_get event "requestContext" (JObj []) with
          | Raise e => Raise e
          | Ok request_context =>
              match py_get request_context "http" (JObj []) with
              | Raise e => Raise e
              | Ok http_ =>
                  match py_get event "httpMethod" (JStr "GET") with
                  | Raise e => Raise e
                  | Ok fallback_method =>
                      match py_get http_ "method" fallback_method with
                      | Raise e => Raise e
                      | Ok method => Ok (path, method)
                      end
                  end
              end
          end
      end
  end.

Definition handler (event : json) (lam : Lambda) : Result Response * Lambda :=
  match request_line event with
  | Raise e => (Throw (Builtin e), lam)
  | Ok (path, method) =>
      let lam := write INFO "Request: {} {}" [ArgVal method; ArgVal path] lam in
      match startswith path "/vonage/" with
      | Raise e => (Throw (Builtin e), lam)
      | Ok false => route path method event lam
      | Ok true =>
          match verify_vonage_request event lam with
          | (Throw e, lam) => (Throw e, lam)
          | (Return false, lam) =>
              (Return (mkResponse 401 None (Text "Unauthorized")), lam)
          | (Return true, lam) => route path method event lam
          end
      end
  end.

End Handler.

End Api.

(** ** Vocabulary of the statements *)

(** The six handshake events of a session, in the order of [start]. *)
Definition handshake (VOICE_ID SYSTEM_PROMPT : string) (this : NovaSonicBridge)
    : list json :=
  [session_start this;
   prompt_start VOICE_ID this;
   system_content_start this;
   system_text_input SYSTEM_PROMPT this;
   system_content_end this;
   audio_content_start this].

(** The chunks the stream of a bridge has accepted. *)
Definition emitted (b : NovaSonicBridge) : list json :=
  match stream b with
  | Some s => sent s
  | None => []
  end.

(** How often the draining task of a bridge has been cancelled. *)
Definition cancellations (b : NovaSonicBridge) : nat :=
  match response_task b with
  | Some t => cancel_calls t
  | None => 0%nat
  end.

(** The next [n] calls of [input_stream.send] return. *)
Definition sends_ok (n : nat) (results : list (option exn)) : bool :=
  forallb (fun r => match r with None => true | Some _ => false end)
    (firstn n results).

(** The draining task survives [result]: its loop body runs to the end
    without raising.  Whether it raises depends on [result] and on the sink
    only ([harmless_iteration]), so the loop body is run here on an
    arbitrary state with [role] unset. *)
Definition harmless (callback : bytes -> Outcome unit) (result : RecvItem) : bool :=
  is_ok (fst (iteration callback JNull result
                (mkState (__init__ "" "" "") (mkEnv None [] None [] [] [])))).

(** Nothing in the batches to come ends the draining task. *)
Definition all_harmless (callback : bytes -> Outcome unit)
    (batches : list (list RecvItem)) : bool :=
  forallb (forallb (harmless callback)) batches.


(** The inbound event [{"event": {tag: body}}]. *)
Definition inbound (tag : string) (body : json) : RecvItem :=
  RecvJson (JObj [("event", JObj [(tag, body)])]).

(** The inbound event [{"event": {"audioOutput": {"content": content}}}]. *)
Definition audio_output (content : string) : RecvItem :=
  inbound "audioOutput" (JObj [("content", JStr content)]).

(** How many of the chunks [payloads], handed to the sink one after the
    other, the sink is called on: those up to and including the first on
    which it raises. *)
Fixpoint heard (callback : bytes -> Outcome unit) (payloads : list bytes) : nat :=
  match payloads with
  | [] => 0
  | payload :: rest =>
      match callback payload with
      | Ok _ => S (heard callback rest)
      | Raise _ => 1
      end
  end.

(** The inbound event [{"event": {}}]. *)
Definition empty_event : RecvItem := RecvJson (JObj [("event", JObj [])]).

(** A draining task that is suspended in its receive. *)
Definition waiting (b : NovaSonicBridge) : bool :=
  match response_task b with
  | Some t => match task_state t with TaskWaiting _ => true | _ => false end
  | None => false
  end.

(** The tag and the body of an event [{"event": {tag: body}}]. *)
Definition event_body (event : json) : option (string * json) :=
  match event with
  | JObj fields =>
      match lookup "event" fields with
      | Some (JObj [(tag, body)]) => Some (tag, body)
      | _ => None
      end
  | _ => None
  end.

(** The tag of an event. *)
Definition event_tag (event : json) : option string :=
  option_map fst (event_body event).


(** The top-level tags the draining task acts on. *)
Definition recognised (tag : string) : bool :=
  String.eqb tag "contentStart" || String.eqb tag "textOutput"
  || String.eqb tag "audioOutput".

(** The states of a bridge on which no successful [start] is in force:
    a bridge just built, a bridge whose [start] has raised, a bridge after
    [stop], and whatever follows from these through further calls of
    [send_audio] and [stop] and through the activity of the draining task. *)
Inductive dormant : State -> Prop :=
| dormant_new uuid1 uuid2 uuid3 e :
    dormant (mkState (__init__ uuid1 uuid2 uuid3) e)
| dormant_start_failed VOICE_ID SYSTEM_PROMPT callback st err st' :
    start VOICE_ID SYSTEM_PROMPT callback st = (Raise err, st') -> dormant st'
| dormant_stopped st :
    dormant (snd (stop st))
| dormant_send_audio pcm_bytes st :
    dormant st -> dormant (snd (send_audio pcm_bytes st))
| dormant_drain st :
    dormant st -> dormant (drain st).

(** The states a caller can have a bridge in: a bridge just built, and
    what follows from it through calls of [start], [send_audio] and [stop],
    through the activity of the draining task, and through any change in
    how the service will behave. *)
Inductive reachable : State -> Prop :=
| reach_new uuid1 uuid2 uuid3 e :
    reachable (mkState (__init__ uuid1 uuid2 uuid3) e)
| reach_start VOICE_ID SYSTEM_PROMPT callback st :
    reachable st -> reachable (snd (start VOICE_ID SYSTEM_PROMPT callback st))
| reach_send_audio pcm_bytes st :
    reachable st -> reachable (snd (send_audio pcm_bytes st))
| reach_stop st :
    reachable st -> reachable (snd (stop st))
| reach_drain st :
    reachable st -> reachable (drain st)
| reach_env st e :
    reachable st -> reachable (mkState (self st) e).

(** ** Vocabulary of the proofs *)

(** A computation preserves a relation when every run relates the state
    it starts from to the state it ends in, whatever the outcome. *)
Definition preserves (R : State -> State -> Prop) {A} (m : M A) : Prop :=
  forall st, R st (snd (m st)).

(** What the loop body of the draining task can change: the log and the
    calls to the sink, nothing else. *)
Definition logs_only (st st' : State) : Prop :=
  self st' = self st /\
  open_result (env st') = open_result (env st) /\
  send_results (env st') = send_results (env st) /\
  close_result (env st') = close_result (env st) /\
  arrivals (env st') = arrivals (env st).

(** A computation whose outcome does not depend on the state. *)
Definition stateless {A} (m : M A) : Prop :=
  forall st st0, fst (m st) = fst (m st0).

(** Two computations that return together and raise together, from any
    two states. *)
Definition same_kind {A B} (m1 : M A) (m2 : M B) : Prop :=
  forall st1 st2, is_ok (fst (m1 st1)) = is_ok (fst (m2 st2)).

(** The same task object, with the same sink and as many cancellations. *)
Definition task_kept (t t' : option Task) : Prop :=
  match t, t' with
  | None, None => True
  | Some x, Some y =>
      send_callback y = send_callback x /\ cancel_calls y = cancel_calls x
  | _, _ => False
  end.

(** What the draining task can change in the bridge: it may go on or
    finish, and it may clear the active flag; it never sets the flag, and
    it leaves the stream, the identifiers, the counter and the answers of
    the service alone. *)
Definition drained (st st' : State) : Prop :=
  stream (self st') = stream (self st) /\
  prompt_name (self st') = prompt_name (self st) /\
  content_name (self st') = content_name (self st) /\
  audio_content_name (self st') = audio_content_name (self st) /\
  audio_chunks_sent (self st') = audio_chunks_sent (self st) /\
  open_result (env st') = open_result (env st) /\
  send_results (env st') = send_results (env st) /\
  close_result (env st') = close_result (env st) /\
  arrivals (env st') = arrivals (env st) /\
  (is_active (self st') = true -> is_active (self st) = true) /\
  task_kept (response_task (self st)) (response_task (self st')).

(** A suspension point changes what the draining task can change, and
    uses up one batch of arrivals. *)
Definition suspended (st st' : State) : Prop :=
  drained (on_env (fun e => set_arrivals (tl (arrivals e)) e) st) st'.

(** The counter of a bridge is touched by [send_audio] alone. *)
Definition same_counter (st st' : State) : Prop :=
  audio_chunks_sent (self st') = audio_chunks_sent (self st).

(** A computation that never raises. *)
Definition safe {A} (m : M A) : Prop := forall st, is_ok (fst (m st)) = true.

(** What an inactive bridge keeps through the shutdown: it stays inactive,
    its stream takes no event, its draining task is not cancelled. *)
Definition hushed (st st' : State) : Prop :=
  is_active (self st) = false ->
  is_active (self st') = false /\
  emitted (self st') = emitted (self st) /\
  cancellations (self st') = cancellations (self st).

(** The handshake as a list of pauses and events, followed by [k]. *)
Fixpoint run_steps (steps : list (nat * (NovaSonicBridge -> json))) (k : M unit)
    : M unit :=
  match steps with
  | [] => k
  | (ms, event) :: rest =>
      asyncio_sleep ms ;; send_event event ;; run_steps rest k
  end.

(** The pauses and events of [start], in its order. *)
Definition handshake_steps (VOICE_ID SYSTEM_PROMPT : string)
    : list (nat * (NovaSonicBridge -> json)) :=
  [(100%nat, session_start);
   (100%nat, prompt_start VOICE_ID);
   (100%nat, system_content_start);
   (50%nat, system_text_input SYSTEM_PROMPT);
   (50%nat, system_content_end);
   (100%nat, audio_content_start)].

(** The [except] clause of [start]. *)
Definition start_handler (e : exn) : M unit :=
  logger_error "Failed to start Nova Sonic session: {}" [ArgExn e] ;;
  update (on_self (set_is_active false)) ;;
  raise e.

(** Two bridges with the same three identifiers. *)
Definition same_ids (b b' : NovaSonicBridge) : Prop :=
  prompt_name b' = prompt_name b /\
  content_name b' = content_name b /\
  audio_content_name b' = audio_content_name b.

(** An event that is built from the identifiers of the bridge alone. *)
Definition keyed (event : NovaSonicBridge -> json) : Prop :=
  forall b b', same_ids b b' -> event b' = event b.

(** A bridge in the middle of a healthy session: the flag is set and the
    draining task, bound to [callback], has not finished. *)
Definition alive (callback : bytes -> Outcome unit) (st : State) : Prop :=
  is_active (self st) = true /\
  exists t,
    response_task (self st) = Some t /\
    send_callback t = callback /\
    done t = false.

(** A healthy session with only harmless arrivals ahead. *)
Definition healthy (callback : bytes -> Outcome unit) (st : State) : Prop :=
  alive callback st /\ all_harmless callback (arrivals (env st)) = true.

(** The effect of one accepted event on a healthy session. *)
Definition emits (callback : bytes -> Outcome unit) (events : list json)
    (st st' : State) : Prop :=
  healthy callback st' /\
  same_ids (self st) (self st') /\
  audio_chunks_sent (self st') = audio_chunks_sent (self st) /\
  (forall strm, stream (self st) = Some strm ->
     stream (self st') = Some (mkStream (sent strm ++ events) (input_closed strm))) /\
  send_results (env st') = skipn (List.length events) (send_results (env st)).

(** The state in which the stream-open call returns or raises. *)
Definition connecting (st : State) : State :=
  drain (on_env (fun e => set_log
                   (log e ++ [mkLog INFO "Connecting to Nova Sonic..." []]) e) st).

(** The state in which the handshake begins. *)
Definition opened (callback : bytes -> Outcome unit) (st : State) : State :=
  on_self (set_response_task (Some (create_task callback)))
    (on_env (fun e => set_log (log e ++ [mkLog INFO "Stream connected" []]) e)
       (on_self (set_is_active true)
          (on_self (set_stream (Some (mkStream [] false))) (connecting st)))).

(** A continuation that returns and leaves the bridge alone. *)
Definition closing (k : M unit) : Prop :=
  forall st, exists st', k st = (Ok tt, st') /\ self st' = self st.

(** A bridge with a stream. *)
Definition has_stream (b : NovaSonicBridge) : bool :=
  match stream b with Some _ => true | None => false end.

(** A bridge that has a stream keeps one. *)
Definition keeps_stream (st st' : State) : Prop :=
  has_stream (self st) = true -> has_stream (self st') = true.

(** An active bridge has a stream. *)
Definition sound (st : State) : Prop :=
  is_active (self st) = true -> has_stream (self st) = true.

(** The checks behind the base64 round trip: what encoding and decoding
    do with one sextet, and the arithmetic of one group of bytes. *)
Definition sextet_ok (n : N) : bool :=
  (negb (Ascii.eqb (Base64.enc_char n) Base64.pad)
   && match Base64.dec_char (Base64.enc_char n) with
      | Some m => N.eqb m n
      | None => false
      end
   && N.ltb (N_of_ascii (Base64.enc_char n)) 128)%N.

Definition pair_ok (a b : N) : bool :=
  (N.ltb (N.shiftr a 2) 64
  && N.ltb (N.lor (N.shiftl (N.land a 3) 4) (N.shiftr b 4)) 64
  && N.ltb (N.shiftl (N.land a 15) 2) 64
  && N.ltb (N.lor (N.shiftl (N.land a 15) 2) (N.shiftr b 6)) 64
  && N.ltb (N.land a 63) 64
  && N.ltb (N.shiftl (N.land a 3) 4) 64
  && N.eqb (N.land
              (N.lor (N.shiftl (N.shiftr a 2) 2)
                 (N.shiftr (N.lor (N.shiftl (N.land a 3) 4) (N.shiftr b 4)) 4)) 255) a
  && N.eqb (N.land
              (N.lor (N.shiftl (N.shiftr a 2) 2)
                 (N.shiftr (N.shiftl (N.land a 3) 4) 4)) 255) a
  && N.eqb (N.land (N.lor (N.shiftl (N.land a 3) 4) (N.shiftr b 4)) 15) (N.shiftr b 4)
  && N.eqb (N.shiftr (N.lor (N.shiftl (N.land a 15) 2) (N.shiftr b 6)) 2) (N.land a 15)
  && N.eqb (N.shiftr (N.shiftl (N.land a 15) 2) 2) (N.land a 15)
  && N.eqb (N.land (N.lor (N.shiftl (N.shiftr a 4) 4) (N.land a 15)) 255) a
  && N.eqb (N.land
              (N.lor (N.shiftl (N.land (N.lor (N.shiftl (N.land a 15) 2) (N.shiftr b 6)) 3) 6)
                 (N.land b 63)) 255) b)%N.

(** ** Vocabulary of the further properties *)

(** A draining task that has returned. *)
Definition finished (b : NovaSonicBridge) : bool :=
  match response_task b with
  | Some t => done t
  | None => false
  end.

(** The value of [role] a suspended draining task holds. *)
Definition tracked_role (b : NovaSonicBridge) : option json :=
  match response_task b with
  | Some t => match task_state t with TaskWaiting role => Some role | _ => None end
  | None => None
  end.

(** [d.get(key, default)] on the fields of a dict. *)
Definition field_or (key : string) (default : json) (fields : list (string * json))
    : json :=
  match lookup key fields with
  | Some x => x
  | None => default
  end.

(** What the transport of a call usually delivers: nothing within the
    timeout, a text frame, or a binary frame. *)
Inductive Frame : Type :=
| Silence
| Text (s : string)
| Binary (data : bytes).

Definition text_frame (s : string) : Message :=
  [("type", WsStr "websocket.receive"); ("text", WsStr s)].

Definition binary_frame (data : bytes) : Message :=
  [("type", WsStr "websocket.receive"); ("bytes", WsBytes data)].

Definition disconnect_message (code : Z) : Message :=
  [("type", WsStr "websocket.disconnect"); ("code", WsInt code)].

Definition receive_of (f : Frame) : Received :=
  match f with
  | Silence => ReceiveTimeout
  | Text s => ReceiveMessage (text_frame s)
  | Binary data => ReceiveMessage (binary_frame data)
  end.

(** The audio a frame carries. *)
Definition audio_of (f : Frame) : list bytes :=
  match f with
  | Binary data => [data]
  | _ => []
  end.


(** The effect of forwarding [chunks] on a healthy session: the stream
    has taken one [audioInput] event for each, in order, and the counter
    has counted them. *)
Definition forwarded (callback : bytes -> Outcome unit) (chunks : list bytes)
    (st st' : State) : Prop :=
  healthy callback st' /\
  same_ids (self st) (self st') /\
  audio_chunks_sent (self st') = audio_chunks_sent (self st) + Z.of_nat (List.length chunks) /\
  (forall strm, stream (self st) = Some strm ->
     stream (self st') =
       Some (mkStream (sent strm ++ map (fun data => audio_input data (self st)) chunks)
               (input_closed strm))) /\
  send_results (env st') = skipn (List.length chunks) (send_results (env st)).

(** The requests the credential provider makes. *)
Definition token_request : Request :=
  mkRequest PUT token_url [("X-aws-ec2-metadata-token-ttl-seconds", "21600")] 2.

Definition role_request (token : list (string * string)) : Request :=
  mkRequest GET role_url token 2.

Definition credentials_request (role_name : string) (token : list (string * string))
    : Request :=
  mkRequest GET (role_url ++ role_name) token 2.

(** The token header the metadata service makes the provider send: the
    text of its answer to the token request when that answer has status
    200 and is not empty, and no header otherwise. *)
Definition granted_token (imds : Imds) : list (string * string) :=
  match imds token_request with
  | HttpReturn response =>
      if (status_code response =? 200) && negb (String.eqb (text response) "")
      then [("X-aws-ec2-metadata-token", text response)]
      else []
  | HttpRaise _ => []
  end.

(** The three variables [setup_credentials] writes. *)
Definition credential_variable (key : string) : bool :=
  String.eqb key "AWS_ACCESS_KEY_ID" || String.eqb key "AWS_SECRET_ACCESS_KEY"
  || String.eqb key "AWS_SESSION_TOKEN".

(** A bridge that has a draining task. *)
Definition has_task (b : NovaSonicBridge) : bool :=
  match response_task b with Some _ => true | None => false end.

(** A bridge that has a draining task keeps one. *)
Definition keeps_task (st st' : State) : Prop :=
  has_task (self st) = true -> has_task (self st') = true.

(** A draining task that has returned stays so. *)
Definition stays_finished (st st' : State) : Prop :=
  finished (self st) = true -> finished (self st') = true.

(** The authorization header of an event, as [verify_vonage_request]
    reads it. *)
Definition authorization (event : json) : Outcome json :=
  match py_get event "headers" (JObj []) with
  | Ok event_headers => py_get event_headers "authorization" (JStr "")
  | Raise e => Raise e
  end.

(** A bearer token of three segments. *)
Definition bearer (header payload signature : string) : string :=
  "Bearer " ++ header ++ "." ++ payload ++ "." ++ signature.

(** A text without a space and without a dot. *)
Definition segment (s : string) : bool :=
  forallb (fun c => negb (Ascii.eqb c " ") && negb (Ascii.eqb c "."))
    (list_ascii_of_string s).

(** Whether the payload segment of a token claims the application: it
    decodes, after padding, to a JSON object whose [application_id] is the
    configured one. *)
Definition payload_accepted (application_id : string)
    (json_loads : bytes -> Outcome json) (payload : string) : bool :=
  match Api.urlsafe_b64decode
          (payload ++ Api.equals (4 - Nat.modulo (String.length payload) 4)) with
  | Ok decoded =>
      match json_loads decoded with
      | Ok (JObj claims) => is_str application_id (field_or "application_id" JNull claims)
      | _ => false
      end
  | Raise _ => false
  end.

(** The payload segment of a token as JSON Web Tokens write it: base64
    with the URL-safe alphabet and without the padding. *)
Definition urlsafe_char (c : ascii) : ascii :=
  if Ascii.eqb c "+" then "-"%char
  else if Ascii.eqb c "/" then "_"%char else c.

Fixpoint urlsafe (s : string) : string :=
  match s with
  | EmptyString => EmptyString
  | String c rest => String (urlsafe_char c) (urlsafe rest)
  end.

Fixpoint unpadded (s : string) : string :=
  match s with
  | EmptyString => EmptyString
  | String c rest => if Ascii.eqb c "=" then EmptyString else String c (unpadded rest)
  end.

Definition token_segment (data : bytes) : string := urlsafe (unpadded (b64encode data)).

(** The check behind the padding rule: what the URL-safe alphabet does
    with the character of one sextet. *)
Definition url_sextet_ok (n : N) : bool :=
  let u := urlsafe_char (Base64.enc_char n) in
  Ascii.eqb (Api.urlsafe_decode_translation u) (Base64.enc_char n)
  && negb (Ascii.eqb u " ")
  && negb (Ascii.eqb u ".")
  && N.ltb (N_of_ascii u) 128.

(** A token segment with the padding [read_claims] adds. *)
Definition repadded (s : string) : string :=
  s ++ Api.equals (4 - Nat.modulo (String.length s) 4).

(** The query parameters of an event that has some: API Gateway gives an
    object, or null when the request has none. *)
Definition query_parameters (event : json) : option (list (string * json)) :=
  match py_get event "queryStringParameters" JNull with
  | Ok (JObj parameters) => Some parameters
  | Ok JNull => Some []
  | _ => None
  end.

(** The call-control answer that connects a call to [ws_url]. *)
Definition connect_ncco (ws_url call_uuid caller : json) : json :=
  JArr
    [JObj [("action", JStr "talk"); ("text", JStr "Connecting you now.")];
     JObj [("action", JStr "connect");
           ("endpoint", JArr
              [JObj [("type", JStr "websocket");
                     ("uri", ws_url);
                     ("content-type", JStr "audio/l16;rate=16000");
                     ("headers", JObj [("x-call-uuid", call_uuid);
                                       ("x-caller", caller)])]])]].

(** The call-control answer that only speaks. *)
Definition talk_ncco (text : string) : json :=
  JArr [JObj [("action", JStr "talk"); ("text", JStr text)]].

(** ** Sample sessions

    The configuration defaults of the source, a sink that takes every
    chunk, and the states of one call: before [start], after [start],
    while the service is talking, and with a service that refuses. *)

Definition default_voice : string := "tiffany".

Definition default_prompt : string :=
  "You are a friendly phone assistant. Keep responses short and conversational.".

Definition sink (audio : bytes) : Outcome unit := Ok tt.

Definition new_call : State :=
  mkState (__init__ "prompt-1" "content-1" "audio-1") (mkEnv None [] None [] [] []).


(** The state [start] leaves a new call in (see [in_call_started]). *)
Definition in_call : State :=
  Eval vm_compute in snd (start default_voice default_prompt sink new_call).

(** A call during which an audio chunk arrives at the next pause. *)
Definition talking : State := on_env (set_arrivals [[audio_output "AAE="]]) in_call.

(** A call whose stream refuses the next chunk. *)
Definition broken_call : State :=
  on_env (set_send_results [Some (StreamError "connection reset")]) in_call.

(** A new call whose stream-open call is refused. *)
Definition refused_call : State :=
  mkState (__init__ "prompt-1" "content-1" "audio-1")
    (mkEnv (Some (StreamError "access denied")) [] None [] [] []).

(** A new call whose stream opens and whose first receive then raises. *)
Definition deaf_call : State :=
  on_env (set_arrivals [[]; [RecvRaise (StreamError "validation failed")]]) new_call.


(** A new call whose stream refuses the third handshake event. *)
Definition cut_call : State :=
  on_env (set_send_results [None; None; Some (StreamError "connection reset")])
    new_call.

(** ** Sample calls and a sample metadata service

    A transport that accepts, delivers a text banner, two binary frames
    with a timeout between them and a disconnect message, and takes every
    frame; an environment in which nothing fails and one whose stream
    refuses the second chunk of audio; a metadata service that knows one
    role, one whose credentials lack the session token, and a process
    without credentials. *)

Definition phone : Transport :=
  mkTransport "Address(host='10.0.0.7', port=40312)" None
    [ReceiveMessage (text_frame "websocket:connected");
     ReceiveMessage (binary_frame [x00; x01]);
     ReceiveTimeout;
     ReceiveMessage (binary_frame [x02; x03]);
     ReceiveMessage (disconnect_message 1000)]
    (fun _ => Ok tt).

Definition quiet : Env := mkEnv None [] None [] [] [].

Definition flaky : Env :=
  mkEnv None (repeat None 7 ++ [Some (StreamError "connection reset")]) None [] [] [].

Definition role_credentials (fields : list (string * json)) : Imds :=
  fun request =>
    match method request with
    | PUT => HttpReturn (mkResponse 200 "token-1" (inl "not JSON"))
    | GET =>
        if String.eqb (url request) role_url then
          HttpReturn (mkResponse 200 ("bridge-role" ++ nl) (inl "not JSON"))
        else if String.eqb (url request) (role_url ++ "bridge-role") then
          HttpReturn (mkResponse 200 "" (inr (JObj fields)))
        else HttpReturn (mkResponse 404 "" (inl "not JSON"))
    end.

Definition metadata_service : Imds :=
  role_credentials
    [("Code", JStr "Success");
     ("AccessKeyId", JStr "ASIAEXAMPLE");
     ("SecretAccessKey", JStr "secret-1");
     ("Token", JStr "session-1")].

Definition tokenless_service : Imds :=
  role_credentials
    [("Code", JStr "Success");
     ("AccessKeyId", JStr "AKIAEXAMPLE");
     ("SecretAccessKey", JStr "secret-1")].

Definition unreachable_service : Imds := fun _ => HttpRaise "connect timeout".

Definition bare_process : Process :=
  mkProcess [("AWS_DEFAULT_REGION", "us-east-1")] [] [].

(** ** Sample requests of the webhook

    The claims of a token as JSON text, a [json.loads] that reads this
    text and rejects every other, and the events of an answer request
    with a forged token, with the token of another application and
    without query parameters. *)

Definition claims_text : string :=
  "{" ++ dq ++ "application_id" ++ dq ++ ": " ++ dq ++ "app-1" ++ dq ++ "}".

Definition other_claims_text : string :=
  "{" ++ dq ++ "application_id" ++ dq ++ ": " ++ dq ++ "app-2" ++ dq ++ "}".

Definition sample_loads (data : bytes) : Outcome json :=
  if String.eqb (string_of_list_byte data) claims_text then
    Ok (JObj [("application_id", JStr "app-1")])
  else if String.eqb (string_of_list_byte data) other_claims_text then
    Ok (JObj [("application_id", JStr "app-2")])
  else Raise ValueError.

Definition answer_request (auth : string) : json :=
  JObj [("rawPath", JStr "/vonage/answer");
        ("requestContext", JObj [("http", JObj [("method", JStr "GET")])]);
        ("headers", JObj [("authorization", JStr auth)]);
        ("queryStringParameters", JNull)].

Definition forged_request : json :=
  answer_request
    (bearer "e30" (token_segment (list_byte_of_string claims_text)) "not-a-signature").

Definition foreign_request : json :=
  answer_request
    (bearer "e30" (token_segment (list_byte_of_string other_claims_text)) "signature").

Definition health_request : json :=
  JObj [("rawPath", JStr "/health");
        ("requestContext", JObj [("http", JObj [("method", JStr "GET")])])].

Definition cold : Api.Lambda := Api.mkLambda [] 0.

Definition sample_url : Api.Result json := Api.Return (JStr "wss://runtime.example/ws?sig=1").



(** * Properties *)

(** ** Reasoning about the monad *)

Lemma bind_ok {A B} (m : M A) (k : A -> M B) st a st' :
  m st = (Ok a, st') -> bind m k st = k a st'.
Proof. intros E. unfold bind. now rewrite E. Qed.

Lemma bind_raise {A B} (m : M A) (k : A -> M B) st e st' :
  m st = (Raise e, st') -> bind m k st = (Raise e, st').
Proof. intros E. unfold bind. now rewrite E. Qed.

Section Preserves.

Context (R : State -> State -> Prop) {HR : PreOrder R}.

Lemma preserves_ret {A} (a : A) : preserves R (ret a).
Proof. intros st. simpl. reflexivity. Qed.

Lemma preserves_raise {A} (e : exn) : preserves R (@raise A e).
Proof. intros st. simpl. reflexivity. Qed.

Lemma preserves_lift {A} (o : Outcome A) : preserves R (lift o).
Proof. intros st. simpl. reflexivity. Qed.

Lemma preserves_read {A} (f : NovaSonicBridge -> A) : preserves R (read f).
Proof. intros st. simpl. reflexivity. Qed.

Lemma preserves_update (f : State -> State) :
  (forall st, R st (f st)) -> preserves R (update f).
Proof. intros H st. simpl. apply H. Qed.

Lemma preserves_bind {A B} (m : M A) (k : A -> M B) :
  preserves R m -> (forall a, preserves R (k a)) -> preserves R (bind m k).
Proof.
  intros Hm Hk st. unfold bind.
  specialize (Hm st). destruct (m st) as [[a | e] st1]; simpl in *.
  - etransitivity; [exact Hm | apply Hk].
  - exact Hm.
Qed.

Lemma preserves_try_except {A} (body : M A) (handler : exn -> M A) :
  preserves R body -> (forall e, preserves R (handler e)) ->
  preserves R (try_except body handler).
Proof.
  intros Hb Hh st. unfold try_except.
  specialize (Hb st). destruct (body st) as [[a | e] st1]; simpl in *.
  - exact Hb.
  - etransitivity; [exact Hb | apply Hh].
Qed.

Lemma preserves_when (c : bool) (m : M unit) :
  preserves R m -> preserves R (when c m).
Proof. intros H. destruct c; simpl; [exact H | apply preserves_ret]. Qed.

End Preserves.

(** Breaks a computation down along its structure. *)
Ltac preserve_step :=
  first
    [ apply preserves_ret; solve [auto with typeclass_instances]
    | apply preserves_raise; solve [auto with typeclass_instances]
    | apply preserves_lift; solve [auto with typeclass_instances]
    | apply preserves_read; solve [auto with typeclass_instances]
    | apply preserves_when; [solve [auto with typeclass_instances] |]
    | apply preserves_bind; [solve [auto with typeclass_instances] | | intro]
    | apply preserves_try_except; [solve [auto with typeclass_instances] | | intro]
    | match goal with
      | |- preserves _ (if ?c then _ else _) => destruct c
      | |- preserves _ (match ?x with _ => _ end) => destruct x
      end ].

#[local] Instance logs_only_preorder : PreOrder logs_only.
Proof.
  split.
  - intros st. repeat split.
  - intros x y z (A1 & A2 & A3 & A4 & A5) (B1 & B2 & B3 & B4 & B5).
    repeat split; congruence.
Qed.

Lemma logger_info_logs_only template args :
  preserves logs_only (logger_info template args).
Proof. intros st. repeat split. Qed.

Lemma logger_error_logs_only template args :
  preserves logs_only (logger_error template args).
Proof. intros st. repeat split. Qed.

Lemma call_sink_logs_only callback audio :
  preserves logs_only (call_sink callback audio).
Proof. intros st. repeat split. Qed.

Lemma iteration_logs_only callback role result :
  preserves logs_only (iteration callback role result).
Proof.
  unfold iteration, receive, dispatch.
  destruct result;
    repeat first
      [ apply logger_info_logs_only
      | apply logger_error_logs_only
      | apply call_sink_logs_only
      | preserve_step ].
Qed.

Lemma task_except_logs_only e : preserves logs_only (task_except e).
Proof.
  destruct e; simpl;
    first [apply preserves_ret; exact _ | apply logger_error_logs_only].
Qed.

(** ** Base64: decoding undoes encoding *)

Section Base64Facts.

Import Base64.
Local Open Scope N_scope.

(** A check that holds for the first [k] numbers holds below [k]. *)
Lemma forall_below (P : N -> bool) (k : nat) :
  forallb P (map N.of_nat (seq 0 k)) = true ->
  forall n, n < N.of_nat k -> P n = true.
Proof.
  intros H n Hn. rewrite forallb_forall in H. apply H.
  apply in_map_iff. exists (N.to_nat n). split; [apply N2Nat.id |].
  apply in_seq. lia.
Qed.

Lemma sextets_ok : forallb sextet_ok (map N.of_nat (seq 0 64)) = true.
Proof. vm_compute. reflexivity. Qed.

Lemma sextet n :
  n < 64 ->
  Ascii.eqb (enc_char n) pad = false /\
  dec_char (enc_char n) = Some n /\
  N.ltb (N_of_ascii (enc_char n)) 128 = true.
Proof.
  intros Hn.
  pose proof (forall_below sextet_ok 64 sextets_ok n Hn) as H.
  unfold sextet_ok in H. apply andb_prop in H as (H & H3).
  apply andb_prop in H as (H1 & H2). apply negb_true_iff in H1.
  destruct (dec_char (enc_char n)) as [m |]; [| discriminate].
  apply N.eqb_eq in H2. subst m. auto.
Qed.

Lemma pairs_ok :
  forallb (fun a => forallb (pair_ok a) (map N.of_nat (seq 0 256)))
    (map N.of_nat (seq 0 256)) = true.
Proof. vm_compute. reflexivity. Qed.

Lemma pair a b : a < 256 -> b < 256 -> pair_ok a b = true.
Proof.
  intros Ha Hb.
  pose proof (forall_below _ 256 pairs_ok a Ha) as H. cbv beta in H.
  exact (forall_below _ 256 H b Hb).
Qed.

Lemma byte_of_N_to_N n a : N.land n 255 = Byte.to_N a -> byte_of_N n = a.
Proof. intros H. unfold byte_of_N. now rewrite H, Byte.of_to_N. Qed.

Lemma a2b_sextet n s q l p :
  n < 64 ->
  a2b_base64 (String (enc_char n) s) q l p =
    match q with
    | 0 => a2b_base64 s 1 n 0
    | 1 => option_map (cons (byte_of_N (N.lor (N.shiftl l 2) (N.shiftr n 4))))
             (a2b_base64 s 2 (N.land n 15) 0)
    | 2 => option_map (cons (byte_of_N (N.lor (N.shiftl l 4) (N.shiftr n 2))))
             (a2b_base64 s 3 (N.land n 3) 0)
    | _ => option_map (cons (byte_of_N (N.lor (N.shiftl l 6) n)))
             (a2b_base64 s 0 0 0)
    end.
Proof.
  intros Hn. destruct (sextet n Hn) as (E1 & E2 & _).
  cbn [a2b_base64]. now rewrite E1, E2.
Qed.

Lemma to_N_lt a : Byte.to_N a < 256.
Proof. pose proof (Byte.to_N_bounded a). lia. Qed.

Ltac pair_facts a b :=
  let H := fresh "H" in
  pose proof (pair (Byte.to_N a) (Byte.to_N b) (to_N_lt a) (to_N_lt b)) as H;
  unfold pair_ok in H;
  repeat (apply andb_prop in H; destruct H as [H ?]);
  repeat match goal with
         | K : N.ltb _ _ = true |- _ => apply N.ltb_lt in K
         | K : N.eqb _ _ = true |- _ => apply N.eqb_eq in K
         end.

Lemma a2b_pad2 l : a2b_base64 (String pad (String pad "")) 2 l 0 = Some [].
Proof. reflexivity. Qed.

Lemma a2b_pad1 l : a2b_base64 (String pad "") 3 l 0 = Some [].
Proof. reflexivity. Qed.

Ltac decode_bytes :=
  unfold byte_of_N;
  repeat match goal with
         | K : _ = _ |- _ => rewrite K
         end;
  rewrite ?Byte.of_to_N.

Lemma a2b_b64encode n :
  forall bs, (List.length bs <= n)%nat -> a2b_base64 (b64encode bs) 0 0 0 = Some bs.
Proof.
  induction n as [| n IH]; intros bs Hl.
  - destruct bs; [reflexivity | simpl in Hl; lia].
  - destruct bs as [| a [| b [| c rest]]].
    + reflexivity.
    + clear IH Hl. pair_facts a a. cbn [b64encode].
      rewrite !a2b_sextet, a2b_pad2 by assumption.
      decode_bytes. reflexivity.
    + clear IH Hl. pair_facts a b. pair_facts b b. cbn [b64encode].
      rewrite !a2b_sextet, a2b_pad1 by assumption.
      decode_bytes. reflexivity.
    + assert (Hr : (List.length rest <= n)%nat) by (simpl in Hl; lia).
      specialize (IH rest Hr). clear Hl Hr.
      pair_facts a b. pair_facts b c. pair_facts c c. cbn [b64encode].
      rewrite !a2b_sextet by assumption.
      decode_bytes. reflexivity.
Qed.

Lemma enc_char_ascii n : n < 64 -> N.ltb (N_of_ascii (enc_char n)) 128 = true.
Proof. intros Hn. apply (sextet n Hn). Qed.

Lemma is_ascii_b64encode bs : is_ascii (b64encode bs) = true.
Proof.
  assert (Hp : N.ltb (N_of_ascii pad) 128 = true) by reflexivity.
  assert (G : forall n, forall bs, (List.length bs <= n)%nat -> is_ascii (b64encode bs) = true).
  { clear bs. unfold is_ascii.
    induction n as [| n IH]; intros bs Hl.
    - destruct bs; [reflexivity | simpl in Hl; lia].
    - destruct bs as [| a [| b [| c rest]]].
      + reflexivity.
      + pair_facts a a. cbn [b64encode list_ascii_of_string forallb].
        rewrite !enc_char_ascii by assumption. reflexivity.
      + pair_facts a b. pair_facts b b. cbn [b64encode list_ascii_of_string forallb].
        rewrite !enc_char_ascii by assumption. reflexivity.
      + assert (Hr : (List.length rest <= n)%nat) by (simpl in Hl; lia).
        specialize (IH rest Hr).
        pair_facts a b. pair_facts b c. pair_facts c c.
        cbn [b64encode list_ascii_of_string forallb].
        rewrite !enc_char_ascii by assumption. exact IH. }
  exact (G (List.length bs) bs (le_n _)).
Qed.

End Base64Facts.

(** Decoding the encoding of any bytes gives the bytes back. *)
Lemma b64decode_b64encode bs : b64decode (JStr (b64encode bs)) = Ok bs.
Proof.
  unfold b64decode, b64encode.
  now rewrite is_ascii_b64encode,
    (a2b_b64encode (List.length bs) bs (le_n _)).
Qed.

(** *** Whether the loop body raises depends on what was received and on
    the sink, not on the state or on [role]. *)

Lemma same_kind_bind {A B C} (m : M A) (k1 : A -> M B) (k2 : A -> M C) :
  stateless m ->
  (forall a, same_kind (k1 a) (k2 a)) -> same_kind (bind m k1) (bind m k2).
Proof.
  intros Hm Hk st1 st2. unfold bind. specialize (Hm st1 st2).
  destruct (m st1) as [[a | e] s1], (m st2) as [[a0 | e0] s2]; simpl in *;
    try congruence.
  injection Hm as ->. apply Hk.
Qed.

Lemma same_kind_get {B C} v key d1 d2 (k1 : json -> M B) (k2 : json -> M C) :
  (forall a1 a2, same_kind (k1 a1) (k2 a2)) ->
  same_kind (bind (lift (py_get v key d1)) k1) (bind (lift (py_get v key d2)) k2).
Proof. intros Hk st1 st2. destruct v; try reflexivity. apply Hk. Qed.

Lemma same_kind_info {B C} c t1 a1 t2 a2 (k1 : unit -> M B) (k2 : unit -> M C) :
  same_kind (k1 tt) (k2 tt) ->
  same_kind (bind (when c (logger_info t1 a1)) k1)
    (bind (when c (logger_info t2 a2)) k2).
Proof. intros Hk st1 st2. destruct c; apply Hk. Qed.

Lemma same_kind_ret {A B} (a : A) (b : B) : same_kind (ret a) (ret b).
Proof. intros st1 st2. reflexivity. Qed.

Lemma same_kind_raise {A B} e : same_kind (@raise A e) (@raise B e).
Proof. intros st1 st2. reflexivity. Qed.

Lemma same_kind_iteration callback role role0 result :
  same_kind (iteration callback role result) (iteration callback role0 result).
Proof.
  unfold iteration, receive, dispatch.
  destruct result;
    repeat first
      [ apply same_kind_ret
      | apply same_kind_raise
      | apply same_kind_bind; [intros ? ?; reflexivity | intro]
      | apply same_kind_get; intros ? ?
      | apply same_kind_info
      | match goal with
        | |- same_kind (if ?c then _ else _) (if ?c then _ else _) => destruct c
        | |- same_kind (match ?x with _ => _ end) (match ?x with _ => _ end) =>
            destruct x
        end
      | intros ? ?; reflexivity ].
Qed.

Lemma harmless_iteration callback result :
  harmless callback result = true ->
  forall role st, exists role' st',
    iteration callback role result st = (Ok role', st').
Proof.
  unfold harmless. intros H role st.
  pose proof (same_kind_iteration callback role JNull result st
                (mkState (__init__ "" "" "") (mkEnv None [] None [] [] []))) as K.
  rewrite H in K.
  destruct (iteration callback role result st) as [[role' | e] st'];
    simpl in K; [eauto | discriminate].
Qed.

(** *** What the draining task can change in the bridge: it may finish
    and clear the active flag; it never sets the flag, and it leaves the
    stream, the identifiers, the counter and the answers of the service
    alone. *)

Lemma task_kept_refl t : task_kept t t.
Proof. destruct t; simpl; auto. Qed.

Lemma task_kept_trans t1 t2 t3 : task_kept t1 t2 -> task_kept t2 t3 -> task_kept t1 t3.
Proof.
  destruct t1, t2, t3; simpl; try tauto.
  intros (A1 & A2) (B1 & B2). split; congruence.
Qed.

#[local] Instance drained_preorder : PreOrder drained.
Proof.
  split.
  - intros st. unfold drained. repeat split; auto using task_kept_refl.
  - intros x y z (A1 & A2 & A3 & A4 & A5 & A6 & A7 & A8 & A9 & A10 & A11)
      (B1 & B2 & B3 & B4 & B5 & B6 & B7 & B8 & B9 & B10 & B11).
    unfold drained. repeat split; try congruence; eauto using task_kept_trans.
Qed.

Lemma logs_only_drained st st' : logs_only st st' -> drained st st'.
Proof.
  intros (A1 & A2 & A3 & A4 & A5). unfold drained. rewrite A1.
  repeat split; auto using task_kept_refl.
Qed.

Lemma task_finally_drained st : drained st (task_finally st).
Proof.
  unfold drained, task_finally. simpl. repeat split; try discriminate.
  destruct (response_task (self st)); simpl; auto.
Qed.

Lemma loop_head_drained role st : drained st (loop_head role st).
Proof.
  unfold loop_head. destruct (is_active (self st)) eqn:E.
  - unfold drained. simpl. repeat split; auto.
    destruct (response_task (self st)) as [t |]; simpl; auto.
  - apply task_finally_drained.
Qed.

Lemma _process_responses_start_drained st : drained st (_process_responses_start st).
Proof.
  unfold _process_responses_start.
  destruct (response_task (self st)) as [t |]; [| reflexivity].
  destruct (task_state t); try reflexivity. apply loop_head_drained.
Qed.

Lemma _process_responses_resume_drained result st :
  drained st (_process_responses_resume result st).
Proof.
  unfold _process_responses_resume.
  destruct (response_task (self st)) as [t |]; [| reflexivity].
  destruct (task_state t) as [| role |]; try reflexivity.
  pose proof (iteration_logs_only (send_callback t) role result st) as L.
  destruct (iteration (send_callback t) role result st) as [[role' | e] st1];
    simpl in L; apply logs_only_drained in L.
  - etransitivity; [exact L | apply loop_head_drained].
  - pose proof (task_except_logs_only e st1) as L1. apply logs_only_drained in L1.
    etransitivity; [exact L |]. etransitivity; [exact L1 |].
    apply task_finally_drained.
Qed.

Lemma _process_responses_cancel_drained st : drained st (_process_responses_cancel st).
Proof.
  unfold _process_responses_cancel.
  destruct (response_task (self st)) as [t |] eqn:E; [| reflexivity].
  destruct (task_state t); try reflexivity.
  - unfold drained. simpl. rewrite E. simpl. repeat split; auto.
  - apply task_finally_drained.
Qed.

Lemma deliver_drained batch st : drained st (deliver batch st).
Proof.
  revert st. induction batch as [| result batch IH]; intros st; simpl.
  - reflexivity.
  - etransitivity; [apply _process_responses_resume_drained | apply IH].
Qed.

Lemma drain_suspended st : suspended st (drain st).
Proof.
  unfold suspended, drain. simpl.
  etransitivity; [apply _process_responses_start_drained | apply deliver_drained].
Qed.


Lemma drain_stream st : stream (self (drain st)) = stream (self st).
Proof.
  pose proof (drain_suspended st) as D. unfold suspended, drained in D. simpl in D.
  tauto.
Qed.

Lemma drain_close_result st : close_result (env (drain st)) = close_result (env st).
Proof.
  pose proof (drain_suspended st) as D. unfold suspended, drained in D. simpl in D.
  tauto.
Qed.

(** Replaces [drain st] by a state of which only the frame is known. *)
Ltac forget_drain :=
  match goal with
  | |- context [drain ?st] =>
      let H := fresh "D" in
      let st1 := fresh "st" in
      pose proof (drain_suspended st) as H;
      unfold suspended, drained in H; simpl in H;
      generalize dependent (drain st); intros st1 H;
      destruct H as (? & ? & ? & ? & ? & ? & ? & ? & ? & ? & ?)
  end.

(** ** Sending *)

Lemma _send_inactive event st :
  is_active (self st) = false -> _send event st = (Ok tt, st).
Proof.
  intros H. unfold _send, bind, read. simpl. rewrite H.
  destruct (stream (self st)); reflexivity.
Qed.

Lemma send_event_inactive event st :
  is_active (self st) = false -> send_event event st = (Ok tt, st).
Proof. intros H. unfold send_event, bind, read. simpl. now apply _send_inactive. Qed.

Lemma send_event_no_stream event st :
  stream (self st) = None -> send_event event st = (Ok tt, st).
Proof.
  intros H. unfold send_event, _send, bind, read. simpl. now rewrite H.
Qed.

(** An active bridge with a stream hands the event to the stream; the
    outcome is the next answer of the service. *)
Lemma send_event_active event st strm :
  is_active (self st) = true ->
  stream (self st) = Some strm ->
  send_event event st =
    match send_results (env st) with
    | Some e :: rest =>
        (Raise e,
         on_self (set_is_active false)
           (on_env (fun en => set_log
                      (log en ++ [mkLog ERROR "Error sending to Nova Sonic: {}" [ArgExn e]]) en)
              (on_env (set_send_results rest) (drain st))))
    | None :: rest =>
        (Ok tt, on_env (set_send_results rest)
                  (on_self (push_chunk (event (self st))) (drain st)))
    | [] => (Ok tt, on_self (push_chunk (event (self st))) (drain st))
    end.
Proof.
  intros Ha Hs.
  unfold send_event, _send, bind, read. simpl. rewrite Ha, Hs.
  unfold send_chunk, try_except, input_stream_send, bind, suspend.
  pose proof (drain_suspended st) as D. unfold suspended, drained in D. simpl in D.
  destruct D as (_ & _ & _ & _ & _ & _ & D & _).
  rewrite D. destruct (send_results (env st)) as [| [e |] rest]; reflexivity.
Qed.

(** ** [send_audio] *)

Lemma send_audio_inactive pcm_bytes st :
  is_active (self st) = false -> send_audio pcm_bytes st = (Ok tt, st).
Proof. intros H. unfold send_audio, bind, read. simpl. now rewrite H. Qed.

Lemma send_audio_active pcm_bytes st :
  is_active (self st) = true ->
  send_audio pcm_bytes st =
    send_event (audio_input pcm_bytes)
      (on_self (fun b => set_audio_chunks_sent (audio_chunks_sent b + 1) b) st).
Proof. intros H. unfold send_audio, bind, read, update. simpl. now rewrite H. Qed.

#[local] Instance same_counter_preorder : PreOrder same_counter.
Proof. split; unfold same_counter; [intros x | intros x y z]; congruence. Qed.

Lemma drain_same_counter st : same_counter st (drain st).
Proof.
  pose proof (drain_suspended st) as D. unfold suspended, drained in D.
  simpl in D. unfold same_counter. tauto.
Qed.

Lemma send_event_same_counter event : preserves same_counter (send_event event).
Proof.
  intros st. unfold send_event, _send, bind, read. simpl.
  destruct (stream (self st)); [| reflexivity].
  destruct (is_active (self st)); [| reflexivity].
  unfold send_chunk, try_except, input_stream_send, bind, suspend.
  pose proof (drain_same_counter st) as D. unfold same_counter in *.
  destruct (send_results (env (drain st))) as [| [e |] rest]; simpl; exact D.
Qed.

(** C10.  On an active session every call of [send_audio] adds exactly one
    to [audio_chunks_sent], whether the send then succeeds or raises; on an
    inactive session the counter stays as it is. *)
Theorem send_audio_counts_attempts pcm_bytes st :
  audio_chunks_sent (self (snd (send_audio pcm_bytes st))) =
    if is_active (self st)
    then audio_chunks_sent (self st) + 1
    else audio_chunks_sent (self st).
Proof.
  destruct (is_active (self st)) eqn:Ha.
  - rewrite send_audio_active by exact Ha.
    apply (send_event_same_counter (audio_input pcm_bytes)).
  - now rewrite send_audio_inactive.
Qed.

Lemma send_audio_accepted pcm_bytes st strm :
  is_active (self st) = true ->
  stream (self st) = Some strm ->
  sends_ok 1 (send_results (env st)) = true ->
  (exists st',
     send_audio pcm_bytes st = (Ok tt, st') /\
     emitted (self st') =
       (emitted (self st) ++
          [JObj [("event", JObj [("audioInput", JObj
             [("promptName", JStr (prompt_name (self st)));
              ("contentName", JStr (audio_content_name (self st)));
              ("content", JStr (b64encode pcm_bytes))])])]])%list) /\
  b64decode (JStr (b64encode pcm_bytes)) = Ok pcm_bytes /\
  b64encode (List.concat (repeat [x00; x01] 8)) = "AAEAAQABAAEAAQABAAEAAQ==".
Proof.
  intros Ha Hs Hok.
  split; [| split; [apply b64decode_b64encode | reflexivity]].
  rewrite send_audio_active by exact Ha.
  rewrite (send_event_active _ _ strm) by (simpl; assumption).
  simpl. forget_drain.
  unfold emitted. rewrite Hs.
  destruct (send_results (env st)) as [| [e |] rest]; try discriminate;
    eexists; (split; [reflexivity |]); simpl;
    match goal with H : stream (self _) = _ |- _ => rewrite H end;
    rewrite Hs; reflexivity.
Qed.

Lemma send_audio_refused pcm_bytes st strm e rest :
  is_active (self st) = true ->
  stream (self st) = Some strm ->
  send_results (env st) = Some e :: rest ->
  exists st',
    send_audio pcm_bytes st = (Raise e, st') /\
    is_active (self st') = false /\
    emitted (self st') = emitted (self st) /\
    send_results (env st') = rest.
Proof.
  intros Ha Hs Hr.
  rewrite send_audio_active by exact Ha.
  rewrite (send_event_active _ _ strm) by (simpl; assumption).
  simpl. rewrite Hr. eexists. split; [reflexivity |].
  forget_drain. simpl. unfold emitted. simpl.
  repeat split; try congruence.
  match goal with H : stream (self _) = _ |- _ => now rewrite H end.
Qed.

(** ** [stop] *)

Lemma safe_bind {A B} (m : M A) (k : A -> M B) :
  safe m -> (forall a, safe (k a)) -> safe (bind m k).
Proof.
  intros Hm Hk st. unfold bind. specialize (Hm st).
  destruct (m st) as [[a | e] st1]; simpl in *; [apply Hk | discriminate].
Qed.

Lemma safe_try_except {A} (body : M A) (handler : exn -> M A) :
  (forall e, safe (handler e)) -> safe (try_except body handler).
Proof.
  intros Hh st. unfold try_except.
  destruct (body st) as [[a | e] st1]; [reflexivity | apply Hh].
Qed.

Lemma safe_cancel_response_task : safe cancel_response_task.
Proof.
  intros st. unfold cancel_response_task, bind, read. simpl.
  destruct (response_task (self st)) as [t |]; [| reflexivity].
  destruct (negb (done t)); reflexivity.
Qed.

Lemma safe_stop : safe stop.
Proof.
  unfold stop. apply safe_bind; [intros st; reflexivity | intros active].
  destruct (negb active); [intros st; reflexivity |].
  apply safe_bind; [intros st; reflexivity | intros _].
  apply safe_bind; [| intros _; apply safe_cancel_response_task].
  apply safe_try_except. intros e st. reflexivity.
Qed.

#[local] Instance hushed_preorder : PreOrder hushed.
Proof.
  split.
  - intros st H. auto.
  - intros x y z A B H. destruct (A H) as (A1 & A2 & A3).
    destruct (B A1) as (B1 & B2 & B3). repeat split; congruence.
Qed.

Lemma task_kept_cancellations st st' :
  task_kept (response_task (self st)) (response_task (self st')) ->
  cancellations (self st') = cancellations (self st).
Proof.
  unfold cancellations.
  destruct (response_task (self st)), (response_task (self st')); simpl; tauto.
Qed.

Lemma drained_hushed st st' : drained st st' -> hushed st st'.
Proof.
  intros (A1 & _ & _ & _ & _ & _ & _ & _ & _ & A10 & A11) H.
  repeat split.
  - destruct (is_active (self st')); [| reflexivity].
    rewrite <- H. symmetry. now apply A10.
  - unfold emitted. now rewrite A1.
  - now apply task_kept_cancellations.
Qed.

Lemma drain_hushed st : hushed st (drain st).
Proof.
  pose proof (drain_suspended st) as D. unfold suspended in D.
  apply drained_hushed in D. exact D.
Qed.

Lemma drain_inactive st :
  is_active (self st) = false -> is_active (self (drain st)) = false.
Proof. intros H. now apply drain_hushed. Qed.

Lemma suspend_hushed : preserves hushed suspend.
Proof. intros st. apply drain_hushed. Qed.

Lemma send_event_hushed event : preserves hushed (send_event event).
Proof. intros st H. rewrite send_event_inactive by exact H. auto. Qed.

Lemma logger_error_hushed template args : preserves hushed (logger_error template args).
Proof. intros st H. auto. Qed.

Lemma input_stream_close_hushed : preserves hushed input_stream_close.
Proof.
  intros st. unfold input_stream_close, bind, read, suspend. simpl.
  destruct (stream (self st)) as [strm |] eqn:Hs; [| reflexivity].
  etransitivity; [apply drain_hushed |].
  destruct (close_result (env (drain st))); simpl; [reflexivity |].
  intros H. unfold emitted, cancellations. simpl.
  destruct (stream (self (drain st))); simpl; auto.
Qed.

Lemma close_session_hushed : preserves hushed close_session.
Proof.
  unfold close_session, asyncio_sleep.
  repeat first
    [ apply send_event_hushed
    | apply suspend_hushed
    | apply input_stream_close_hushed
    | apply logger_error_hushed
    | preserve_step ].
Qed.

Lemma task_finally_inactive st : is_active (self (task_finally st)) = false.
Proof. reflexivity. Qed.

(** The last statement of [stop] on an inactive bridge: nothing is sent,
    and the task is cancelled when it has not finished, not otherwise. *)
Lemma cancel_response_task_inactive st :
  is_active (self st) = false ->
  is_active (self (snd (cancel_response_task st))) = false /\
  emitted (self (snd (cancel_response_task st))) = emitted (self st) /\
  cancellations (self (snd (cancel_response_task st))) =
    match response_task (self st) with
    | Some t => if done t then cancel_calls t else S (cancel_calls t)
    | None => 0%nat
    end.
Proof.
  destruct st as [[strm a p c ac n task] e]. simpl. intros ->.
  destruct task as [[cb [| role |] k] |]; repeat split.
Qed.

Lemma stop_inactive st : is_active (self st) = false -> stop st = (Ok tt, st).
Proof. intros H. unfold stop, bind, read. simpl. now rewrite H. Qed.

Lemma stop_active st :
  is_active (self st) = true ->
  stop st =
    bind close_session (fun _ => cancel_response_task)
      (on_self (set_is_active false) st).
Proof. intros H. unfold stop, bind at 1 2, read, update. simpl. now rewrite H. Qed.

Lemma stop_leaves_inactive st : is_active (self (snd (stop st))) = false.
Proof.
  destruct (is_active (self st)) eqn:Ha.
  - rewrite stop_active by exact Ha. unfold bind.
    pose proof (close_session_hushed (on_self (set_is_active false) st)) as Hq.
    destruct (close_session (on_self (set_is_active false) st)) as [[[] | e] st1];
      simpl in Hq; destruct (Hq eq_refl) as (Hq1 & _).
    + now apply cancel_response_task_inactive.
    + exact Hq1.
  - now rewrite stop_inactive.
Qed.

Lemma safe_close_session : safe close_session.
Proof. apply safe_try_except. intros e st. reflexivity. Qed.

(** [stop] on an active bridge, step by step: the flag is cleared, the
    [try] block runs on an inactive bridge, the task is dealt with. *)
Lemma stop_active_steps st :
  is_active (self st) = true ->
  exists st1,
    close_session (on_self (set_is_active false) st) = (Ok tt, st1) /\
    stop st = cancel_response_task st1 /\
    is_active (self st1) = false /\
    emitted (self st1) = emitted (self st) /\
    cancellations (self st1) = cancellations (self st).
Proof.
  intros Ha. rewrite stop_active by exact Ha. unfold bind.
  pose proof (safe_close_session (on_self (set_is_active false) st)) as Hs.
  pose proof (close_session_hushed (on_self (set_is_active false) st)) as Hq.
  destruct (close_session (on_self (set_is_active false) st)) as [[[] | e] st1];
    [| discriminate].
  destruct (Hq eq_refl) as (Hq1 & Hq2 & Hq3).
  exists st1. auto.
Qed.

(** The [try] block of [stop] on an inactive bridge: three pauses, and the
    input half of the stream is closed if the service lets it. *)
Lemma close_session_inactive st strm :
  is_active (self st) = false ->
  stream (self st) = Some strm ->
  close_result (env st) = None ->
  close_session st =
    (Ok tt,
     on_self (set_stream (Some (mkStream (sent strm) true)))
       (drain (drain (drain st)))).
Proof.
  intros Ha Hs Hc.
  pose proof (drain_inactive st Ha) as Ha1.
  pose proof (drain_inactive _ Ha1) as Ha2.
  unfold close_session, try_except, asyncio_sleep.
  rewrite (bind_ok _ _ _ _ _ (send_event_inactive _ st Ha)).
  unfold bind at 1, suspend at 1.
  rewrite (bind_ok _ _ _ _ _ (send_event_inactive _ _ Ha1)).
  unfold bind at 1, suspend at 1.
  rewrite (bind_ok _ _ _ _ _ (send_event_inactive _ _ Ha2)).
  unfold input_stream_close, bind, read, suspend. simpl.
  rewrite !drain_stream, Hs, !drain_close_result, Hc.
  unfold on_self. simpl. now rewrite !drain_stream, Hs.
Qed.

Lemma cancel_response_task_stream st :
  stream (self (snd (cancel_response_task st))) = stream (self st).
Proof.
  destruct st as [[strm a p c ac n task] e]. simpl.
  destruct task as [[cb [| role |] k] |]; reflexivity.
Qed.

Lemma stop_closes_input st strm :
  is_active (self st) = true ->
  stream (self st) = Some strm ->
  close_result (env st) = None ->
  stream (self (snd (stop st))) = Some (mkStream (sent strm) true).
Proof.
  intros Ha Hs Hc. rewrite stop_active by exact Ha. unfold bind.
  rewrite (close_session_inactive _ strm) by (simpl; auto).
  now rewrite cancel_response_task_stream.
Qed.

(** C1.  What [stop] does on an active session: it returns without
    raising, leaves the session inactive and, when the service lets it,
    closes the input half of the stream; but the stream has taken no event
    at all, so none of [contentEnd], [promptEnd] and [sessionEnd]: the flag
    is cleared before the three [_send] calls, and [_send] sends only while
    the flag is set. *)
Theorem stop_emits_no_shutdown_event st :
  is_active (self st) = true ->
  exists st',
    stop st = (Ok tt, st') /\
    is_active (self st') = false /\
    emitted (self st') = emitted (self st) /\
    (forall strm,
       stream (self st) = Some strm ->
       close_result (env st) = None ->
       stream (self st') = Some (mkStream (sent strm) true)).
Proof.
  intros Ha.
  destruct (stop_active_steps st Ha) as (st1 & _ & E & H1 & H2 & _).
  pose proof (safe_cancel_response_task st1) as Hs.
  destruct (cancel_response_task_inactive st1 H1) as (C1 & C2 & _).
  pose proof (stop_closes_input st) as Hc.
  rewrite E in *. destruct (cancel_response_task st1) as [[[] | e] st']; [| discriminate].
  exists st'. simpl in *. repeat split; try congruence.
  intros strm Hstrm Hclose. now apply Hc.
Qed.

(** Without arrivals a suspended draining task stays where it is. *)
Lemma drain_silent st :
  waiting (self st) = true ->
  hd [] (arrivals (env st)) = [] ->
  drain st = on_env (fun e => set_arrivals (tl (arrivals e)) e) st.
Proof.
  unfold waiting, drain. intros Hw Hb. rewrite Hb. simpl.
  unfold _process_responses_start. simpl.
  destruct (response_task (self st)) as [t |]; [| discriminate].
  destruct (task_state t); try discriminate. reflexivity.
Qed.


(** A draining task that has returned is not run again. *)
Lemma resume_finished result st :
  finished (self st) = true -> _process_responses_resume result st = st.
Proof.
  unfold finished, done, _process_responses_resume.
  destruct (response_task (self st)) as [t |]; [| reflexivity].
  destruct (task_state t); try discriminate. reflexivity.
Qed.

Lemma deliver_finished batch st :
  finished (self st) = true -> deliver batch st = st.
Proof.
  revert st. induction batch as [| result batch IH]; intros st H; [reflexivity |].
  unfold deliver. simpl. rewrite resume_finished by exact H. now apply IH.
Qed.


#[local] Instance stays_finished_preorder : PreOrder stays_finished.
Proof. split; unfold stays_finished; [intros x | intros x y z]; auto. Qed.








(** ** Dormant sessions *)

Lemma start_raises_inactive VOICE_ID SYSTEM_PROMPT callback st e st' :
  start VOICE_ID SYSTEM_PROMPT callback st = (Raise e, st') ->
  is_active (self st') = false.
Proof.
  unfold start, try_except.
  match goal with |- context [match ?body st with _ => _ end] =>
    destruct (body st) as [[[] | e0] st1] end.
  - discriminate.
  - unfold bind, logger_error, update, raise. simpl. intros H.
    injection H as _ <-. reflexivity.
Qed.

Lemma dormant_inactive st : dormant st -> is_active (self st) = false.
Proof.
  induction 1 as [u1 u2 u3 e | V P cb st err st' H | st | pcm st _ IH | st _ IH].
  - reflexivity.
  - eapply start_raises_inactive; eassumption.
  - apply stop_leaves_inactive.
  - now rewrite send_audio_inactive.
  - now apply drain_inactive.
Qed.

(** C2.  On a dormant session (never started, or started in vain, or
    stopped) [send_audio] returns at once: it raises nothing and leaves the
    whole state, the stream included, as it was. *)
Theorem send_audio_dormant_noop pcm_bytes st :
  dormant st -> send_audio pcm_bytes st = (Ok tt, st).
Proof. intros H. apply send_audio_inactive, dormant_inactive, H. Qed.

(** ** The draining task *)

Lemma iteration_unrecognised callback role tag body st :
  recognised tag = false ->
  iteration callback role (inbound tag body) st =
    (Ok role,
     on_env (fun e => set_log (log e ++ [mkLog INFO "Event: {}" [ArgStr tag]]) e) st).
Proof.
  unfold recognised. intros H.
  apply orb_false_elim in H as (H & H3). apply orb_false_elim in H as (H1 & H2).
  assert (K1 : String.eqb "contentStart" tag = false) by now rewrite String.eqb_sym.
  assert (K2 : String.eqb "textOutput" tag = false) by now rewrite String.eqb_sym.
  assert (K3 : String.eqb "audioOutput" tag = false) by now rewrite String.eqb_sym.
  unfold iteration, inbound, receive, dispatch.
  repeat (cbn -[String.eqb]; unfold bind, lift, when, logger_info, update, ret;
          rewrite ?String.eqb_refl, ?K1, ?K2, ?K3, ?H3).
  reflexivity.
Qed.

Lemma iteration_empty_event callback role st :
  iteration callback role empty_event st =
    (Ok role,
     on_env (fun e => set_log (log e ++ [mkLog INFO "Event: {}" [ArgStr "unknown"]]) e) st).
Proof. reflexivity. Qed.

Lemma iteration_audio_output callback role content payload st :
  content <> "" ->
  b64decode (JStr content) = Ok payload ->
  iteration callback role (audio_output content) st =
    (match callback payload with Ok _ => Ok role | Raise e => Raise e end,
     on_env (fun e => set_sink_log (sink_log e ++ [payload]) e) st).
Proof.
  intros H1 H2.
  assert (Ht : truthy (JStr content) = true)
    by (simpl; apply String.eqb_neq in H1; now rewrite H1).
  unfold iteration, audio_output, inbound, receive, dispatch.
  cbn -[truthy b64decode].
  change (first_key_or_unknown
            (JObj [("audioOutput", JObj [("content", JStr content)])]))
    with (@Ok string "audioOutput").
  cbn -[truthy b64decode]. rewrite Ht.
  unfold bind, lift. rewrite H2. unfold call_sink, ret.
  destruct (callback payload) as [[] | e]; reflexivity.
Qed.

(** A resumption whose loop body only writes to the log leaves the flag as
    it finds it, and the task suspended again if the session is active. *)
Lemma resume_after_log_only result record st :
  (forall callback role s,
     iteration callback role result s =
       (Ok role, on_env (fun e => set_log (log e ++ [record]) e) s)) ->
  is_active (self (_process_responses_resume result st)) = is_active (self st) /\
  sink_log (env (_process_responses_resume result st)) = sink_log (env st) /\
  (is_active (self st) = true ->
   waiting (self (_process_responses_resume result st)) = waiting (self st)).
Proof.
  intros Hit.
  destruct st as [[strm a p c ac n task] [o sr cr arr sl lg]].
  unfold _process_responses_resume. simpl.
  destruct task as [[cb [| role |] k] |]; simpl; auto.
  rewrite Hit. unfold loop_head. simpl. destruct a; simpl; auto.
Qed.

(** C9.  An inbound event whose only top-level tag is none of
    [contentStart], [textOutput] and [audioOutput], or that has no tag at
    all, is ignored: the loop body of the draining task runs to its end
    without raising and leaves [role] and the bridge alone, the audio sink
    is not called, the active flag is what it was, and on an active session
    the task goes back to waiting. *)
Theorem unrecognised_event_ignored callback role tag body st :
  recognised tag = false ->
  let ignored result :=
    (exists st',
       iteration callback role result st = (Ok role, st') /\
       self st' = self st /\
       sink_log (env st') = sink_log (env st)) /\
    is_active (self (_process_responses_resume result st)) = is_active (self st) /\
    sink_log (env (_process_responses_resume result st)) = sink_log (env st) /\
    (is_active (self st) = true ->
     waiting (self (_process_responses_resume result st)) = waiting (self st)) in
  ignored (inbound tag body) /\ ignored empty_event.
Proof.
  intros H ignored. subst ignored. split; split.
  - rewrite iteration_unrecognised by exact H. eexists. repeat split.
  - apply resume_after_log_only with (record := mkLog INFO "Event: {}" [ArgStr tag]).
    intros. now apply iteration_unrecognised.
  - rewrite iteration_empty_event. eexists. repeat split.
  - apply resume_after_log_only with (record := mkLog INFO "Event: {}" [ArgStr "unknown"]).
    intros. apply iteration_empty_event.
Qed.

(** One [audioOutput] event with content, delivered to the waiting task. *)
Lemma resume_audio_output content payload st t role :
  response_task (self st) = Some t ->
  task_state t = TaskWaiting role ->
  content <> "" ->
  b64decode (JStr content) = Ok payload ->
  sink_log (env (_process_responses_resume (audio_output content) st)) =
    (sink_log (env st) ++ [payload])%list /\
  (is_active (self st) = true -> send_callback t payload = Ok tt ->
   _process_responses_resume (audio_output content) st =
     on_env (fun e => set_sink_log (sink_log e ++ [payload]) e) st).
Proof.
  intros Ht Hw Hc Hd.
  destruct st as [[strm a p c ac n task] [o sr cr arr sl lg]].
  simpl in *. subst task. destruct t as [cb ts k]. simpl in *. subst ts.
  unfold _process_responses_resume. simpl.
  rewrite (iteration_audio_output _ _ _ payload) by assumption.
  destruct (cb payload) as [[] | e] eqn:Ecb.
  - unfold loop_head. simpl. destruct a; simpl; split; try reflexivity; discriminate.
  - split; [destruct e; reflexivity | discriminate].
Qed.

(** An [audioOutput] event on whose chunk the sink raises ends the task. *)
Lemma resume_audio_output_raises content payload st t role e :
  response_task (self st) = Some t ->
  task_state t = TaskWaiting role ->
  content <> "" ->
  b64decode (JStr content) = Ok payload ->
  send_callback t payload = Raise e ->
  finished (self (_process_responses_resume (audio_output content) st)) = true.
Proof.
  intros Ht Hw Hc Hd Hcb.
  destruct st as [[strm a p c ac n task] [o sr cr arr sl lg]].
  simpl in *. subst task. destruct t as [cb ts k]. simpl in *. subst ts.
  unfold _process_responses_resume. simpl.
  rewrite (iteration_audio_output _ _ _ payload) by assumption.
  rewrite Hcb. destruct e; reflexivity.
Qed.

(** An [audioOutput] event without content leaves the sink alone. *)
Lemma resume_empty_audio_output st :
  sink_log (env (_process_responses_resume (audio_output "") st)) = sink_log (env st).
Proof.
  destruct st as [[strm a p c ac n [[cb [| role |] k] |]] [o sr cr arr sl lg]];
    try reflexivity.
  destruct a; reflexivity.
Qed.

(** A sequence of [audioOutput] events with content, delivered to the
    waiting task of an active session: the sink is called on the chunks in
    order, up to and including the first on which it raises. *)
Lemma deliver_audio_outputs contents payloads :
  Forall2 (fun content payload =>
             content <> "" /\ b64decode (JStr content) = Ok payload)
    contents payloads ->
  forall st t role,
    response_task (self st) = Some t ->
    task_state t = TaskWaiting role ->
    is_active (self st) = true ->
    sink_log (env (deliver (map audio_output contents) st)) =
      (sink_log (env st) ++ firstn (heard (send_callback t) payloads) payloads)%list.
Proof.
  induction 1 as [| content payload contents payloads (Hc & Hd) _ IH];
    intros st t role Ht Hw Ha.
  - simpl. now rewrite app_nil_r.
  - cbn [map heard]. unfold deliver. cbn [fold_left]. fold (deliver (map audio_output contents)).
    destruct (resume_audio_output content payload st t role Ht Hw Hc Hd) as (S1 & E).
    destruct (send_callback t payload) as [[] | e] eqn:Hcb.
    + rewrite (E Ha eq_refl).
      rewrite (IH _ t role) by assumption.
      simpl. now rewrite <- app_assoc.
    + rewrite deliver_finished
        by exact (resume_audio_output_raises content payload st t role e Ht Hw Hc Hd Hcb).
      exact S1.
Qed.

(** C5, as the code has it.  An inbound
    [{"event": {"audioOutput": {"content": c}}}] whose content [c] is not empty
    and is base64 text makes the waiting draining task call the audio sink
    exactly once, with the bytes [c] decodes to.  The calls are made in the
    order of reception: of a sequence of such events that arrives on an
    active session, the task receives those up to and including the first on
    which the sink raises, all of them if it never does, and the sink has
    been called once on the chunk of each of these, in order; if the sink
    returns each time, the task is then waiting again on the active session
    and nothing but the calls to the sink has changed.  An event whose
    content is the empty string does not call the sink. *)
Theorem audio_output_reaches_sink st t role :
  response_task (self st) = Some t ->
  task_state t = TaskWaiting role ->
  (forall content payload,
     content <> "" ->
     b64decode (JStr content) = Ok payload ->
     sink_log (env (_process_responses_resume (audio_output content) st)) =
       (sink_log (env st) ++ [payload])%list) /\
  (forall contents payloads,
     is_active (self st) = true ->
     Forall2 (fun content payload =>
                content <> "" /\
                b64decode (JStr content) = Ok payload /\
                send_callback t payload = Ok tt) contents payloads ->
     deliver (map audio_output contents) st =
       on_env (fun e => set_sink_log (sink_log e ++ payloads) e) st) /\
  (forall contents payloads,
     is_active (self st) = true ->
     Forall2 (fun content payload =>
                content <> "" /\ b64decode (JStr content) = Ok payload)
       contents payloads ->
     sink_log (env (deliver (map audio_output contents) st)) =
       (sink_log (env st) ++ firstn (heard (send_callback t) payloads) payloads)%list) /\
  sink_log (env (_process_responses_resume (audio_output "") st)) = sink_log (env st).
Proof.
  intros Ht Hw. split; [| split; [| split]].
  - intros content payload Hc Hd.
    now apply (resume_audio_output content payload st t role).
  - intros contents payloads Ha HF. revert st Ht Ha.
    induction HF as [| content payload contents payloads (Hc & Hd & Hcb) _ IH];
      intros st Ht Ha.
    + simpl. destruct st as [b [o sr cr arr sl lg]]. unfold on_env. simpl.
      now rewrite app_nil_r.
    + simpl.
      destruct (resume_audio_output content payload st t role Ht Hw Hc Hd) as (_ & E).
      rewrite (E Ha Hcb). rewrite IH by assumption.
      destruct st as [b [o sr cr arr sl lg]]. unfold on_env. simpl.
      now rewrite <- app_assoc.
  - intros contents payloads Ha HF.
    exact (deliver_audio_outputs contents payloads HF st t role Ht Hw Ha).
  - apply resume_empty_audio_output.
Qed.

(** ** [start] *)

Lemma start_unfold VOICE_ID SYSTEM_PROMPT callback :
  start VOICE_ID SYSTEM_PROMPT callback =
    try_except
      (logger_info "Connecting to Nova Sonic..." [] ;;
       strm <- invoke_model_with_bidirectional_stream ;;
       update (on_self (set_stream (Some strm))) ;;
       update (on_self (set_is_active true)) ;;
       logger_info "Stream connected" [] ;;
       update (on_self (set_response_task (Some (create_task callback)))) ;;
       run_steps (handshake_steps VOICE_ID SYSTEM_PROMPT)
         (logger_info "Nova Sonic ready for audio" []))
      start_handler.
Proof. reflexivity. Qed.

Lemma same_ids_refl b : same_ids b b.
Proof. repeat split. Qed.

Lemma same_ids_trans b1 b2 b3 : same_ids b1 b2 -> same_ids b2 b3 -> same_ids b1 b3.
Proof. unfold same_ids. intuition congruence. Qed.

Lemma handshake_steps_keyed VOICE_ID SYSTEM_PROMPT :
  Forall (fun step => keyed (snd step)) (handshake_steps VOICE_ID SYSTEM_PROMPT).
Proof.
  repeat constructor; intros b b' (H1 & H2 & H3); simpl;
    unfold session_start, prompt_start, system_content_start, system_text_input,
      system_content_end, audio_content_start;
    now rewrite ?H1, ?H2, ?H3.
Qed.

Lemma loop_head_alive callback role st :
  alive callback st -> alive callback (loop_head role st).
Proof.
  intros (Ha & t & Ht & Hc & Hd). unfold loop_head. rewrite Ha.
  split; [exact Ha |]. simpl. rewrite Ht. simpl. eexists. repeat split. exact Hc.
Qed.

Lemma _process_responses_start_alive callback st :
  alive callback st -> alive callback (_process_responses_start st).
Proof.
  intros H. unfold _process_responses_start.
  destruct (response_task (self st)) as [t |]; [| exact H].
  destruct (task_state t); try exact H. now apply loop_head_alive.
Qed.

Lemma _process_responses_resume_alive callback result st :
  alive callback st -> harmless callback result = true ->
  alive callback (_process_responses_resume result st).
Proof.
  intros H Hh. pose proof H as (Ha & t & Ht & Hc & Hd).
  unfold _process_responses_resume. rewrite Ht.
  destruct (task_state t) as [| role |] eqn:Es; try exact H.
  rewrite Hc.
  destruct (harmless_iteration callback result Hh role st) as (role' & st' & E).
  pose proof (iteration_logs_only callback role result st) as L.
  rewrite E in *. simpl in L. destruct L as (L & _).
  apply loop_head_alive. unfold alive. rewrite L. exact H.
Qed.

Lemma deliver_alive callback batch st :
  alive callback st -> forallb (harmless callback) batch = true ->
  alive callback (deliver batch st).
Proof.
  revert st. induction batch as [| result batch IH]; intros st H Hb; simpl.
  - exact H.
  - simpl in Hb. apply andb_prop in Hb as (Hr & Hb).
    apply IH; [| exact Hb]. now apply _process_responses_resume_alive.
Qed.

Lemma all_harmless_tl callback batches :
  all_harmless callback batches = true ->
  forallb (harmless callback) (hd [] batches) = true /\
  all_harmless callback (tl batches) = true.
Proof.
  destruct batches as [| batch batches]; simpl; [auto |].
  intros H. now apply andb_prop in H.
Qed.

Lemma drain_healthy callback st :
  healthy callback st -> healthy callback (drain st).
Proof.
  intros (Hal & Hh). apply all_harmless_tl in Hh as (Hb & Hh). split.
  - unfold drain. apply deliver_alive; [| exact Hb].
    apply _process_responses_start_alive. exact Hal.
  - pose proof (drain_suspended st) as D. unfold suspended, drained in D. simpl in D.
    destruct D as (_ & _ & _ & _ & _ & _ & _ & _ & D & _). now rewrite D.
Qed.

Lemma drain_emits callback st :
  healthy callback st -> emits callback [] st (drain st).
Proof.
  intros H. pose proof (drain_healthy callback st H) as H'.
  pose proof (drain_suspended st) as D. unfold suspended, drained in D. simpl in D.
  destruct D as (D1 & D2 & D3 & D4 & D5 & _ & D7 & _).
  unfold emits, same_ids. split; [exact H' |]. repeat split; auto.
  intros strm Hs. rewrite D1, Hs, app_nil_r. now destruct strm.
Qed.

Lemma emits_trans callback evs1 evs2 st1 st2 st3 :
  emits callback evs1 st1 st2 -> emits callback evs2 st2 st3 ->
  emits callback (evs1 ++ evs2) st1 st3.
Proof.
  intros (A1 & A2 & A3 & A4 & A5) (B1 & B2 & B3 & B4 & B5).
  unfold emits. split; [exact B1 |].
  repeat split; try (unfold same_ids in *; intuition congruence).
  - intros strm Hs. rewrite (B4 _ (A4 _ Hs)). simpl. now rewrite app_assoc.
  - rewrite B5, A5, length_app, skipn_skipn. f_equal. lia.
Qed.

Lemma sends_ok_S n results :
  sends_ok (S n) results = true ->
  (results = [] \/ exists rest, results = None :: rest) /\
  sends_ok n (tl results) = true.
Proof.
  unfold sends_ok. destruct results as [| [e |] rest]; simpl; intros H.
  - split; [now left |]. now destruct n.
  - discriminate.
  - split; [right; eauto | exact H].
Qed.

Lemma send_event_emits callback event st strm :
  healthy callback st ->
  stream (self st) = Some strm ->
  sends_ok 1 (send_results (env st)) = true ->
  exists st',
    send_event event st = (Ok tt, st') /\ emits callback [event (self st)] st st'.
Proof.
  intros H Hs Hok. pose proof H as ((Ha & _) & _).
  rewrite (send_event_active event st strm Ha Hs).
  pose proof (drain_emits callback st H) as (((Ha1 & Ht1) & Hh1) & Hi & Hc & Hst & Hr).
  specialize (Hst strm Hs). rewrite app_nil_r in Hst. simpl in Hr.
  destruct (send_results (env st)) as [| [e |] rest] eqn:E; try discriminate;
    (eexists; split; [reflexivity |]);
    unfold emits, healthy, alive, same_ids; simpl; rewrite Hst; simpl;
    (split; [split; [split; [exact Ha1 | exact Ht1] | exact Hh1] |]);
    (split; [exact Hi |]); (split; [exact Hc |]);
    (split; [intros s Es; rewrite Hs in Es; injection Es as <-; reflexivity |]);
    rewrite E.
  - exact Hr.
  - reflexivity.
Qed.

Lemma sends_ok_split n results :
  sends_ok (S n) results = true ->
  sends_ok 1 results = true /\ sends_ok n (skipn 1 results) = true.
Proof.
  unfold sends_ok. destruct results as [| [e |] rest]; simpl; intros H.
  - split; [reflexivity |]. now destruct n.
  - discriminate.
  - split; [reflexivity | exact H].
Qed.

Lemma run_steps_cons ms event rest k st :
  run_steps ((ms, event) :: rest) k st =
    bind (send_event event) (fun _ => run_steps rest k) (drain st).
Proof. reflexivity. Qed.

Lemma map_keyed (steps : list (nat * (NovaSonicBridge -> json))) b b' :
  Forall (fun step => keyed (snd step)) steps ->
  same_ids b b' ->
  map (fun step => snd step b') steps = map (fun step => snd step b) steps.
Proof.
  intros HF Hi. induction HF as [| step steps Hk _ IH]; simpl; [reflexivity |].
  now rewrite IH, (Hk b b' Hi).
Qed.

(** A healthy session whose stream accepts every event runs the whole
    list of steps and the stream takes their events in order. *)
Lemma run_steps_ok callback steps k :
  Forall (fun step => keyed (snd step)) steps ->
  forall st strm,
    healthy callback st ->
    stream (self st) = Some strm ->
    sends_ok (List.length steps) (send_results (env st)) = true ->
    exists st',
      run_steps steps k st = k st' /\
      emits callback (map (fun step => snd step (self st)) steps) st st'.
Proof.
  induction 1 as [| [ms event] steps Hk HF IH]; intros st strm H Hs Hok.
  - exists st. split; [reflexivity |].
    unfold emits. split; [exact H |]. repeat split.
    intros s Es. rewrite Es, app_nil_r. now destruct s.
  - simpl in Hk. rewrite run_steps_cons.
    pose proof (drain_emits callback st H) as E0.
    pose proof E0 as (H0 & Hi0 & _ & Hst0 & Hr0).
    specialize (Hst0 strm Hs). simpl in Hr0.
    apply sends_ok_split in Hok as (Hok1 & Hokn).
    rewrite <- Hr0 in Hok1, Hokn.
    destruct (send_event_emits callback event (drain st) _ H0 Hst0 Hok1)
      as (st2 & E2 & Em2).
    rewrite (bind_ok _ _ _ _ _ E2).
    pose proof Em2 as (H2 & Hi2 & _ & Hst2 & Hr2).
    specialize (Hst2 _ Hst0). cbn [List.length] in Hr2.
    rewrite <- Hr2 in Hokn.
    destruct (IH st2 _ H2 Hst2 Hokn) as (st' & E' & Em').
    exists st'. split; [exact E' |].
    pose proof (emits_trans _ _ _ _ _ _ E0 (emits_trans _ _ _ _ _ _ Em2 Em')) as Em.
    simpl in Em. simpl.
    rewrite (Hk _ _ Hi0) in Em.
    rewrite (map_keyed steps (self st) (self st2) HF (same_ids_trans _ _ _ Hi0 Hi2)) in Em.
    exact Em.
Qed.

Lemma send_event_fails event st strm e rest :
  is_active (self st) = true ->
  stream (self st) = Some strm ->
  send_results (env st) = Some e :: rest ->
  exists st',
    send_event event st = (Raise e, st') /\
    is_active (self st') = false /\
    stream (self st') = Some strm /\
    same_ids (self st) (self st').
Proof.
  intros Ha Hs Hr. rewrite (send_event_active event st strm Ha Hs), Hr.
  eexists. split; [reflexivity |].
  pose proof (drain_suspended st) as D. unfold suspended, drained in D. simpl in D.
  destruct D as (D1 & D2 & D3 & D4 & _).
  unfold same_ids. simpl. repeat split; congruence.
Qed.

(** A healthy session whose stream refuses the event of step [n], after
    accepting those before it, stops there: the exception comes out, the
    flag is cleared, and the stream holds the events of the first [n]
    steps. *)
Lemma run_steps_fail callback steps k :
  Forall (fun step => keyed (snd step)) steps ->
  forall n st strm e rest,
    healthy callback st ->
    stream (self st) = Some strm ->
    send_results (env st) = (repeat None n ++ Some e :: rest)%list ->
    (n < List.length steps)%nat ->
    exists st',
      run_steps steps k st = (Raise e, st') /\
      is_active (self st') = false /\
      emitted (self st') =
        (sent strm ++ map (fun step => snd step (self st)) (firstn n steps))%list.
Proof.
  induction 1 as [| [ms event] steps Hk HF IH]; intros n st strm e rest H Hs Hr Hn.
  - simpl in Hn. lia.
  - simpl in Hk. rewrite run_steps_cons.
    pose proof (drain_emits callback st H) as E0.
    pose proof E0 as (H0 & Hi0 & _ & Hst0 & Hr0).
    specialize (Hst0 strm Hs). simpl in Hr0. rewrite app_nil_r in Hst0.
    destruct n as [| n].
    + simpl in Hr. rewrite <- Hr0 in Hr. destruct H0 as ((Ha0 & _) & _).
      destruct (send_event_fails event (drain st) _ e rest Ha0 Hst0 Hr)
        as (st' & E' & Ha' & Hs' & _).
      rewrite (bind_raise _ _ _ _ _ E').
      exists st'. repeat split; auto.
      unfold emitted. rewrite Hs'. simpl. now rewrite app_nil_r.
    + simpl in Hr. rewrite <- Hr0 in Hr.
      assert (Hok1 : sends_ok 1 (send_results (env (drain st))) = true)
        by now rewrite Hr.
      destruct (send_event_emits callback event (drain st) _ H0 Hst0 Hok1)
        as (st2 & E2 & Em2).
      rewrite (bind_ok _ _ _ _ _ E2).
      pose proof Em2 as (H2 & Hi2 & _ & Hst2 & Hr2).
      specialize (Hst2 _ Hst0). simpl in Hr2, Hst2. rewrite Hr in Hr2. simpl in Hr2.
      simpl in Hn. apply PeanoNat.Nat.succ_lt_mono in Hn.
      destruct (IH n st2 _ e rest H2 Hst2 Hr2 Hn) as (st' & E' & Ha' & Hem').
      exists st'. repeat split; auto.
      rewrite Hem'. simpl.
      rewrite (Hk _ _ Hi0), <- app_assoc. simpl.
      rewrite <- (firstn_map (fun step => snd step (self st2))).
      rewrite (map_keyed steps (self st) (self st2) HF (same_ids_trans _ _ _ Hi0 Hi2)).
      now rewrite firstn_map.
Qed.

Lemma connecting_frame st :
  suspended
    (on_env (fun e => set_log
               (log e ++ [mkLog INFO "Connecting to Nova Sonic..." []]) e) st)
    (connecting st).
Proof. apply drain_suspended. Qed.

Lemma connecting_open_result st :
  open_result (env (connecting st)) = open_result (env st).
Proof.
  pose proof (connecting_frame st) as D. unfold suspended, drained in D.
  simpl in D. tauto.
Qed.

Lemma start_opened VOICE_ID SYSTEM_PROMPT callback st :
  open_result (env st) = None ->
  start VOICE_ID SYSTEM_PROMPT callback st =
    try_except
      (run_steps (handshake_steps VOICE_ID SYSTEM_PROMPT)
         (logger_info "Nova Sonic ready for audio" []))
      start_handler (opened callback st).
Proof.
  intros Ho. rewrite start_unfold. unfold try_except.
  unfold bind at 1. unfold logger_info at 1, update at 1.
  unfold bind at 1. unfold invoke_model_with_bidirectional_stream, bind at 1, suspend.
  fold (connecting st). rewrite connecting_open_result, Ho.
  reflexivity.
Qed.

Lemma start_open_fails VOICE_ID SYSTEM_PROMPT callback st e :
  open_result (env st) = Some e ->
  start VOICE_ID SYSTEM_PROMPT callback st = start_handler e (connecting st).
Proof.
  intros Ho. rewrite start_unfold. unfold try_except.
  unfold bind at 1. unfold logger_info at 1, update at 1.
  unfold bind at 1. unfold invoke_model_with_bidirectional_stream, bind at 1, suspend.
  fold (connecting st). rewrite connecting_open_result, Ho.
  reflexivity.
Qed.

Lemma opened_healthy callback st :
  all_harmless callback (arrivals (env st)) = true ->
  healthy callback (opened callback st) /\
  same_ids (self st) (self (opened callback st)) /\
  stream (self (opened callback st)) = Some (mkStream [] false) /\
  send_results (env (opened callback st)) = send_results (env st).
Proof.
  intros Hh. pose proof (connecting_frame st) as D.
  unfold suspended, drained in D. simpl in D.
  destruct D as (_ & D2 & D3 & D4 & _ & _ & D7 & _ & D9 & _).
  apply all_harmless_tl in Hh as (_ & Hh).
  unfold healthy, alive, same_ids, opened. simpl. rewrite D9.
  repeat split; auto. eexists. repeat split.
Qed.

Lemma handshake_steps_events VOICE_ID SYSTEM_PROMPT b :
  map (fun step => snd step b) (handshake_steps VOICE_ID SYSTEM_PROMPT) =
    handshake VOICE_ID SYSTEM_PROMPT b.
Proof. reflexivity. Qed.

Lemma handshake_same_ids VOICE_ID SYSTEM_PROMPT b b' :
  same_ids b b' ->
  handshake VOICE_ID SYSTEM_PROMPT b' = handshake VOICE_ID SYSTEM_PROMPT b.
Proof.
  intros H. rewrite <- !handshake_steps_events.
  apply map_keyed; [apply handshake_steps_keyed | exact H].
Qed.



Lemma closing_logger_info template args : closing (logger_info template args).
Proof. intros st. eexists. split; reflexivity. Qed.



(** ** The states a bridge can reach *)

#[local] Instance keeps_stream_preorder : PreOrder keeps_stream.
Proof. split; unfold keeps_stream; [intros x | intros x y z]; auto. Qed.

Lemma drain_keeps_stream st : keeps_stream st (drain st).
Proof. unfold keeps_stream, has_stream. now rewrite drain_stream. Qed.

Lemma send_event_keeps_stream event : preserves keeps_stream (send_event event).
Proof.
  intros st. unfold send_event, _send, bind, read. simpl.
  destruct (stream (self st)) as [strm |] eqn:Hs; [| reflexivity].
  destruct (is_active (self st)); [| reflexivity].
  unfold send_chunk, try_except, input_stream_send, bind, suspend.
  pose proof (drain_keeps_stream st) as D. unfold keeps_stream, has_stream in *.
  destruct (send_results (env (drain st))) as [| [e |] rest]; simpl;
    intros H; specialize (D H); destruct (stream (self (drain st))); auto.
Qed.

Lemma run_steps_keeps_stream steps k :
  preserves keeps_stream k -> preserves keeps_stream (run_steps steps k).
Proof.
  intros Hk. induction steps as [| [ms event] steps IH]; [exact Hk |].
  simpl. unfold asyncio_sleep.
  apply preserves_bind; [exact _ | intros st; apply drain_keeps_stream | intros _].
  apply preserves_bind; [exact _ | apply send_event_keeps_stream | intros _; exact IH].
Qed.

Lemma start_sound VOICE_ID SYSTEM_PROMPT callback st :
  sound (snd (start VOICE_ID SYSTEM_PROMPT callback st)).
Proof.
  destruct (open_result (env st)) as [e |] eqn:Ho.
  - rewrite (start_open_fails _ _ _ _ e Ho). intros H. discriminate.
  - rewrite start_opened by exact Ho. unfold try_except.
    pose proof (run_steps_keeps_stream (handshake_steps VOICE_ID SYSTEM_PROMPT)
                  (logger_info "Nova Sonic ready for audio" [])) as K.
    specialize (K ltac:(intros s H; exact H) (opened callback st)).
    destruct (run_steps (handshake_steps VOICE_ID SYSTEM_PROMPT)
                (logger_info "Nova Sonic ready for audio" []) (opened callback st))
      as [[[] | e] s2].
    + intros _. now apply K.
    + intros H. discriminate.
Qed.

Lemma reachable_sound st : reachable st -> sound st.
Proof.
  induction 1 as [u1 u2 u3 e | V P cb st _ _ | pcm st _ IH | st _ _ | st _ IH | st e _ IH].
  - intros H. discriminate.
  - apply start_sound.
  - destruct (is_active (self st)) eqn:Ha.
    + intros _. rewrite send_audio_active by exact Ha.
      apply (send_event_keeps_stream (audio_input pcm)). simpl. now apply IH.
    + now rewrite send_audio_inactive.
  - intros H. now rewrite stop_leaves_inactive in H.
  - intros H. apply drain_keeps_stream. apply IH.
    pose proof (drain_inactive st) as K.
    destruct (is_active (self st)); [reflexivity |]. rewrite K in H; auto.
  - exact IH.
Qed.

Lemma deliver_inactive batch st :
  is_active (self st) = false -> is_active (self (deliver batch st)) = false.
Proof. intros H. now apply (drained_hushed st _ (deliver_drained batch st)). Qed.

Lemma run_steps_hushed steps k :
  closing k ->
  forall st,
    is_active (self st) = false ->
    exists st',
      run_steps steps k st = (Ok tt, st') /\
      is_active (self st') = false /\
      emitted (self st') = emitted (self st).
Proof.
  intros Hk. induction steps as [| [ms event] steps IH]; intros st Ha.
  - simpl. destruct (Hk st) as (st' & E & Hs). exists st'. rewrite Hs. auto.
  - rewrite run_steps_cons.
    pose proof (drain_inactive st Ha) as Ha1.
    rewrite (bind_ok _ _ _ _ _ (send_event_inactive event (drain st) Ha1)).
    destruct (IH _ Ha1) as (st' & E & Ha' & Hem). exists st'.
    repeat split; auto. rewrite Hem. unfold emitted. now rewrite drain_stream.
Qed.

Lemma connecting_arrivals st :
  arrivals (env (connecting st)) = tl (arrivals (env st)).
Proof.
  pose proof (connecting_frame st) as D. unfold suspended, drained in D.
  simpl in D. tauto.
Qed.

(** The first pause of the handshake, when the first receive of the
    draining task raises: the task ends and clears the flag. *)
Lemma first_pause_receive_failure callback st e batch rest :
  arrivals (env st) = (RecvRaise e :: batch) :: rest ->
  is_active (self st) = true ->
  response_task (self st) = Some (create_task callback) ->
  is_active (self (drain st)) = false.
Proof.
  intros Harr Ha Ht.
  destruct st as [[strm a p c ac n task] [o sr cr arr sl lg]]. simpl in *.
  subst arr a task. unfold drain. simpl.
  apply deliver_inactive. destruct e; reflexivity.
Qed.

(** X1.  When the draining task ends during the first pause of the handshake
    because its first receive raises, [start] does not raise: it finds the
    flag cleared, skips every handshake send and returns, leaving the
    session inactive and the new stream empty. *)
Theorem start_returns_after_receive_failure
    VOICE_ID SYSTEM_PROMPT callback st e batch0 batch rest :
  open_result (env st) = None ->
  arrivals (env st) = batch0 :: (RecvRaise e :: batch) :: rest ->
  exists st',
    start VOICE_ID SYSTEM_PROMPT callback st = (Ok tt, st') /\
    is_active (self st') = false /\
    emitted (self st') = [].
Proof.
  intros Ho Harr. rewrite start_opened by exact Ho.
  assert (Ha1 : is_active (self (drain (opened callback st))) = false).
  { apply (first_pause_receive_failure callback _ e batch rest); try reflexivity.
    unfold opened. simpl. now rewrite connecting_arrivals, Harr. }
  unfold try_except, handshake_steps. rewrite run_steps_cons.
  rewrite (bind_ok _ _ _ _ _ (send_event_inactive _ _ Ha1)).
  destruct (run_steps_hushed
              [(100%nat, prompt_start VOICE_ID); (100%nat, system_content_start);
               (50%nat, system_text_input SYSTEM_PROMPT); (50%nat, system_content_end);
               (100%nat, audio_content_start)]
              (logger_info "Nova Sonic ready for audio" [])
              (closing_logger_info _ _) _ Ha1) as (st' & E & Ha' & Hem).
  rewrite E. exists st'. repeat split; auto.
  rewrite Hem. unfold emitted. now rewrite drain_stream.
Qed.




(** C7.  A [start] that fails raises and leaves the session inactive.
    When the stream-open call raises, [start] raises that exception, the
    flag is clear and the bridge has the stream it had before, so no
    handshake event has been sent.  When the stream refuses the event of
    handshake step [n] (counted from 0) after accepting those before it,
    [start] raises that exception, the flag is clear and the stream holds
    the events of the first [n] steps.  And whenever [start] raises, the
    flag is clear when it returns. *)
Theorem start_failure_leaves_inactive VOICE_ID SYSTEM_PROMPT callback st :
  (forall e,
     open_result (env st) = Some e ->
     exists st',
       start VOICE_ID SYSTEM_PROMPT callback st = (Raise e, st') /\
       is_active (self st') = false /\
       stream (self st') = stream (self st)) /\
  (forall n e rest,
     open_result (env st) = None ->
     send_results (env st) = (repeat None n ++ Some e :: rest)%list ->
     (n < 6)%nat ->
     all_harmless callback (arrivals (env st)) = true ->
     exists st',
       start VOICE_ID SYSTEM_PROMPT callback st = (Raise e, st') /\
       is_active (self st') = false /\
       emitted (self st') = firstn n (handshake VOICE_ID SYSTEM_PROMPT (self st))) /\
  (forall e st',
     start VOICE_ID SYSTEM_PROMPT callback st = (Raise e, st') ->
     is_active (self st') = false).
Proof.
  split; [| split].
  - intros e Ho. rewrite (start_open_fails _ _ _ _ e Ho).
    eexists. split; [reflexivity |].
    pose proof (connecting_frame st) as D. unfold suspended, drained in D.
    simpl in D. destruct D as (D1 & _). simpl. auto.
  - intros n e rest Ho Hr Hn Hh.
    rewrite start_opened by exact Ho.
    destruct (opened_healthy callback st Hh) as (H1 & Hi1 & Hs1 & Hr1).
    rewrite <- Hr1 in Hr.
    destruct (run_steps_fail callback (handshake_steps VOICE_ID SYSTEM_PROMPT)
                (logger_info "Nova Sonic ready for audio" [])
                (handshake_steps_keyed VOICE_ID SYSTEM_PROMPT)
                n (opened callback st) _ e rest H1 Hs1 Hr Hn)
      as (st2 & E2 & Ha2 & Hem2).
    unfold try_except. rewrite E2.
    rewrite <- firstn_map, handshake_steps_events,
      (handshake_same_ids _ _ _ _ Hi1) in Hem2.
    eexists. split; [reflexivity |]. split; [reflexivity |]. exact Hem2.
  - intros e st'. apply start_raises_inactive.
Qed.

(** ** [send_audio] on the sessions a caller can have *)

Lemma active_stream st :
  reachable st -> is_active (self st) = true ->
  exists strm, stream (self st) = Some strm.
Proof.
  intros Hr Ha. pose proof (reachable_sound st Hr Ha) as H.
  unfold has_stream in H. destruct (stream (self st)); [eauto | discriminate].
Qed.

(** X2.  In every state a caller can bring a bridge to, an active session has
    a stream. *)
Theorem reachable_active_stream st :
  reachable st -> is_active (self st) = true ->
  exists strm, stream (self st) = Some strm.
Proof.
  induction 1 as [u1 u2 u3 e | V P cb st Hr _ | pcm st Hr _ | st Hr _ | st Hr _ | st e Hr _];
    intros Ha.
  - discriminate.
  - exact (active_stream _ (reach_start V P cb st Hr) Ha).
  - exact (active_stream _ (reach_send_audio pcm st Hr) Ha).
  - exact (active_stream _ (reach_stop st Hr) Ha).
  - exact (active_stream _ (reach_drain st Hr) Ha).
  - exact (active_stream _ (reach_env st e Hr) Ha).
Qed.

(** C4.  On an active session whose stream accepts the chunk, [send_audio]
    returns after the stream has taken exactly one more event: an
    [audioInput] event that carries the prompt identifier and the
    audio-content identifier of the session and whose [content] is the
    base64 text of the bytes given, from which decoding gives exactly those
    bytes back.  For the sixteen bytes [00 01] * 8 that text is
    [AAEAAQABAAEAAQABAAEAAQ==]. *)
Theorem send_audio_emits_one_audio_input pcm_bytes st :
  reachable st ->
  is_active (self st) = true ->
  sends_ok 1 (send_results (env st)) = true ->
  (exists st',
     send_audio pcm_bytes st = (Ok tt, st') /\
     emitted (self st') =
       (emitted (self st) ++
          [JObj [("event", JObj [("audioInput", JObj
             [("promptName", JStr (prompt_name (self st)));
              ("contentName", JStr (audio_content_name (self st)));
              ("content", JStr (b64encode pcm_bytes))])])]])%list) /\
  b64decode (JStr (b64encode pcm_bytes)) = Ok pcm_bytes /\
  b64encode (List.concat (repeat [x00; x01] 8)) = "AAEAAQABAAEAAQABAAEAAQ==".
Proof.
  intros Hr Ha Hok.
  destruct (active_stream st Hr Ha) as (strm & Hs).
  exact (send_audio_accepted pcm_bytes st strm Ha Hs Hok).
Qed.

(** C6.  On an active session, when the stream refuses the chunk of
    [send_audio] with an exception, the call raises that same exception to
    its caller and leaves the session inactive; nothing is retried: the
    stream holds what it held before. *)
Theorem send_audio_failure_is_fatal pcm_bytes st e rest :
  reachable st ->
  is_active (self st) = true ->
  send_results (env st) = Some e :: rest ->
  exists st',
    send_audio pcm_bytes st = (Raise e, st') /\
    is_active (self st') = false /\
    emitted (self st') = emitted (self st) /\
    send_results (env st') = rest.
Proof.
  intros Hr Ha Hres.
  destruct (active_stream st Hr Ha) as (strm & Hs).
  exact (send_audio_refused pcm_bytes st strm e rest Ha Hs Hres).
Qed.

(** ** The end of the draining task *)

Lemma iteration_raises callback role result st :
  harmless callback result = false ->
  exists e st', iteration callback role result st = (Raise e, st').
Proof.
  unfold harmless. intros H.
  pose proof (same_kind_iteration callback role JNull result st
                (mkState (__init__ "" "" "") (mkEnv None [] None [] [] []))) as K.
  rewrite H in K.
  destruct (iteration callback role result st) as [[role' | e] st']; [discriminate |].
  eauto.
Qed.

Lemma task_finally_finished st :
  waiting (self st) = true ->
  finished (self (task_finally st)) = true /\
  is_active (self (task_finally st)) = false.
Proof.
  destruct st as [[strm a p c ac n [[cb ts k] |]] en]; simpl; [| discriminate].
  intros _. split; reflexivity.
Qed.

Lemma resume_survives result st t :
  response_task (self st) = Some t ->
  waiting (self st) = true ->
  is_active (self st) = true ->
  harmless (send_callback t) result = true ->
  waiting (self (_process_responses_resume result st)) = true /\
  is_active (self (_process_responses_resume result st)) = true /\
  response_task (self (_process_responses_resume result st)) =
    Some (mkTask (send_callback t)
            (task_state
               (match response_task (self (_process_responses_resume result st)) with
                | Some t' => t'
                | None => t
                end))
            (cancel_calls t)).
Proof.
  intros Ht Hw Ha Hh.
  unfold _process_responses_resume, waiting in *. rewrite Ht in *.
  destruct (task_state t) as [| role |] eqn:Ets; try discriminate.
  destruct (harmless_iteration _ _ Hh role st) as (role' & st' & E). rewrite E.
  pose proof (iteration_logs_only (send_callback t) role result st) as L.
  rewrite E in L. destruct L as (L & _). simpl in L.
  unfold loop_head. rewrite L, Ha. simpl. rewrite L, Ht. simpl. auto.
Qed.

Lemma resume_dies result st t :
  response_task (self st) = Some t ->
  waiting (self st) = true ->
  harmless (send_callback t) result = false ->
  finished (self (_process_responses_resume result st)) = true /\
  is_active (self (_process_responses_resume result st)) = false.
Proof.
  intros Ht Hw Hh.
  unfold _process_responses_resume. pose proof Hw as Hw0.
  unfold waiting in Hw. rewrite Ht in *.
  destruct (task_state t) as [| role |] eqn:Ets; try discriminate.
  destruct (iteration_raises _ role _ st Hh) as (e & st' & E). rewrite E.
  pose proof (iteration_logs_only (send_callback t) role result st) as L.
  rewrite E in L. destruct L as (L & _). simpl in L.
  apply task_finally_finished.
  pose proof (task_except_logs_only e st') as (L2 & _).
  rewrite L2, L. exact Hw0.
Qed.

(** X3.  The draining task ends only together with the session.  A waiting
    task of an active session that receives something either runs its loop
    body to the end, and is then waiting again on a session that is still
    active, or meets an exception in it, and has then returned and cleared
    the active flag.  Which of the two happens depends on what was received
    and on the sink alone. *)
Theorem draining_task_ends_with_session result st t :
  response_task (self st) = Some t ->
  waiting (self st) = true ->
  is_active (self st) = true ->
  if harmless (send_callback t) result
  then waiting (self (_process_responses_resume result st)) = true /\
       is_active (self (_process_responses_resume result st)) = true
  else finished (self (_process_responses_resume result st)) = true /\
       is_active (self (_process_responses_resume result st)) = false.
Proof.
  intros Ht Hw Ha.
  destruct (harmless (send_callback t) result) eqn:Hh.
  - destruct (resume_survives result st t Ht Hw Ha Hh) as (R1 & R2 & _). auto.
  - exact (resume_dies result st t Ht Hw Hh).
Qed.

(** X4.  A receive that raises is fatal to the session.  Whatever exception
    one of the two awaits of the receive raises, the waiting draining task
    logs it, returns and clears the active flag; the sink is not called and
    the stream is left as it is.  The exception is logged a second time as
    fatal unless it is [StopAsyncIteration]. *)
Theorem receive_failure_ends_session e st :
  waiting (self st) = true ->
  finished (self (_process_responses_resume (RecvRaise e) st)) = true /\
  is_active (self (_process_responses_resume (RecvRaise e) st)) = false /\
  sink_log (env (_process_responses_resume (RecvRaise e) st)) = sink_log (env st) /\
  stream (self (_process_responses_resume (RecvRaise e) st)) = stream (self st) /\
  log (env (_process_responses_resume (RecvRaise e) st)) =
    (log (env st) ++
     mkLog ERROR "Error in response processor: {}: {}" [ArgExn e; ArgExn e] ::
     match e with
     | StopAsyncIteration => []
     | _ => [mkLog ERROR "Fatal error in response processor: {}" [ArgExn e]]
     end)%list.
Proof.
  destruct st as [[strm a p c ac n [[cb [| role |] k] |]] [o sr cr arr sl lg]];
    simpl; try discriminate.
  intros _. unfold _process_responses_resume. simpl.
  destruct e; simpl; rewrite <- ?app_assoc; repeat split.
Qed.

Lemma b64decode_raises v err :
  b64decode v = Raise err -> err <> StopAsyncIteration.
Proof.
  unfold b64decode. destruct v; try (intros [= <-]; discriminate).
  destruct (Base64.is_ascii s); [| intros [= <-]; discriminate].
  destruct (Base64.a2b_base64 s 0 0 0); [discriminate | intros [= <-]; discriminate].
Qed.

Lemma iteration_undecodable callback role content err st :
  content <> "" ->
  b64decode (JStr content) = Raise err ->
  iteration callback role (audio_output content) st = (Raise err, st).
Proof.
  intros H1 H2.
  assert (Ht : truthy (JStr content) = true)
    by (simpl; apply String.eqb_neq in H1; now rewrite H1).
  unfold iteration, audio_output, inbound, receive, dispatch.
  cbn -[truthy b64decode].
  change (first_key_or_unknown
            (JObj [("audioOutput", JObj [("content", JStr content)])]))
    with (@Ok string "audioOutput").
  cbn -[truthy b64decode]. rewrite Ht.
  unfold bind, lift. rewrite H2. reflexivity.
Qed.

(** X5.  Audio that cannot be decoded is fatal to the session.  When the
    content of an [audioOutput] event is not base64 text, the waiting
    draining task does not call the sink: the decoding error ends the task,
    which logs it as fatal and clears the active flag. *)
Theorem undecodable_audio_ends_session content err st :
  waiting (self st) = true ->
  content <> "" ->
  b64decode (JStr content) = Raise err ->
  finished (self (_process_responses_resume (audio_output content) st)) = true /\
  is_active (self (_process_responses_resume (audio_output content) st)) = false /\
  sink_log (env (_process_responses_resume (audio_output content) st)) =
    sink_log (env st) /\
  log (env (_process_responses_resume (audio_output content) st)) =
    (log (env st) ++
     [mkLog ERROR "Fatal error in response processor: {}" [ArgExn err]])%list.
Proof.
  intros Hw Hc Hd. pose proof (b64decode_raises _ _ Hd) as Hne.
  destruct st as [[strm a p c ac n [[cb [| role |] k] |]] [o sr cr arr sl lg]];
    simpl in Hw; try discriminate.
  unfold _process_responses_resume. simpl.
  rewrite (iteration_undecodable _ _ _ err) by assumption.
  destruct err; try (now contradiction Hne); simpl; repeat split.
Qed.

Lemma iteration_content_start callback role fields st :
  iteration callback role (inbound "contentStart" (JObj fields)) st =
    (Ok (field_or "role" (JStr "") fields),
     on_env (fun e => set_log (log e ++ [mkLog INFO "Event: {}" [ArgStr "contentStart"]]) e)
       st).
Proof. reflexivity. Qed.

Lemma iteration_text_output callback role fields st :
  iteration callback role (inbound "textOutput" (JObj fields)) st =
    (Ok role,
     on_env (fun e => set_log
               (log e ++
                mkLog INFO "Event: {}" [ArgStr "textOutput"] ::
                if truthy (field_or "content" (JStr "") fields)
                then [mkLog INFO "[{}] {}"
                        [ArgVal (field_or "role" role fields);
                         ArgVal (field_or "content" (JStr "") fields)]]
                else []) e) st).
Proof.
  unfold iteration, inbound, receive, dispatch, field_or.
  cbn -[truthy]. unfold bind, lift, when, logger_info, update, ret. cbn -[truthy].
  destruct (truthy match lookup "content" fields with
                   | Some x => x
                   | None => JStr ""
                   end); cbn; unfold on_env, set_log; cbn;
    rewrite <- ?app_assoc; reflexivity.
Qed.

(** X6.  Text is attributed to the role declared last.  A [contentStart]
    event sets the role the draining task remembers to the value of its
    [role] field (the empty string when it has none); a [textOutput] event
    with content is then logged under its own [role] field when it has one
    and under the remembered role otherwise.  Neither event reaches the
    sink, and the task keeps waiting on the active session. *)
Theorem text_output_attributed_to_declared_role declared said st :
  waiting (self st) = true ->
  is_active (self st) = true ->
  truthy (field_or "content" (JStr "") said) = true ->
  let st' :=
    deliver [inbound "contentStart" (JObj declared);
             inbound "textOutput" (JObj said)] st in
  log (env st') =
    (log (env st) ++
     [mkLog INFO "Event: {}" [ArgStr "contentStart"];
      mkLog INFO "Event: {}" [ArgStr "textOutput"];
      mkLog INFO "[{}] {}"
        [ArgVal (field_or "role" (field_or "role" (JStr "") declared) said);
         ArgVal (field_or "content" (JStr "") said)]])%list /\
  sink_log (env st') = sink_log (env st) /\
  tracked_role (self st') = Some (field_or "role" (JStr "") declared) /\
  is_active (self st') = true.
Proof.
  intros Hw Ha Ht st'. subst st'.
  destruct st as [[strm a p c ac n [[cb [| role |] k] |]] [o sr cr arr sl lg]];
    simpl in Hw, Ha; try discriminate. subst a.
  unfold deliver. simpl fold_left.
  unfold _process_responses_resume at 2. simpl.
  unfold _process_responses_resume. simpl.
  rewrite iteration_text_output, Ht. simpl.
  rewrite <- app_assoc. repeat split.
Qed.

(** ** The shutdown after a failed send *)

Lemma deliver_survives batch : forall st t,
  response_task (self st) = Some t ->
  waiting (self st) = true ->
  is_active (self st) = true ->
  forallb (harmless (send_callback t)) batch = true ->
  waiting (self (deliver batch st)) = true /\
  is_active (self (deliver batch st)) = true.
Proof.
  induction batch as [| result batch IH]; intros st t Ht Hw Ha Hh; [auto |].
  simpl in Hh. apply andb_prop in Hh as (Hh1 & Hh2).
  destruct (resume_survives result st t Ht Hw Ha Hh1) as (R1 & R2 & R3).
  unfold deliver. simpl. apply (IH _ _ R3 R1 R2). exact Hh2.
Qed.

Lemma drain_survives st t :
  response_task (self st) = Some t ->
  waiting (self st) = true ->
  is_active (self st) = true ->
  forallb (harmless (send_callback t)) (hd [] (arrivals (env st))) = true ->
  waiting (self (drain st)) = true /\ is_active (self (drain st)) = true.
Proof.
  intros Ht Hw Ha Hh. unfold drain.
  assert (E : _process_responses_start
                (on_env (fun e => set_arrivals (tl (arrivals e)) e) st) =
              on_env (fun e => set_arrivals (tl (arrivals e)) e) st).
  { unfold _process_responses_start, waiting in *. simpl. rewrite Ht in *.
    destruct (task_state t); try discriminate; reflexivity. }
  rewrite E. apply (deliver_survives _ _ t); auto.
Qed.

(** X7.  After a failed send the shutdown leaves the draining task running.
    When the stream refuses the chunk of [send_audio] on an active session
    whose draining task is waiting (and survives what arrives during the
    send), the exception clears the active flag; the [stop] that follows
    then finds the session inactive and returns at once: it does not close
    the input half of the stream and does not cancel the draining task,
    which is still waiting on the stream afterwards. *)
Theorem stop_after_send_failure_leaves_task pcm_bytes st t strm e rest :
  response_task (self st) = Some t ->
  waiting (self st) = true ->
  is_active (self st) = true ->
  stream (self st) = Some strm ->
  send_results (env st) = Some e :: rest ->
  forallb (harmless (send_callback t)) (hd [] (arrivals (env st))) = true ->
  exists st1,
    send_audio pcm_bytes st = (Raise e, st1) /\
    stop st1 = (Ok tt, st1) /\
    waiting (self st1) = true /\
    cancellations (self st1) = cancellations (self st) /\
    stream (self st1) = Some strm.
Proof.
  intros Ht Hw Ha Hs Hr Hh.
  rewrite send_audio_active by exact Ha.
  set (st0 := on_self (fun b => set_audio_chunks_sent (audio_chunks_sent b + 1) b) st).
  assert (Ha0 : is_active (self st0) = true) by exact Ha.
  assert (Hs0 : stream (self st0) = Some strm) by exact Hs.
  rewrite (send_event_active _ st0 strm Ha0 Hs0).
  pose proof (drain_suspended st0) as D. unfold suspended, drained in D. simpl in D.
  destruct D as (D1 & _ & _ & _ & _ & _ & D7 & _ & _ & _ & D11).
  change (send_results (env st0)) with (send_results (env st)). rewrite Hr.
  destruct (drain_survives st0 t Ht Hw Ha0 Hh) as (W1 & _).
  eexists. split; [reflexivity |].
  split; [now apply stop_inactive |].
  split; [exact W1 |].
  split; [exact (task_kept_cancellations st0 _ D11) |].
  simpl. now rewrite D1.
Qed.

(** ** The draining task at the end of [stop] *)

#[local] Instance keeps_task_preorder : PreOrder keeps_task.
Proof. split; unfold keeps_task; [intros x | intros x y z]; auto. Qed.

Lemma drained_keeps_task st st' : drained st st' -> keeps_task st st'.
Proof.
  unfold drained, keeps_task, has_task, task_kept.
  intros (_ & _ & _ & _ & _ & _ & _ & _ & _ & _ & K).
  destruct (response_task (self st)), (response_task (self st')); auto; contradiction.
Qed.

Lemma drain_keeps_task st : keeps_task st (drain st).
Proof.
  pose proof (drain_suspended st) as D. unfold suspended in D.
  exact (drained_keeps_task _ _ D).
Qed.

Lemma send_event_keeps_task event : preserves keeps_task (send_event event).
Proof.
  intros st. unfold send_event, _send, bind, read. simpl.
  destruct (stream (self st)); [| reflexivity].
  destruct (is_active (self st)); [| reflexivity].
  unfold send_chunk, try_except, input_stream_send, bind, suspend.
  pose proof (drain_keeps_task st) as D. unfold keeps_task, has_task in *.
  destruct (send_results (env (drain st))) as [| [e |] rest]; simpl; exact D.
Qed.

Lemma close_session_keeps_task : preserves keeps_task close_session.
Proof.
  assert (Hsus : preserves keeps_task suspend) by (intros st; apply drain_keeps_task).
  unfold close_session, input_stream_close, asyncio_sleep.
  repeat first
    [ apply send_event_keeps_task
    | exact Hsus
    | preserve_step ].
  all: intros st; unfold keeps_task, has_task, logger_error, update; simpl.
  all: try (destruct (close_result (env st)); simpl); auto.
Qed.

Lemma cancel_response_task_finished st :
  has_task (self st) = true ->
  finished (self (snd (cancel_response_task st))) = true.
Proof.
  destruct st as [[strm a p c ac n [[cb ts k] |]] en]; [| discriminate].
  intros _. destruct ts; reflexivity.
Qed.

(** X8.  When [stop] returns on a session that was active, the draining task
    has returned.  Whatever the service does during the shutdown (events
    that arrive during the pauses, a close that raises, a session without a
    stream), [stop] returns normally, and the task the session had is
    finished: it has left its loop on the cleared flag or has been
    cancelled. *)
Theorem stop_ends_draining_task st :
  is_active (self st) = true ->
  has_task (self st) = true ->
  fst (stop st) = Ok tt /\
  finished (self (snd (stop st))) = true /\
  is_active (self (snd (stop st))) = false.
Proof.
  intros Ha Ht.
  destruct (stop_active_steps st Ha) as (st1 & E1 & E & _).
  pose proof (close_session_keeps_task (on_self (set_is_active false) st)) as K.
  rewrite E1 in K. specialize (K Ht). simpl in K.
  split; [| split].
  - pose proof (safe_stop st) as S. destruct (fst (stop st)) as [[] | e];
      [reflexivity | discriminate].
  - rewrite E. now apply cancel_response_task_finished.
  - apply stop_leaves_inactive.
Qed.

(** ** The call bridge loop *)




Lemma receive_loop_active first_message received rest st :
  is_active (self st) = true ->
  receive_loop first_message (received :: rest) st =
    match received with
    | ReceiveTimeout => receive_loop first_message rest (drain st)
    | ReceiveRaise e => (LoopRaised e, drain st)
    | ReceiveMessage msg =>
        if is_disconnect msg then
          (LoopLeft, snd (logger_info "Vonage disconnected" [] (drain st)))
        else if first_message && msg_has "text" msg then
          receive_loop false rest (drain st)
        else
          match msg_get "bytes" msg with
          | Some audio_data =>
              match send_audio_data audio_data (drain st) with
              | (Ok _, st') => receive_loop first_message rest st'
              | (Raise e, st') => (LoopRaised (WsError e), st')
              end
          | None => receive_loop first_message rest (drain st)
          end
    end.
Proof. intros H. simpl. now rewrite H. Qed.


Lemma finally_stop_returns st :
  exists st', finally_stop st = Returned st' /\ st' = snd (stop st).
Proof.
  unfold finally_stop. pose proof (safe_stop st) as H.
  destruct (stop st) as [[[] | e] st']; [| discriminate]. eauto.
Qed.


Lemma sends_ok_add n m results :
  sends_ok (n + m) results = true ->
  sends_ok n results = true /\ sends_ok m (skipn n results) = true.
Proof.
  revert results. induction n as [| n IH]; intros results H.
  - split; [reflexivity | exact H].
  - destruct results as [| [e |] rest].
    + split; [reflexivity |]. now destruct m.
    + discriminate.
    + unfold sends_ok in *. simpl in *. now apply IH.
Qed.

(** A [start] on which nothing fails leaves a healthy session whose
    stream holds the handshake. *)
Lemma start_healthy VOICE_ID SYSTEM_PROMPT callback st :
  open_result (env st) = None ->
  sends_ok 6 (send_results (env st)) = true ->
  all_harmless callback (arrivals (env st)) = true ->
  exists st',
    start VOICE_ID SYSTEM_PROMPT callback st = (Ok tt, st') /\
    healthy callback st' /\
    stream (self st') =
      Some (mkStream (handshake VOICE_ID SYSTEM_PROMPT (self st)) false) /\
    same_ids (self st) (self st') /\
    audio_chunks_sent (self st') = audio_chunks_sent (self st) /\
    send_results (env st') = skipn 6 (send_results (env st)).
Proof.
  intros Ho Hok Hh.
  rewrite start_opened by exact Ho.
  destruct (opened_healthy callback st Hh) as (H1 & Hi1 & Hs1 & Hr1).
  rewrite <- Hr1 in Hok.
  destruct (run_steps_ok callback (handshake_steps VOICE_ID SYSTEM_PROMPT)
              (logger_info "Nova Sonic ready for audio" [])
              (handshake_steps_keyed VOICE_ID SYSTEM_PROMPT)
              (opened callback st) _ H1 Hs1 Hok)
    as (st2 & E2 & H2 & Hi2 & Hc2 & Hst2 & Hr2).
  specialize (Hst2 _ Hs1).
  rewrite handshake_steps_events, (handshake_same_ids _ _ _ _ Hi1) in Hst2.
  unfold try_except. rewrite E2. unfold logger_info, update.
  eexists. split; [reflexivity |].
  split; [exact H2 |]. split; [exact Hst2 |].
  split; [exact (same_ids_trans _ _ _ Hi1 Hi2) |].
  split.
  - simpl. rewrite Hc2.
    pose proof (connecting_frame st) as D. unfold suspended, drained in D.
    simpl in D. unfold opened. simpl. tauto.
  - simpl. rewrite Hr2, Hr1. reflexivity.
Qed.

Lemma logger_info_same_counter template args :
  preserves same_counter (logger_info template args).
Proof. intros st. reflexivity. Qed.

Lemma logger_error_same_counter template args :
  preserves same_counter (logger_error template args).
Proof. intros st. reflexivity. Qed.

Lemma stop_same_counter : preserves same_counter stop.
Proof.
  assert (Hsus : preserves same_counter suspend) by (intros st; apply drain_same_counter).
  assert (Hdown : preserves same_counter (update (on_self (set_is_active false))))
    by (intros st; reflexivity).
  unfold stop, close_session, cancel_response_task, input_stream_close, asyncio_sleep.
  repeat first
    [ apply send_event_same_counter
    | apply logger_error_same_counter
    | exact Hsus
    | exact Hdown
    | preserve_step ].
  all: intros st; unfold same_counter, cancel, await_cancelled_task, update; simpl.
  all: try (destruct (close_result (env st)); reflexivity).
  all: try reflexivity.
  pose proof (_process_responses_cancel_drained st) as D. unfold drained in D. tauto.
Qed.

Lemma forwarded_nil callback st : healthy callback st -> forwarded callback [] st st.
Proof.
  intros H. unfold forwarded. split; [exact H |].
  split; [apply same_ids_refl |]. split; [simpl; lia |].
  split; [| reflexivity].
  intros strm Hs. rewrite Hs, app_nil_r. now destruct strm.
Qed.

Lemma forwarded_drain callback chunks st st' :
  healthy callback st -> forwarded callback chunks (drain st) st' ->
  forwarded callback chunks st st'.
Proof.
  intros H (F1 & F2 & F3 & F4 & F5).
  pose proof (drain_emits callback st H) as (_ & Hi & Hc & Hst & Hr).
  simpl in Hr. unfold forwarded. split; [exact F1 |].
  split; [exact (same_ids_trans _ _ _ Hi F2) |].
  split; [now rewrite F3, Hc |].
  split; [| now rewrite F5, Hr].
  intros strm Hs. specialize (Hst strm Hs). rewrite app_nil_r in Hst.
  rewrite (F4 _ Hst). simpl.
  destruct Hi as (I1 & _ & I3). unfold audio_input. now rewrite I1, I3.
Qed.

Lemma send_audio_forwarded callback data st strm :
  healthy callback st ->
  stream (self st) = Some strm ->
  sends_ok 1 (send_results (env st)) = true ->
  exists st',
    send_audio data st = (Ok tt, st') /\ forwarded callback [data] st st'.
Proof.
  intros H Hs Hok. pose proof H as ((Ha & Ht) & Hh).
  rewrite send_audio_active by exact Ha.
  set (st0 := on_self (fun b => set_audio_chunks_sent (audio_chunks_sent b + 1) b) st).
  assert (H0 : healthy callback st0) by (split; [split |]; assumption).
  destruct (send_event_emits callback (audio_input data) st0 strm H0 Hs Hok)
    as (st' & E & F1 & F2 & F3 & F4 & F5).
  exists st'. split; [exact E |].
  unfold forwarded. split; [exact F1 |]. split; [exact F2 |].
  split; [rewrite F3; reflexivity |].
  split; [| exact F5].
  intros s Es. apply F4. exact Es.
Qed.

Lemma forwarded_trans callback chunks1 chunks2 st1 st2 st3 :
  forwarded callback chunks1 st1 st2 -> forwarded callback chunks2 st2 st3 ->
  forwarded callback (chunks1 ++ chunks2) st1 st3.
Proof.
  intros (_ & A2 & A3 & A4 & A5) (B1 & B2 & B3 & B4 & B5).
  unfold forwarded. split; [exact B1 |].
  split; [exact (same_ids_trans _ _ _ A2 B2) |].
  split; [rewrite B3, A3, length_app, Nat2Z.inj_add; lia |].
  split.
  - intros strm Hs. rewrite (B4 _ (A4 _ Hs)). simpl.
    rewrite <- app_assoc, map_app.
    destruct A2 as (I1 & _ & I3). unfold audio_input. now rewrite I1, I3.
  - rewrite B5, A5, length_app, skipn_skipn, PeanoNat.Nat.add_comm. reflexivity.
Qed.

(** The loop forwards the audio of the frames it receives, in order. *)
Lemma receive_loop_forwards callback frames : forall first_message st strm rest,
  healthy callback st ->
  stream (self st) = Some strm ->
  sends_ok (List.length (flat_map audio_of frames)) (send_results (env st)) = true ->
  exists first_message' st',
    receive_loop first_message (map receive_of frames ++ rest) st =
      receive_loop first_message' rest st' /\
    forwarded callback (flat_map audio_of frames) st st'.
Proof.
  induction frames as [| frame frames IH]; intros fm st strm rest H Hs Hok.
  - exists fm, st. split; [reflexivity | now apply forwarded_nil].
  - pose proof H as ((Ha & _) & _).
    pose proof (drain_emits callback st H) as (H1 & _ & _ & Hst1 & Hr1).
    specialize (Hst1 strm Hs). rewrite app_nil_r in Hst1. simpl in Hr1.
    assert (Hs1 : stream (self (drain st)) = Some strm) by (rewrite Hst1; now destruct strm).
    simpl map. simpl app. rewrite receive_loop_active by exact Ha.
    destruct frame as [| s | data]; cbn [receive_of]; cbv beta iota;
      simpl flat_map in *.
    + rewrite <- Hr1 in Hok.
      destruct (IH fm (drain st) strm rest H1 Hs1 Hok) as (fm' & st' & E & F).
      exists fm', st'. split; [exact E | now apply forwarded_drain].
    + rewrite <- Hr1 in Hok.
      change (is_disconnect (text_frame s)) with false.
      change (msg_has "text" (text_frame s)) with true.
      change (msg_get "bytes" (text_frame s)) with (@None WsValue).
      destruct fm; simpl andb; cbv iota.
      * destruct (IH false (drain st) strm rest H1 Hs1 Hok) as (fm' & st' & E & F).
        exists fm', st'. split; [exact E | now apply forwarded_drain].
      * destruct (IH false (drain st) strm rest H1 Hs1 Hok) as (fm' & st' & E & F).
        exists fm', st'. split; [exact E | now apply forwarded_drain].
    + change (is_disconnect (binary_frame data)) with false.
      change (msg_has "text" (binary_frame data)) with false.
      change (msg_get "bytes" (binary_frame data)) with (Some (WsBytes data)).
      rewrite andb_false_r. cbv iota. unfold send_audio_data.
      rewrite <- Hr1 in Hok.
      change (List.length (data :: flat_map audio_of frames))
        with (1 + List.length (flat_map audio_of frames))%nat in Hok.
      apply sends_ok_add in Hok as (Hok1 & Hokn).
      destruct (send_audio_forwarded callback data (drain st) strm H1 Hs1 Hok1)
        as (st2 & E2 & F2).
      rewrite E2.
      pose proof F2 as (H2 & _ & _ & Hst2 & Hr2).
      specialize (Hst2 _ Hs1). cbn [List.length] in Hr2. rewrite <- Hr2 in Hokn.
      destruct (IH fm st2 _ rest H2 Hst2 Hokn) as (fm' & st' & E & F).
      exists fm', st'. split; [exact E |].
      apply forwarded_drain; [exact H |].
      exact (forwarded_trans callback [data] _ _ _ _ F2 F).
Qed.

(** X10.  A call from its first frame to the disconnect.  When the transport
    accepts, the stream opens and takes every event and nothing that
    arrives ends the draining task, the endpoint runs the handshake, then
    forwards the payload of every binary frame to the stream as one
    [audioInput] event, in the order of arrival, and drops text frames and
    timeouts; at the disconnect message it stops the session and returns.
    The stream then holds the six handshake events followed by one event
    for each binary frame, and the counter is the number of binary
    frames. *)
Theorem websocket_endpoint_forwards_audio_in_order
    VOICE_ID SYSTEM_PROMPT websocket uuid1 uuid2 uuid3 en frames code rest :
  accept_result websocket = None ->
  inbox websocket =
    (map receive_of frames ++ ReceiveMessage (disconnect_message code) :: rest)%list ->
  open_result en = None ->
  sends_ok (6 + List.length (flat_map audio_of frames)) (send_results en) = true ->
  all_harmless (vonage_sink websocket) (arrivals en) = true ->
  exists st,
    websocket_endpoint VOICE_ID SYSTEM_PROMPT websocket uuid1 uuid2 uuid3 en =
      Returned st /\
    is_active (self st) = false /\
    emitted (self st) =
      (handshake VOICE_ID SYSTEM_PROMPT (__init__ uuid1 uuid2 uuid3) ++
       map (fun data => audio_input data (__init__ uuid1 uuid2 uuid3))
         (flat_map audio_of frames))%list /\
    audio_chunks_sent (self st) = Z.of_nat (List.length (flat_map audio_of frames)).
Proof.
  intros Hacc Hin Ho Hok Hh.
  unfold websocket_endpoint, bridge_call. rewrite Hacc, Hin.
  set (b := __init__ uuid1 uuid2 uuid3).
  set (en0 := set_log _ en).
  apply sends_ok_add in Hok as (Hok6 & Hokn).
  destruct (start_healthy VOICE_ID SYSTEM_PROMPT (vonage_sink websocket)
              (mkState b en0) Ho Hok6 Hh)
    as (st1 & E1 & H1 & Hs1 & Hi1 & Hc1 & Hr1).
  rewrite E1.
  set (st2 := snd (logger_info "Nova Sonic bridge started" [] st1)).
  assert (H2 : healthy (vonage_sink websocket) st2) by exact H1.
  assert (Hs2 : stream (self st2) =
                Some (mkStream (handshake VOICE_ID SYSTEM_PROMPT b) false)) by exact Hs1.
  assert (Hr2 : send_results (env st2) = skipn 6 (send_results en)) by exact Hr1.
  rewrite <- Hr2 in Hokn.
  destruct (receive_loop_forwards (vonage_sink websocket) frames true st2 _
              (ReceiveMessage (disconnect_message code) :: rest) H2 Hs2 Hokn)
    as (fm & st3 & E3 & H3 & Hi3 & Hc3 & Hst3 & _).
  rewrite E3. specialize (Hst3 _ Hs2). cbn [sent input_closed] in Hst3.
  pose proof H3 as ((Ha3 & _) & _).
  rewrite receive_loop_active by exact Ha3.
  change (is_disconnect (disconnect_message code)) with true. cbv iota.
  pose proof (drain_emits _ st3 H3) as (((Ha4 & _) & _) & _ & Hc4 & Hst4 & _).
  specialize (Hst4 _ Hst3). rewrite app_nil_r in Hst4. cbn [sent input_closed] in Hst4.
  set (st4 := snd (logger_info "Vonage disconnected" [] (drain st3))).
  destruct (finally_stop_returns st4) as (st5 & -> & ->).
  exists (snd (stop st4)). split; [reflexivity |].
  assert (Ha : is_active (self st4) = true) by exact Ha4.
  destruct (stop_active_steps st4 Ha) as (s & _ & Es & As & Ems & _).
  split; [apply stop_leaves_inactive |].
  split.
  - pose proof (stop_active st4 Ha) as Est.
    assert (Hem : emitted (self (snd (stop st4))) = emitted (self st4)).
    { rewrite Es.
      destruct (cancel_response_task_inactive s As) as (_ & K & _).
      now rewrite K, Ems. }
    rewrite Hem. unfold emitted.
    change (stream (self st4)) with (stream (self (drain st3))).
    rewrite Hst4. cbn [sent].
    destruct Hi1 as (I1 & _ & I3). simpl in I1, I3.
    f_equal. apply map_ext. intros data. unfold audio_input.
    change (prompt_name (self st2)) with (prompt_name (self st1)).
    change (audio_content_name (self st2)) with (audio_content_name (self st1)).
    now rewrite I1, I3.
  - rewrite (stop_same_counter st4).
    change (audio_chunks_sent (self st4)) with (audio_chunks_sent (self (drain st3))).
    rewrite Hc4, Hc3.
    change (audio_chunks_sent (self st2)) with (audio_chunks_sent (self st1)).
    rewrite Hc1. simpl. lia.
Qed.

Lemma sends_ok_repeat n rest : sends_ok n (repeat None n ++ rest) = true.
Proof.
  unfold sends_ok. induction n as [| n IH]; [reflexivity | exact IH].
Qed.

Lemma skipn_repeat {A} (x : A) n rest : skipn n (repeat x n ++ rest) = rest.
Proof. induction n as [| n IH]; [reflexivity | exact IH]. Qed.

(** X11.  A send failure ends the call and leaves the draining task behind.
    When the stream refuses the event of a binary frame in the middle of a
    call, [send_audio] raises into the endpoint, which logs the error, runs
    [stop] and returns.  The refused chunk has been counted but is not in
    the stream, and no later frame is read.  Because the failed send has
    already cleared the active flag, that [stop] does nothing: the input
    half of the stream is not closed and the draining task, which has not
    returned, is not cancelled. *)
Theorem websocket_endpoint_send_failure_leaves_task
    VOICE_ID SYSTEM_PROMPT websocket uuid1 uuid2 uuid3 en frames data rest e more :
  accept_result websocket = None ->
  inbox websocket =
    (map receive_of frames ++ ReceiveMessage (binary_frame data) :: rest)%list ->
  open_result en = None ->
  send_results en =
    (repeat None (6 + List.length (flat_map audio_of frames)) ++ Some e :: more)%list ->
  all_harmless (vonage_sink websocket) (arrivals en) = true ->
  exists st,
    websocket_endpoint VOICE_ID SYSTEM_PROMPT websocket uuid1 uuid2 uuid3 en =
      Returned st /\
    is_active (self st) = false /\
    stream (self st) =
      Some (mkStream
              (handshake VOICE_ID SYSTEM_PROMPT (__init__ uuid1 uuid2 uuid3) ++
               map (fun chunk => audio_input chunk (__init__ uuid1 uuid2 uuid3))
                 (flat_map audio_of frames))
              false) /\
    audio_chunks_sent (self st) =
      Z.of_nat (List.length (flat_map audio_of frames)) + 1 /\
    exists t, response_task (self st) = Some t /\ done t = false.
Proof.
  intros Hacc Hin Ho Hres Hh.
  unfold websocket_endpoint, bridge_call. rewrite Hacc, Hin.
  set (b := __init__ uuid1 uuid2 uuid3).
  set (en0 := set_log _ en).
  pose proof (sends_ok_repeat (6 + List.length (flat_map audio_of frames))
                (Some e :: more)) as Hok.
  rewrite <- Hres in Hok.
  apply sends_ok_add in Hok as (Hok6 & Hokn).
  destruct (start_healthy VOICE_ID SYSTEM_PROMPT (vonage_sink websocket)
              (mkState b en0) Ho Hok6 Hh)
    as (st1 & E1 & H1 & Hs1 & Hi1 & Hc1 & Hr1).
  rewrite E1.
  set (st2 := snd (logger_info "Nova Sonic bridge started" [] st1)).
  assert (H2 : healthy (vonage_sink websocket) st2) by exact H1.
  assert (Hs2 : stream (self st2) =
                Some (mkStream (handshake VOICE_ID SYSTEM_PROMPT b) false)) by exact Hs1.
  assert (Hr2 : send_results (env st2) = skipn 6 (send_results en)) by exact Hr1.
  rewrite <- Hr2 in Hokn.
  destruct (receive_loop_forwards (vonage_sink websocket) frames true st2 _
              (ReceiveMessage (binary_frame data) :: rest) H2 Hs2 Hokn)
    as (fm & st3 & E3 & H3 & Hi3 & Hc3 & Hst3 & Hr3).
  rewrite E3. specialize (Hst3 _ Hs2). cbn [sent input_closed] in Hst3.
  pose proof H3 as ((Ha3 & _) & _).
  rewrite receive_loop_active by exact Ha3.
  change (is_disconnect (binary_frame data)) with false.
  change (msg_has "text" (binary_frame data)) with false.
  change (msg_get "bytes" (binary_frame data)) with (Some (WsBytes data)).
  rewrite andb_false_r. cbv iota. unfold send_audio_data.
  pose proof (drain_emits _ st3 H3) as (H4 & _ & Hc4 & Hst4 & Hr4).
  specialize (Hst4 _ Hst3). rewrite app_nil_r in Hst4. cbn [sent input_closed] in Hst4.
  simpl in Hr4.
  assert (Hres4 : send_results (env (drain st3)) = Some e :: more).
  { rewrite Hr4, Hr3, Hr2, Hres, skipn_skipn, PeanoNat.Nat.add_comm.
    apply skipn_repeat. }
  pose proof H4 as ((Ha4 & t & Ht4 & _ & Hd4) & _).
  rewrite (send_audio_active data (drain st3) Ha4).
  set (st5 := on_self (fun b => set_audio_chunks_sent (audio_chunks_sent b + 1) b)
                (drain st3)).
  assert (H5 : healthy (vonage_sink websocket) st5) by exact H4.
  rewrite (send_event_active (audio_input data) st5 _ Ha4 Hst4).
  change (send_results (env st5)) with (send_results (env (drain st3))).
  rewrite Hres4.
  pose proof (drain_emits _ st5 H5) as (H6 & _ & Hc6 & Hst6 & _).
  specialize (Hst6 _ Hst4). rewrite app_nil_r in Hst6. cbn [sent input_closed] in Hst6.
  pose proof H6 as ((_ & t6 & Ht6 & _ & Hd6) & _).
  match goal with
  | |- context [finally_stop ?s] =>
      destruct (finally_stop_returns s) as (st7 & -> & ->);
      rewrite (stop_inactive s) by reflexivity
  end.
  eexists. split; [reflexivity |]. split; [reflexivity |].
  split; [| split].
  - match goal with
    | |- stream (self ?s) = _ =>
        change (stream (self s)) with (stream (self (drain st5)))
    end.
    rewrite Hst6.
    destruct Hi1 as (I1 & _ & I3). simpl in I1, I3.
    do 3 f_equal. apply map_ext. intros chunk. unfold audio_input.
    change (prompt_name (self st2)) with (prompt_name (self st1)).
    change (audio_content_name (self st2)) with (audio_content_name (self st1)).
    now rewrite I1, I3.
  - match goal with
    | |- audio_chunks_sent (self ?s) = _ =>
        change (audio_chunks_sent (self s)) with (audio_chunks_sent (self (drain st5)))
    end.
    rewrite Hc6.
    change (audio_chunks_sent (self st5))
      with (audio_chunks_sent (self (drain st3)) + 1).
    rewrite Hc4, Hc3.
    change (audio_chunks_sent (self st2)) with (audio_chunks_sent (self st1)).
    rewrite Hc1. simpl. lia.
  - exists t6. split; [exact Ht6 | exact Hd6].
Qed.


(** ** The credential provider *)

Lemma get_imdsv2_token_process imds p :
  snd (get_imdsv2_token imds p) =
    mkProcess (environ p) (requests p ++ [token_request]) (process_log p).
Proof.
  unfold get_imdsv2_token, http. fold token_request.
  destruct (imds token_request) as [message | response]; [reflexivity |].
  destruct (status_code response =? 200); reflexivity.
Qed.

Lemma get_imdsv2_token_headers imds p :
  token_headers (fst (get_imdsv2_token imds p)) = granted_token imds.
Proof.
  unfold get_imdsv2_token, http, granted_token. fold token_request.
  destruct (imds token_request) as [message | response]; [reflexivity |].
  destruct (status_code response =? 200); [| reflexivity].
  simpl. destruct (String.eqb (text response) ""); reflexivity.
Qed.

(** The provider only reads the environment. *)
Lemma get_credentials_from_imds_environ imds p :
  environ (snd (get_credentials_from_imds imds p)) = environ p.
Proof.
  unfold get_credentials_from_imds.
  pose proof (get_imdsv2_token_process imds p) as Hp.
  destruct (get_imdsv2_token imds p) as [token p1]. simpl in Hp. subst p1.
  unfold http. cbn [environ requests process_log].
  destruct (imds _) as [message | role_response]; [reflexivity |].
  destruct (negb (status_code role_response =? 200)); [reflexivity |].
  destruct (imds _) as [message | creds_response]; [reflexivity |].
  destruct (negb (status_code creds_response =? 200)); [reflexivity |].
  destruct (json_result creds_response); reflexivity.
Qed.

(** X13.  The requests of the credential provider.  [get_credentials_from_imds]
    asks the metadata service for a token, then for the role name, and for
    the credentials of the role only when the role request was answered
    with status 200, at the address of the role request followed by the
    stripped role name.  Both [GET] requests carry the token when the token
    request was answered with status 200 and a non-empty text, and no
    header at all otherwise: a failed token request does not stop the
    provider.  It touches neither the environment nor the log. *)
Theorem get_credentials_from_imds_requests imds p :
  requests (snd (get_credentials_from_imds imds p)) =
    (requests p ++
     token_request ::
     role_request (granted_token imds) ::
     match imds (role_request (granted_token imds)) with
     | HttpReturn role_response =>
         if status_code role_response =? 200
         then [credentials_request (strip (text role_response)) (granted_token imds)]
         else []
     | HttpRaise _ => []
     end)%list /\
  environ (snd (get_credentials_from_imds imds p)) = environ p /\
  process_log (snd (get_credentials_from_imds imds p)) = process_log p.
Proof.
  unfold get_credentials_from_imds.
  pose proof (get_imdsv2_token_process imds p) as Hp.
  pose proof (get_imdsv2_token_headers imds p) as Hh.
  destruct (get_imdsv2_token imds p) as [token p1]. simpl in Hp, Hh. subst p1.
  rewrite Hh. unfold http. cbn [environ requests process_log].
  fold (role_request (granted_token imds)).
  destruct (imds (role_request (granted_token imds))) as [message | role_response].
  - simpl. rewrite <- app_assoc. auto.
  - destruct (status_code role_response =? 200); cbn [negb].
    + fold (credentials_request (strip (text role_response)) (granted_token imds)).
      destruct (imds (credentials_request (strip (text role_response))
                        (granted_token imds))) as [message | creds_response].
      * simpl. rewrite <- !app_assoc. auto.
      * destruct (status_code creds_response =? 200); cbn [negb];
          [destruct (json_result creds_response) |];
          simpl; rewrite <- !app_assoc; auto.
    + simpl. rewrite <- app_assoc. auto.
Qed.

(** X14.  The result of [get_credentials_from_imds] is either a success with
    credentials and no error, or a failure with an error and no
    credentials.  It is a success exactly when both [GET] requests were
    answered with status 200 and the second answer is JSON: a success has
    such answers, and such answers give a success; the credentials are
    then that JSON value. *)
Theorem get_credentials_from_imds_result imds p :
  let result := fst (get_credentials_from_imds imds p) in
  ((success result = true /\
    error result = None /\
    exists role_response creds_response,
      imds (role_request (granted_token imds)) = HttpReturn role_response /\
      status_code role_response = 200 /\
      imds (credentials_request (strip (text role_response)) (granted_token imds)) =
        HttpReturn creds_response /\
      status_code creds_response = 200 /\
      json_result creds_response = inr (credentials result)) \/
   (success result = false /\
    credentials result = JNull /\
    exists message, error result = Some message)) /\
  (forall role_response creds_response value,
     imds (role_request (granted_token imds)) = HttpReturn role_response ->
     status_code role_response = 200 ->
     imds (credentials_request (strip (text role_response)) (granted_token imds)) =
       HttpReturn creds_response ->
     status_code creds_response = 200 ->
     json_result creds_response = inr value ->
     result = mkImdsResult true value None).
Proof.
  unfold get_credentials_from_imds.
  pose proof (get_imdsv2_token_headers imds p) as Hh.
  destruct (get_imdsv2_token imds p) as [token p1]. simpl in Hh.
  rewrite Hh. unfold http. cbn [environ requests process_log].
  fold (role_request (granted_token imds)).
  cbv zeta. split.
  - destruct (imds (role_request (granted_token imds))) as [message | role_response];
      [right; simpl; eauto |].
    destruct (status_code role_response =? 200) eqn:E1; cbn [negb];
      [| right; simpl; eauto].
    fold (credentials_request (strip (text role_response)) (granted_token imds)).
    destruct (imds (credentials_request (strip (text role_response))
                      (granted_token imds))) as [message | creds_response] eqn:E2;
      [right; simpl; eauto |].
    destruct (status_code creds_response =? 200) eqn:E3; cbn [negb];
      [| right; simpl; eauto].
    destruct (json_result creds_response) as [message | value] eqn:E4;
      [right; simpl; eauto |].
    left. simpl. split; [reflexivity |]. split; [reflexivity |].
    exists role_response, creds_response.
    apply Z.eqb_eq in E1, E3. auto.
  - intros role_response creds_response value R1 S1 R2 S2 J.
    rewrite R1, S1. cbn [Z.eqb Pos.eqb negb].
    fold (credentials_request (strip (text role_response)) (granted_token imds)).
    rewrite R2, S2. cbn [Z.eqb Pos.eqb negb]. rewrite J. reflexivity.
Qed.

Lemma getenv_environ_set key value other p p' :
  environ_set key (JStr value) p = (Ok tt, p') ->
  getenv other (environ p') =
    if String.eqb other key then Some value else getenv other (environ p).
Proof.
  unfold environ_set. destruct (has_nul value); [discriminate |].
  intros [= <-]. simpl. rewrite (String.eqb_sym other key).
  destruct (String.eqb key other) eqn:E; [reflexivity |].
  induction (environ p) as [| [k v] rest IH]; [reflexivity |].
  simpl. destruct (String.eqb key k) eqn:Ek; simpl.
  - apply String.eqb_eq in Ek. subst k. rewrite String.eqb_sym, E. exact IH.
  - now rewrite IH.
Qed.

Lemma environ_set_others key value p p' :
  environ_set key value p = (Ok tt, p') ->
  requests p' = requests p /\ process_log p' = process_log p.
Proof.
  unfold environ_set. destruct value; try discriminate.
  destruct (has_nul s); [discriminate |]. intros [= <-]. auto.
Qed.

Lemma export_string key field fields value p :
  lookup field fields = Some (JStr value) ->
  has_nul value = false ->
  exists p',
    export key field (JObj fields) p = (Ok tt, p') /\
    environ_set key (JStr value) p = (Ok tt, p').
Proof.
  intros Hl Hn. unfold export. simpl. rewrite Hl.
  unfold environ_set. rewrite Hn. eauto.
Qed.

Lemma setup_credentials_present imds p :
  is_set (getenv "AWS_ACCESS_KEY_ID" (environ p)) = true ->
  is_set (getenv "AWS_SECRET_ACCESS_KEY" (environ p)) = true ->
  setup_credentials imds p =
    (Ok true, process_info "Using existing environment credentials" [] p).
Proof. intros H1 H2. unfold setup_credentials. now rewrite H1, H2. Qed.

Lemma is_set_some value : value <> "" -> is_set (Some value) = true.
Proof. intros H. simpl. apply String.eqb_neq in H. now rewrite H. Qed.

(** X15.  The credentials of the metadata service reach the environment, and a
    later call finds them there.  When long-lived credentials are not set
    and the metadata service gives a document with the strings
    [AccessKeyId], [SecretAccessKey] and [Token], [setup_credentials]
    returns [True] with the three variables set to these strings and every
    other variable as it was.  If the key and the secret are not empty, a
    further call, whatever the metadata service has become, returns [True]
    without a request and without touching the environment. *)
Theorem setup_credentials_exports imds p fields key_id secret token :
  is_set (getenv "AWS_ACCESS_KEY_ID" (environ p))
  && is_set (getenv "AWS_SECRET_ACCESS_KEY" (environ p)) = false ->
  fst (get_credentials_from_imds imds
         (process_info "Fetching credentials from IMDS..." [] p)) =
    mkImdsResult true (JObj fields) None ->
  lookup "AccessKeyId" fields = Some (JStr key_id) ->
  lookup "SecretAccessKey" fields = Some (JStr secret) ->
  lookup "Token" fields = Some (JStr token) ->
  has_nul key_id = false -> has_nul secret = false -> has_nul token = false ->
  exists p',
    setup_credentials imds p = (Ok true, p') /\
    getenv "AWS_ACCESS_KEY_ID" (environ p') = Some key_id /\
    getenv "AWS_SECRET_ACCESS_KEY" (environ p') = Some secret /\
    getenv "AWS_SESSION_TOKEN" (environ p') = Some token /\
    (forall key, credential_variable key = false ->
       getenv key (environ p') = getenv key (environ p)) /\
    (key_id <> "" -> secret <> "" ->
     forall imds',
       fst (setup_credentials imds' p') = Ok true /\
       requests (snd (setup_credentials imds' p')) = requests p' /\
       environ (snd (setup_credentials imds' p')) = environ p').
Proof.
  intros Hset Hres Hk Hs Ht Nk Ns Nt.
  unfold setup_credentials at 1. rewrite Hset.
  pose proof (get_credentials_from_imds_environ imds
                (process_info "Fetching credentials from IMDS..." [] p)) as Henv.
  destruct (get_credentials_from_imds imds
              (process_info "Fetching credentials from IMDS..." [] p))
    as [result p1]. simpl in Hres, Henv. subst result. cbn [success credentials].
  destruct (export_string "AWS_ACCESS_KEY_ID" _ _ _ p1 Hk Nk) as (p2 & E2 & S2).
  rewrite E2.
  destruct (export_string "AWS_SECRET_ACCESS_KEY" _ _ _ p2 Hs Ns) as (p3 & E3 & S3).
  rewrite E3.
  destruct (export_string "AWS_SESSION_TOKEN" _ _ _ p3 Ht Nt) as (p4 & E4 & S4).
  rewrite E4.
  eexists. split; [reflexivity |].
  assert (G : forall key,
            getenv key (environ p4) =
              if String.eqb key "AWS_SESSION_TOKEN" then Some token
              else if String.eqb key "AWS_SECRET_ACCESS_KEY" then Some secret
              else if String.eqb key "AWS_ACCESS_KEY_ID" then Some key_id
              else getenv key (environ p)).
  { intros key.
    rewrite (getenv_environ_set _ _ key _ _ S4), (getenv_environ_set _ _ key _ _ S3),
      (getenv_environ_set _ _ key _ _ S2), Henv. reflexivity. }
  cbn [environ process_info].
  split; [now rewrite G |]. split; [now rewrite G |]. split; [now rewrite G |].
  split.
  - intros key Hc. rewrite G. unfold credential_variable in Hc.
    apply orb_false_elim in Hc as (Hc & ->).
    apply orb_false_elim in Hc as (-> & ->). reflexivity.
  - intros Hk0 Hs0 imds'.
    rewrite setup_credentials_present.
    + repeat split.
    + cbn [environ]. rewrite G. now apply is_set_some.
    + cbn [environ]. rewrite G. now apply is_set_some.
Qed.

(** X16.  The export is not atomic.  When the document of the metadata service
    has the strings [AccessKeyId] and [SecretAccessKey] but no [Token],
    [setup_credentials] raises [KeyError], and [startup] with it, after it
    has already set [AWS_ACCESS_KEY_ID] and [AWS_SECRET_ACCESS_KEY]; the
    session token variable is left as it was. *)
Theorem setup_credentials_partial_export imds p fields key_id secret :
  is_set (getenv "AWS_ACCESS_KEY_ID" (environ p))
  && is_set (getenv "AWS_SECRET_ACCESS_KEY" (environ p)) = false ->
  fst (get_credentials_from_imds imds
         (process_info "Fetching credentials from IMDS..." [] p)) =
    mkImdsResult true (JObj fields) None ->
  lookup "AccessKeyId" fields = Some (JStr key_id) ->
  lookup "SecretAccessKey" fields = Some (JStr secret) ->
  lookup "Token" fields = None ->
  has_nul key_id = false -> has_nul secret = false ->
  exists p',
    setup_credentials imds p = (Raise KeyError, p') /\
    startup imds p = (Raise KeyError, p') /\
    getenv "AWS_ACCESS_KEY_ID" (environ p') = Some key_id /\
    getenv "AWS_SECRET_ACCESS_KEY" (environ p') = Some secret /\
    getenv "AWS_SESSION_TOKEN" (environ p') = getenv "AWS_SESSION_TOKEN" (environ p).
Proof.
  intros Hset Hres Hk Hs Ht Nk Ns.
  unfold startup, setup_credentials. rewrite Hset.
  pose proof (get_credentials_from_imds_environ imds
                (process_info "Fetching credentials from IMDS..." [] p)) as Henv.
  destruct (get_credentials_from_imds imds
              (process_info "Fetching credentials from IMDS..." [] p))
    as [result p1]. simpl in Hres, Henv. subst result. cbn [success credentials].
  destruct (export_string "AWS_ACCESS_KEY_ID" _ _ _ p1 Hk Nk) as (p2 & E2 & S2).
  rewrite E2.
  destruct (export_string "AWS_SECRET_ACCESS_KEY" _ _ _ p2 Hs Ns) as (p3 & E3 & S3).
  rewrite E3.
  unfold export at 1 2. simpl py_getitem. rewrite Ht.
  exists p3. split; [reflexivity |]. split; [reflexivity |].
  rewrite !(getenv_environ_set _ _ _ _ _ S3), !(getenv_environ_set _ _ _ _ _ S2), Henv.
  repeat split.
Qed.

(** X17.  An unreachable metadata service does not stop the process.  When
    long-lived credentials are not set and every request to the metadata
    service raises, [setup_credentials] returns [False] and [startup]
    returns: the token request and the role request (without a token) have
    been made, the environment is unchanged, and the failure is in the
    log. *)
Theorem setup_credentials_unreachable imds p message :
  is_set (getenv "AWS_ACCESS_KEY_ID" (environ p))
  && is_set (getenv "AWS_SECRET_ACCESS_KEY" (environ p)) = false ->
  (forall request, imds request = HttpRaise message) ->
  setup_credentials imds p =
    (Ok false,
     mkProcess (environ p)
       (requests p ++ [token_request; role_request []])
       (process_log p ++
        [mkLog INFO "Fetching credentials from IMDS..." [];
         mkLog ERROR "Failed to get credentials: {}"
           [ArgStr ("IMDS error: " ++ message)]])) /\
  fst (startup imds p) = Ok tt.
Proof.
  intros Hset Hdown.
  assert (E : setup_credentials imds p =
    (Ok false,
     mkProcess (environ p)
       (requests p ++ [token_request; role_request []])
       (process_log p ++
        [mkLog INFO "Fetching credentials from IMDS..." [];
         mkLog ERROR "Failed to get credentials: {}"
           [ArgStr ("IMDS error: " ++ message)]]))).
  { unfold setup_credentials. rewrite Hset.
    unfold get_credentials_from_imds, get_imdsv2_token, http. rewrite !Hdown.
    cbn. unfold process_error, token_request, role_request. cbn.
    rewrite <- !app_assoc. reflexivity. }
  split; [exact E |]. unfold startup. now rewrite E.
Qed.

(** ** The webhook *)

Lemma split_cons sep s : exists piece pieces, Api.split sep s = piece :: pieces.
Proof.
  induction s as [| c rest (piece & pieces & IH)]; simpl; [eauto |].
  destruct (Ascii.eqb c sep); [eauto |]. rewrite IH. eauto.
Qed.

(** Splitting goes through a prefix that does not hold the separator. *)
Lemma split_app sep a b piece pieces :
  forallb (fun c => negb (Ascii.eqb c sep)) (list_ascii_of_string a) = true ->
  Api.split sep b = piece :: pieces ->
  Api.split sep (a ++ b) = (a ++ piece) :: pieces.
Proof.
  intros Ha Hb. induction a as [| c a IH]; simpl in *; [exact Hb |].
  apply andb_prop in Ha as (Hc & Ha). apply negb_true_iff in Hc.
  rewrite Hc, (IH Ha). reflexivity.
Qed.

Lemma append_empty s : s ++ "" = s.
Proof. induction s as [| c s IH]; simpl; [reflexivity | now rewrite IH]. Qed.

Lemma split_sep sep a b :
  forallb (fun c => negb (Ascii.eqb c sep)) (list_ascii_of_string a) = true ->
  Api.split sep (a ++ String sep b) = a :: Api.split sep b.
Proof.
  intros Ha.
  rewrite (split_app sep a (String sep b) "" (Api.split sep b) Ha).
  - now rewrite append_empty.
  - simpl. now rewrite Ascii.eqb_refl.
Qed.

Lemma segment_no_space s :
  segment s = true ->
  forallb (fun c => negb (Ascii.eqb c " ")) (list_ascii_of_string s) = true.
Proof.
  unfold segment. induction (list_ascii_of_string s) as [| c l IH]; simpl; [auto |].
  intros H. apply andb_prop in H as (H & Hl). apply andb_prop in H as (H1 & _).
  now rewrite H1, IH.
Qed.

Lemma segment_no_dot s :
  segment s = true ->
  forallb (fun c => negb (Ascii.eqb c ".")) (list_ascii_of_string s) = true.
Proof.
  unfold segment. induction (list_ascii_of_string s) as [| c l IH]; simpl; [auto |].
  intros H. apply andb_prop in H as (H & Hl). apply andb_prop in H as (_ & H2).
  now rewrite H2, IH.
Qed.

Lemma forallb_string_app (P : ascii -> bool) a b :
  forallb P (list_ascii_of_string (a ++ b)) =
    forallb P (list_ascii_of_string a) && forallb P (list_ascii_of_string b).
Proof. induction a as [| c a IH]; simpl; [reflexivity |]. now rewrite IH, andb_assoc. Qed.

(** The payload of a bearer token is its second segment, whatever the
    first segment and the signature are. *)
Lemma bearer_payload header payload signature :
  segment header = true ->
  segment payload = true ->
  exists token,
    Api.second (Api.split " " (bearer header payload signature)) = Api.Return token /\
    Api.second (Api.split "." token) = Api.Return payload.
Proof.
  intros Hh Hp.
  destruct (split_cons " " signature) as (s1 & rest & Es).
  destruct (split_cons "." s1) as (d1 & drest & Ed).
  exists (header ++ "." ++ payload ++ "." ++ s1). split.
  - unfold bearer.
    change ("Bearer " ++ header ++ "." ++ payload ++ "." ++ signature)
      with ("Bearer" ++ String " " (header ++ "." ++ payload ++ "." ++ signature)).
    rewrite split_sep by reflexivity.
    assert (E : Api.split " " (header ++ "." ++ payload ++ "." ++ signature) =
                (header ++ "." ++ payload ++ "." ++ s1) :: rest).
    { rewrite (split_app " " header _ ("." ++ payload ++ "." ++ s1) rest
                 (segment_no_space _ Hh)); [reflexivity |].
      change ("." ++ payload ++ "." ++ signature)
        with (String "." (payload ++ "." ++ signature)).
      change ("." ++ payload ++ "." ++ s1) with (String "." (payload ++ "." ++ s1)).
      simpl Api.split at 1.
      rewrite (split_app " " payload _ ("." ++ s1) rest (segment_no_space _ Hp));
        [reflexivity |].
      change ("." ++ signature) with (String "." signature).
      simpl. now rewrite Es. }
    rewrite E. reflexivity.
  - change (header ++ "." ++ payload ++ "." ++ s1)
      with (header ++ String "." (payload ++ String "." s1)).
    rewrite (split_sep "." header _ (segment_no_dot _ Hh)).
    rewrite (split_sep "." payload _ (segment_no_dot _ Hp)).
    reflexivity.
Qed.

Lemma py_get_fields fields key default :
  py_get (JObj fields) key default = Ok (field_or key default fields).
Proof. reflexivity. Qed.

(** X18.  The signature of a token is never looked at.  With an application
    configured, the verdict on a request whose authorization header is a
    bearer token of three segments depends on the payload segment alone:
    the request passes exactly when the payload, padded and decoded, is a
    JSON object whose [application_id] is the configured one.  The first
    segment and the signature can be anything. *)
Theorem verify_vonage_request_ignores_signature
    application_id json_loads event header payload signature lam :
  application_id <> "" ->
  authorization event = Ok (JStr (bearer header payload signature)) ->
  segment header = true ->
  segment payload = true ->
  fst (Api.verify_vonage_request (Some application_id) json_loads event lam) =
    Api.Return (payload_accepted application_id json_loads payload).
Proof.
  intros Hid Hauth Hh Hp.
  unfold Api.verify_vonage_request. apply String.eqb_neq in Hid. rewrite Hid.
  unfold Api.check_claims. unfold authorization in Hauth.
  destruct (py_get event "headers" (JObj [])) as [event_headers | e]; [| discriminate].
  rewrite Hauth.
  assert (Hb : String.prefix "Bearer " (bearer header payload signature) = true).
  { unfold bearer. simpl.
    match goal with |- String.prefix "" ?x = true => now destruct x end. }
  rewrite Hb. cbn [negb].
  destruct (bearer_payload header payload signature Hh Hp) as (token & E1 & E2).
  unfold Api.read_claims. rewrite E1, E2. unfold payload_accepted.
  destruct (Api.urlsafe_b64decode _) as [decoded | e]; [| reflexivity].
  destruct (json_loads decoded) as [claims | e]; [| reflexivity].
  simpl Api.of_outcome. cbv iota.
  destruct claims; try reflexivity.
  rewrite py_get_fields.
  destruct (is_str application_id (field_or "application_id" JNull fields)); reflexivity.
Qed.

Lemma split_whole sep s :
  forallb (fun c => negb (Ascii.eqb c sep)) (list_ascii_of_string s) = true ->
  Api.split sep s = [s].
Proof.
  intros H. pose proof (split_app sep s "" "" [] H eq_refl) as E.
  now rewrite append_empty in E.
Qed.

(** X22.  A malformed token is refused, never an error.  With an application
    configured, the verdict on a request whose authorization header is a
    string is always a verdict: no exception of the decoding, of
    [json.loads] or of the claims comes out.  The request is refused when
    the header does not begin with [Bearer ] (also when there is no
    header), and when the token after it has no dot. *)
Theorem verify_vonage_request_rejects_malformed
    application_id json_loads event auth lam :
  application_id <> "" ->
  authorization event = Ok (JStr auth) ->
  (exists verdict,
     fst (Api.verify_vonage_request (Some application_id) json_loads event lam) =
       Api.Return verdict) /\
  (String.prefix "Bearer " auth = false ->
   fst (Api.verify_vonage_request (Some application_id) json_loads event lam) =
     Api.Return false) /\
  (forall token,
     auth = "Bearer " ++ token ->
     segment token = true ->
     fst (Api.verify_vonage_request (Some application_id) json_loads event lam) =
       Api.Return false).
Proof.
  intros Hid Hauth.
  unfold Api.verify_vonage_request. apply String.eqb_neq in Hid. rewrite Hid.
  unfold Api.check_claims. unfold authorization in Hauth.
  destruct (py_get event "headers" (JObj [])) as [event_headers | e]; [| discriminate].
  rewrite Hauth. split; [| split].
  - destruct (negb (String.prefix "Bearer " auth)); [simpl; eauto |].
    destruct (Api.read_claims json_loads auth) as [claims | e]; [| simpl; eauto].
    destruct (py_get claims "application_id" JNull) as [claimed | e]; [| simpl; eauto].
    destruct (negb (is_str application_id claimed)); simpl; eauto.
  - intros Hp. now rewrite Hp.
  - intros token -> Ht.
    assert (Hb : String.prefix "Bearer " ("Bearer " ++ token) = true).
    { simpl. match goal with |- String.prefix "" ?x = true => now destruct x end. }
    rewrite Hb. cbn [negb]. unfold Api.read_claims.
    change ("Bearer " ++ token) with ("Bearer" ++ String " " token).
    rewrite split_sep by reflexivity.
    rewrite (split_whole " " token (segment_no_space _ Ht)).
    cbn [Api.second nth_error].
    rewrite (split_whole "." token (segment_no_dot _ Ht)).
    reflexivity.
Qed.

Lemma verify_verdict config json_loads event lam lam0 :
  fst (Api.verify_vonage_request config json_loads event lam) =
  fst (Api.verify_vonage_request config json_loads event lam0).
Proof.
  unfold Api.verify_vonage_request, Api.check_claims.
  destruct config as [application_id |]; [| reflexivity].
  destruct (String.eqb application_id ""); [reflexivity |].
  destruct (py_get event "headers" (JObj [])) as [event_headers | e]; [| reflexivity].
  destruct (py_get event_headers "authorization" (JStr "")) as [auth_header | e];
    [| reflexivity].
  destruct auth_header; try reflexivity.
  destruct (negb (String.prefix "Bearer " s)); [reflexivity |].
  destruct (Api.read_claims json_loads s) as [claims | e]; [| reflexivity].
  destruct (py_get claims "application_id" JNull) as [claimed | e]; [| reflexivity].
  destruct (negb (is_str application_id claimed)); reflexivity.
Qed.

Lemma verify_presigned config json_loads event lam :
  Api.presigned (snd (Api.verify_vonage_request config json_loads event lam)) =
    Api.presigned lam.
Proof.
  unfold Api.verify_vonage_request, Api.check_claims.
  destruct config as [application_id |]; [| reflexivity].
  destruct (String.eqb application_id ""); [reflexivity |].
  destruct (py_get event "headers" (JObj [])) as [event_headers | e]; [| reflexivity].
  destruct (py_get event_headers "authorization" (JStr "")) as [auth_header | e];
    [| reflexivity].
  destruct auth_header; try reflexivity.
  destruct (negb (String.prefix "Bearer " s)); [reflexivity |].
  destruct (Api.read_claims json_loads s) as [claims | e]; [| reflexivity].
  destruct (py_get claims "application_id" JNull) as [claimed | e]; [| reflexivity].
  destruct (negb (is_str application_id claimed)); reflexivity.
Qed.

Lemma is_str_eq key v : is_str key v = true -> v = JStr key.
Proof.
  destruct v; try discriminate. simpl. intros H.
  apply String.eqb_eq in H. now subst.
Qed.

(** What [route] does outside the three routes, and what it can do to
    the count of URLs. *)
Lemma route_outcome client_url path method event lam :
  let result := Api.route client_url path method event lam in
  (path = JStr "/vonage/answer" /\ method = JStr "GET" /\
   (Api.presigned (snd result) = Api.presigned lam \/
    Api.presigned (snd result) = S (Api.presigned lam))) \/
  (path = JStr "/vonage/event" /\ Api.presigned (snd result) = Api.presigned lam) \/
  (path = JStr "/vonage/fallback" /\ Api.presigned (snd result) = Api.presigned lam) \/
  (result = (Api.Return (Api.mkResponse 404 None (Api.Text "Not found")), lam)).
Proof.
  unfold Api.route.
  destruct (is_str "/vonage/answer" path && is_str "GET" method) eqn:E1.
  - apply andb_prop in E1 as (P & Q). apply is_str_eq in P, Q. left.
    split; [exact P |]. split; [exact Q |].
    unfold Api.answer.
    destruct (py_get event "queryStringParameters" JNull) as [given | e];
      [| simpl; auto].
    destruct (py_get (if truthy given then given else JObj []) "uuid" (JStr "unknown"));
      [| simpl; auto].
    destruct (py_get (if truthy given then given else JObj []) "from" (JStr "unknown"));
      [| simpl; auto].
    unfold Api.generate_presigned_url. destruct client_url; simpl; auto.
  - destruct (is_str "/vonage/event" path && is_str "POST" method) eqn:E2.
    + apply andb_prop in E2 as (P & _). apply is_str_eq in P. right. left.
      split; [exact P |].
      destruct (py_get event "body" (JStr "{}")); reflexivity.
    + destruct (is_str "/vonage/fallback" path && is_str "POST" method) eqn:E3.
      * apply andb_prop in E3 as (P & _). apply is_str_eq in P. right. right. left.
        split; [exact P | reflexivity].
      * right. right. right. reflexivity.
Qed.

(** X19.  No route is served without the verification.  Whenever [handler]
    answers with status 200, and whenever it has asked the client for a
    URL, [verify_vonage_request] has returned [True] for the event; a URL
    is asked for at most once, and only for [GET /vonage/answer].  A path
    that does not begin with [/vonage/] is answered with status 404,
    unverified. *)
Theorem handler_serves_only_verified_requests config json_loads client_url event lam :
  let result := Api.handler config json_loads client_url event lam in
  (forall response,
     fst result = Api.Return response ->
     Api.statusCode response = 200 ->
     fst (Api.verify_vonage_request config json_loads event lam) = Api.Return true) /\
  (Api.presigned (snd result) <> Api.presigned lam ->
   fst (Api.verify_vonage_request config json_loads event lam) = Api.Return true /\
   Api.request_line event = Ok (JStr "/vonage/answer", JStr "GET") /\
   Api.presigned (snd result) = S (Api.presigned lam)) /\
  (forall path method,
     Api.request_line event = Ok (JStr path, method) ->
     String.prefix "/vonage/" path = false ->
     result =
       (Api.Return (Api.mkResponse 404 None (Api.Text "Not found")),
        Api.write Api.INFO "Request: {} {}" [Api.ArgVal method; Api.ArgVal (JStr path)]
          lam)).
Proof.
  intros result. subst result. unfold Api.handler.
  destruct (Api.request_line event) as [[path method] | e] eqn:Hrl;
    [| split; [discriminate | split; [intros H; now contradiction H | discriminate]]].
  set (lam1 := Api.write Api.INFO "Request: {} {}" [Api.ArgVal method; Api.ArgVal path] lam).
  assert (Hp1 : Api.presigned lam1 = Api.presigned lam) by reflexivity.
  destruct path as [| | | | p | |];
    try (split; [discriminate | split; [intros H; now contradiction H | discriminate]]).
  cbn [Api.startswith].
  destruct (String.prefix "/vonage/" p) eqn:Hpre.
  - rewrite (verify_verdict config json_loads event lam lam1).
    pose proof (verify_presigned config json_loads event lam1) as Hv.
    assert (Hlast : forall r (path0 method0 : json) (x : Api.Result Api.Response * Api.Lambda),
              forall path1 method1,
                Ok (JStr p, method) = Ok (JStr path1, method1) ->
                String.prefix "/vonage/" path1 = false -> r = x).
    { intros r _ _ x path1 method1 [= <- <-] H. congruence. }
    destruct (Api.verify_vonage_request config json_loads event lam1)
      as [[[|] | e] lam2]; cbn [fst snd] in *.
    + split; [reflexivity |]. split.
      * intros Hn. split; [reflexivity |].
        pose proof (route_outcome client_url (JStr p) method event lam2) as R.
        cbv zeta in R.
        destruct R as [(P & Q & [L | L]) | [(_ & E) | [(_ & E) | E]]].
        -- contradiction Hn. congruence.
        -- rewrite P, Q. split; [reflexivity |]. congruence.
        -- contradiction Hn. congruence.
        -- contradiction Hn. congruence.
        -- rewrite E in Hn. simpl in Hn. congruence.
      * intros path1 method1. apply (Hlast _ (JStr p) method).
    + split; [intros response [= <-]; discriminate |]. split.
      * intros Hn. simpl in Hn. congruence.
      * intros path1 method1. apply (Hlast _ (JStr p) method).
    + split; [discriminate |]. split.
      * intros Hn. simpl in Hn. congruence.
      * intros path1 method1. apply (Hlast _ (JStr p) method).
  - pose proof (route_outcome client_url (JStr p) method event lam1) as R.
    cbv zeta in R.
    destruct R as [(P & _) | [(P & _) | [(P & _) | E]]];
      try (injection P as ->; discriminate).
    rewrite E. split; [intros response [= <-]; discriminate |]. split.
    + intros Hn. now contradiction Hn.
    + intros path1 method1 [= <- <-] _. reflexivity.
Qed.

(** *** The padding rule of [read_claims] *)

Lemma token_segment_encoding data :
  token_segment data = urlsafe (unpadded (Base64.b64encode data)).
Proof. reflexivity. Qed.

Section Padding.

Import Base64.
Local Open Scope N_scope.

Lemma url_sextets_ok : forallb url_sextet_ok (map N.of_nat (seq 0 64)) = true.
Proof. vm_compute. reflexivity. Qed.

Lemma url_sextet n :
  n < 64 ->
  Api.urlsafe_decode_translation (urlsafe_char (enc_char n)) = enc_char n /\
  Ascii.eqb (urlsafe_char (enc_char n)) " " = false /\
  Ascii.eqb (urlsafe_char (enc_char n)) "." = false /\
  N.ltb (N_of_ascii (urlsafe_char (enc_char n))) 128 = true /\
  Ascii.eqb (enc_char n) "=" = false.
Proof.
  intros Hn.
  pose proof (forall_below url_sextet_ok 64 url_sextets_ok n Hn) as H.
  unfold url_sextet_ok in H. cbv zeta in H.
  apply andb_prop in H as (H & H4). apply andb_prop in H as (H & H3).
  apply andb_prop in H as (H1 & H2).
  apply Ascii.eqb_eq in H1. apply negb_true_iff in H2, H3.
  destruct (sextet n Hn) as (E & _). auto.
Qed.

Lemma repadded_quad c1 c2 c3 c4 s :
  repadded (String c1 (String c2 (String c3 (String c4 s)))) =
    String c1 (String c2 (String c3 (String c4 (repadded s)))).
Proof.
  unfold repadded. cbn [String.length append].
  replace (Nat.modulo (S (S (S (S (String.length s))))) 4)
    with (Nat.modulo (String.length s) 4); [reflexivity |].
  change (S (S (S (S (String.length s))))) with (4 + String.length s)%nat.
  rewrite <- (Nat.Div0.mod_add (String.length s) 1 4).
  f_equal. lia.
Qed.

Ltac byte_facts a b :=
  let H := fresh "H" in
  pose proof (pair (Byte.to_N a) (Byte.to_N b) (to_N_lt a) (to_N_lt b)) as H;
  unfold pair_ok in H;
  repeat (apply andb_prop in H; destruct H as [H ?]);
  repeat match goal with
         | K : N.ltb _ _ = true |- _ => apply N.ltb_lt in K
         | K : N.eqb _ _ = true |- _ => apply N.eqb_eq in K
         end.

Ltac url_facts :=
  repeat match goal with
         | K : ?n < 64 |- _ =>
             let F := fresh "F" in
             pose proof (url_sextet n K) as F;
             destruct F as (? & ? & ? & ? & ?);
             revert K
         end;
  intros.

(** What the padding rule makes of the segment of [data]: text that is
    ASCII and that, read with the standard alphabet, is the base64 text of
    [data] up to padding the decoder skips. *)
Lemma token_segment_repadded n :
  forall data, (List.length data <= n)%nat ->
    segment (token_segment data) = true /\
    is_ascii (repadded (token_segment data)) = true /\
    a2b_base64 (Api.translate (repadded (token_segment data))) 0 0 0 = Some data.
Proof.
  intros data. rewrite token_segment_encoding. revert data.
  unfold segment, is_ascii.
  induction n as [| n IH]; intros data Hl.
  - destruct data; [repeat split | simpl in Hl; lia].
  - destruct data as [| a [| b [| c rest]]].
    + repeat split.
    + clear IH Hl. byte_facts a a. url_facts.
      cbn [b64encode unpadded].
      repeat match goal with K : Ascii.eqb _ "=" = false |- _ => rewrite K; clear K end.
      cbn [unpadded Ascii.eqb Bool.eqb urlsafe list_ascii_of_string forallb].
      unfold repadded.
      cbn [String.length Nat.modulo Nat.divmod fst snd Nat.sub append Api.equals
             Api.translate list_ascii_of_string forallb].
      repeat match goal with K : _ = _ |- _ => rewrite K end.
      change (Api.urlsafe_decode_translation "=") with pad.
      split; [reflexivity |]. split; [reflexivity |].
      pose proof (a2b_b64encode 1 [a] (le_n _)) as D. cbn [b64encode] in D.
      exact D.
    + clear IH Hl. byte_facts a b. byte_facts b b. url_facts.
      cbn [b64encode unpadded].
      repeat match goal with K : Ascii.eqb _ "=" = false |- _ => rewrite K; clear K end.
      cbn [unpadded Ascii.eqb Bool.eqb urlsafe list_ascii_of_string forallb].
      unfold repadded.
      cbn [String.length Nat.modulo Nat.divmod fst snd Nat.sub append Api.equals
             Api.translate list_ascii_of_string forallb].
      repeat match goal with K : _ = _ |- _ => rewrite K end.
      change (Api.urlsafe_decode_translation "=") with pad.
      split; [reflexivity |]. split; [reflexivity |].
      pose proof (a2b_b64encode 2 [a; b] (le_n _)) as D. cbn [b64encode] in D.
      exact D.
    + assert (Hr : (List.length rest <= n)%nat) by (simpl in Hl; lia).
      destruct (IH rest Hr) as (I1 & I2 & I3). clear Hl Hr IH.
      byte_facts a b. byte_facts b c. byte_facts c c. url_facts.
      cbn [b64encode unpadded].
      repeat match goal with K : Ascii.eqb _ "=" = false |- _ => rewrite K; clear K end.
      cbn [urlsafe]. rewrite repadded_quad.
      cbn [list_ascii_of_string forallb Api.translate].
      repeat match goal with
             | K : Ascii.eqb _ _ = false |- _ => rewrite K; clear K
             | K : N.ltb (N_of_ascii _) 128 = true |- _ => rewrite K; clear K
             | K : Api.urlsafe_decode_translation _ = _ |- _ => rewrite K; clear K
             end.
      cbn [negb andb].
      split; [exact I1 |]. split; [exact I2 |].
      rewrite !a2b_sextet by assumption. rewrite I3.
      unfold byte_of_N.
      repeat match goal with K : _ = _ |- _ => rewrite K end.
      rewrite ?Byte.of_to_N. reflexivity.
Qed.

End Padding.

Lemma is_ascii_translate s :
  Base64.is_ascii s = true -> Base64.is_ascii (Api.translate s) = true.
Proof.
  unfold Base64.is_ascii. induction s as [| c s IH]; [reflexivity |].
  cbn [list_ascii_of_string forallb Api.translate]. intros H.
  apply andb_prop in H as (Hc & Hs). rewrite (IH Hs), andb_true_r.
  unfold Api.urlsafe_decode_translation.
  destruct (Ascii.eqb c "-"); [reflexivity |].
  destruct (Ascii.eqb c "_"); [reflexivity | exact Hc].
Qed.

(** X20.  The padding rule restores every segment.  Whatever bytes the payload
    segment of a token encodes, in base64 with the URL-safe alphabet and
    without padding, as JSON Web Tokens are written, [read_claims] hands
    these very bytes to [json.loads]: the one to four [=] it appends make
    the segment decodable for every length, also when it needs none.  So a
    token whose payload is the JSON text of an object with the configured
    [application_id] passes. *)
Theorem read_claims_restores_padding json_loads header data signature :
  segment header = true ->
  Api.read_claims json_loads (bearer header (token_segment data) signature) =
    Api.of_outcome (json_loads data) /\
  forall application_id,
    payload_accepted application_id json_loads (token_segment data) =
      match json_loads data with
      | Ok (JObj claims) => is_str application_id (field_or "application_id" JNull claims)
      | _ => false
      end.
Proof.
  intros Hh.
  destruct (token_segment_repadded (List.length data) data (le_n _)) as (G1 & G2 & G3).
  assert (D : Api.urlsafe_b64decode (repadded (token_segment data)) = Ok data).
  { unfold Api.urlsafe_b64decode, b64decode. rewrite G2.
    now rewrite (is_ascii_translate _ G2), G3. }
  split.
  - destruct (bearer_payload header (token_segment data) signature Hh G1)
      as (token & E1 & E2).
    unfold Api.read_claims. rewrite E1, E2.
    fold (repadded (token_segment data)). now rewrite D.
  - intros application_id. unfold payload_accepted.
    fold (repadded (token_segment data)). now rewrite D.
Qed.

Lemma verify_returns_true config json_loads event lam lam1 :
  fst (Api.verify_vonage_request config json_loads event lam) = Api.Return true ->
  exists lam2,
    Api.verify_vonage_request config json_loads event lam1 = (Api.Return true, lam2) /\
    Api.presigned lam2 = Api.presigned lam1.
Proof.
  intros H. rewrite (verify_verdict _ _ _ lam lam1) in H.
  pose proof (verify_presigned config json_loads event lam1) as P.
  destruct (Api.verify_vonage_request config json_loads event lam1) as [r lam2].
  simpl in H, P. subst r. eauto.
Qed.

(** X21.  A verified call is always answered.  For a [GET /vonage/answer]
    that passes the verification and whose query parameters are an object
    or null, [handler] returns status 200 with a JSON body whatever the
    client of the agent runtime does.  When the client gives a URL, the
    body connects the call to it as a websocket of 16 kHz linear PCM and
    passes on the [uuid] and [from] parameters, each [unknown] when the
    request has none; when the client raises, the body only speaks an
    apology.  The client has been asked once. *)
Theorem handler_answers_verified_call
    config json_loads client_url event lam parameters :
  Api.request_line event = Ok (JStr "/vonage/answer", JStr "GET") ->
  fst (Api.verify_vonage_request config json_loads event lam) = Api.Return true ->
  query_parameters event = Some parameters ->
  fst (Api.handler config json_loads client_url event lam) =
    Api.Return
      (Api.mkResponse 200 (Some [("Content-Type", JStr "application/json")])
         (Api.Dumps
            match client_url with
            | Api.Return ws_url =>
                connect_ncco ws_url
                  (field_or "uuid" (JStr "unknown") parameters)
                  (field_or "from" (JStr "unknown") parameters)
            | Api.Throw _ => talk_ncco "Sorry, technical difficulties."
            end)) /\
  Api.presigned (snd (Api.handler config json_loads client_url event lam)) =
    S (Api.presigned lam).
Proof.
  intros Hrl Hv Hq. unfold Api.handler. rewrite Hrl.
  cbn [Api.startswith]. change (String.prefix "/vonage/" "/vonage/answer") with true.
  cbv iota.
  destruct (verify_returns_true config json_loads event lam
              (Api.write Api.INFO "Request: {} {}"
                 [Api.ArgVal (JStr "GET"); Api.ArgVal (JStr "/vonage/answer")] lam) Hv)
    as (lam2 & E & P).
  rewrite E. cbv iota. unfold Api.route.
  change (is_str "/vonage/answer" (JStr "/vonage/answer") && is_str "GET" (JStr "GET"))
    with true. cbv iota.
  unfold Api.answer, query_parameters in *.
  destruct (py_get event "queryStringParameters" JNull) as [given | e];
    [| discriminate].
  assert (G : py_get (if truthy given then given else JObj []) "uuid" (JStr "unknown") =
              Ok (field_or "uuid" (JStr "unknown") parameters) /\
              py_get (if truthy given then given else JObj []) "from" (JStr "unknown") =
              Ok (field_or "from" (JStr "unknown") parameters)).
  { destruct given; try discriminate.
    - injection Hq as <-. split; reflexivity.
    - injection Hq as <-. destruct fields; split; reflexivity. }
  destruct G as (G1 & G2). rewrite G1, G2.
  unfold Api.generate_presigned_url.
  destruct client_url as [ws_url | e]; simpl; rewrite P; split; reflexivity.
Qed.

(** * The properties on the sample sessions *)

Example b64encode_foobar : b64encode [x66; x6f; x6f; x62; x61] = "Zm9vYmE=".
Proof. reflexivity. Qed.

Example b64decode_foobar :
  b64decode (JStr "Zm9vYmE=") = Ok [x66; x6f; x6f; x62; x61].
Proof. reflexivity. Qed.

Example b64decode_incomplete : b64decode (JStr "Zm9vYmE") = Raise BinasciiError.
Proof. reflexivity. Qed.

Example in_call_started :
  start default_voice default_prompt sink new_call = (Ok tt, in_call).
Proof. vm_compute. reflexivity. Qed.

(** After [start] and [stop] on a new call the stream holds the six
    handshake events and nothing else, and its input half is closed. *)
Example stop_in_call :
  option_map (fun s => (map event_tag (sent s), input_closed s))
    (stream (self (snd (stop in_call)))) =
  Some ([Some "sessionStart"; Some "promptStart"; Some "contentStart";
         Some "textInput"; Some "contentEnd"; Some "contentStart"], true).
Proof. reflexivity. Qed.

Lemma stop_emits_no_shutdown_event_witness :
  is_active (self in_call) = true /\
  exists st',
    stop in_call = (Ok tt, st') /\
    is_active (self st') = false /\
    emitted (self st') = emitted (self in_call) /\
    (forall strm,
       stream (self in_call) = Some strm ->
       close_result (env in_call) = None ->
       stream (self st') = Some (mkStream (sent strm) true)).
Proof.
  split; [reflexivity |].
  exact (stop_emits_no_shutdown_event in_call eq_refl).
Defined.

Lemma send_audio_dormant_noop_witness :
  dormant (snd (stop in_call)) /\
  send_audio [x00; x01] (snd (stop in_call)) = (Ok tt, snd (stop in_call)).
Proof.
  split; [apply dormant_stopped |].
  exact (send_audio_dormant_noop [x00; x01] _ (dormant_stopped in_call)).
Defined.



Lemma in_call_reachable : reachable in_call.
Proof.
  pose proof (reach_start default_voice default_prompt sink new_call
                (reach_new _ _ _ _)) as H.
  rewrite in_call_started in H. exact H.
Qed.

Lemma broken_call_reachable : reachable broken_call.
Proof. exact (reach_env in_call _ in_call_reachable). Qed.

Lemma send_audio_emits_one_audio_input_witness :
  reachable in_call /\
  is_active (self in_call) = true /\
  sends_ok 1 (send_results (env in_call)) = true /\
  exists st',
    send_audio (List.concat (repeat [x00; x01] 8)) in_call = (Ok tt, st') /\
    emitted (self st') =
      (emitted (self in_call) ++
         [JObj [("event", JObj [("audioInput", JObj
            [("promptName", JStr "prompt-1");
             ("contentName", JStr "audio-1");
             ("content", JStr "AAEAAQABAAEAAQABAAEAAQ==")])])]])%list.
Proof.
  split; [exact in_call_reachable |].
  repeat (split; [vm_compute; reflexivity |]).
  exact (proj1 (send_audio_emits_one_audio_input
                  (List.concat (repeat [x00; x01] 8)) in_call
                  in_call_reachable eq_refl eq_refl)).
Defined.

Lemma audio_output_reaches_sink_witness :
  response_task (self in_call) = Some (mkTask sink (TaskWaiting JNull) 0) /\
  is_active (self in_call) = true /\
  deliver (map audio_output ["AAE="; "AgM="]) in_call =
    on_env (fun e => set_sink_log (sink_log e ++ [[x00; x01]; [x02; x03]]) e) in_call.
Proof.
  repeat (split; [vm_compute; reflexivity |]).
  apply (proj1 (proj2 (audio_output_reaches_sink in_call
                         (mkTask sink (TaskWaiting JNull) 0) JNull eq_refl eq_refl)));
    [reflexivity |].
  repeat constructor; discriminate.
Defined.

(** C5 as stated fails on an event whose content is the empty string, the
    base64 text of no bytes: the waiting task of an active session does not
    call the sink at all. *)
Lemma empty_audio_output_skips_sink :
  b64decode (JStr "") = Ok [] /\
  is_active (self in_call) = true /\
  waiting (self in_call) = true /\
  sink_log (env (_process_responses_resume (audio_output "") in_call)) = [] /\
  sink_log (env (_process_responses_resume (audio_output "") in_call)) <>
    (sink_log (env in_call) ++ [[]])%list.
Proof. repeat split. discriminate. Qed.

Lemma send_audio_failure_is_fatal_witness :
  reachable broken_call /\
  is_active (self broken_call) = true /\
  send_results (env broken_call) = [Some (StreamError "connection reset")] /\
  exists st',
    send_audio [x00; x01] broken_call = (Raise (StreamError "connection reset"), st') /\
    is_active (self st') = false /\
    emitted (self st') = emitted (self broken_call) /\
    send_results (env st') = [].
Proof.
  split; [exact broken_call_reachable |].
  repeat (split; [vm_compute; reflexivity |]).
  exact (send_audio_failure_is_fatal [x00; x01] broken_call _ []
           broken_call_reachable eq_refl eq_refl).
Defined.

Lemma start_failure_leaves_inactive_witness :
  (open_result (env refused_call) = Some (StreamError "access denied") /\
   exists st',
     start default_voice default_prompt sink refused_call =
       (Raise (StreamError "access denied"), st') /\
     is_active (self st') = false /\
     stream (self st') = stream (self refused_call)) /\
  (send_results (env cut_call) =
     (repeat None 2 ++ [Some (StreamError "connection reset")])%list /\
   exists st',
     start default_voice default_prompt sink cut_call =
       (Raise (StreamError "connection reset"), st') /\
     is_active (self st') = false /\
     emitted (self st') =
       firstn 2 (handshake default_voice default_prompt (self cut_call))).
Proof.
  split; (split; [reflexivity |]).
  - exact (proj1 (start_failure_leaves_inactive default_voice default_prompt sink
                    refused_call) _ eq_refl).
  - apply (proj1 (proj2 (start_failure_leaves_inactive default_voice default_prompt
                           sink cut_call)) 2%nat _ []);
      [reflexivity | reflexivity | lia | reflexivity].
Defined.



Lemma unrecognised_event_ignored_witness :
  recognised "usageEvent" = false /\
  is_active (self (_process_responses_resume (inbound "usageEvent" (JObj [])) in_call)) =
    is_active (self in_call) /\
  sink_log (env (_process_responses_resume (inbound "usageEvent" (JObj [])) in_call)) =
    sink_log (env in_call).
Proof.
  split; [reflexivity |].
  pose proof (unrecognised_event_ignored sink JNull "usageEvent" (JObj []) in_call
                eq_refl) as H.
  destruct H as ((_ & Ha & Hs & _) & _). split; assumption.
Defined.

Lemma start_returns_after_receive_failure_witness :
  open_result (env deaf_call) = None /\
  arrivals (env deaf_call) = [[]; [RecvRaise (StreamError "validation failed")]] /\
  exists st',
    start default_voice default_prompt sink deaf_call = (Ok tt, st') /\
    is_active (self st') = false /\
    emitted (self st') = [].
Proof.
  repeat (split; [vm_compute; reflexivity |]).
  exact (start_returns_after_receive_failure default_voice default_prompt sink
           deaf_call _ [] [] [] eq_refl eq_refl).
Defined.

Lemma reachable_active_stream_witness :
  reachable in_call /\
  is_active (self in_call) = true /\
  exists strm, stream (self in_call) = Some strm.
Proof.
  split; [exact in_call_reachable |]. split; [reflexivity |].
  exact (reachable_active_stream in_call in_call_reachable eq_refl).
Defined.

Example phone_call :
  option_map
    (fun s => (map event_tag (sent s), input_closed s))
    match websocket_endpoint default_voice default_prompt phone
            "prompt-1" "content-1" "audio-1" quiet with
    | Returned st => stream (self st)
    | _ => None
    end =
  Some ([Some "sessionStart"; Some "promptStart"; Some "contentStart";
         Some "textInput"; Some "contentEnd"; Some "contentStart";
         Some "audioInput"; Some "audioInput"], true).
Proof. vm_compute. reflexivity. Qed.

Example metadata_credentials :
  fst (get_credentials_from_imds metadata_service bare_process) =
    mkImdsResult true
      (JObj [("Code", JStr "Success");
             ("AccessKeyId", JStr "ASIAEXAMPLE");
             ("SecretAccessKey", JStr "secret-1");
             ("Token", JStr "session-1")])
      None.
Proof. reflexivity. Qed.

Lemma draining_task_ends_with_session_witness :
  response_task (self in_call) = Some (mkTask sink (TaskWaiting JNull) 0) /\
  waiting (self in_call) = true /\
  is_active (self in_call) = true /\
  (finished (self (_process_responses_resume RecvGarbage in_call)) = true /\
   is_active (self (_process_responses_resume RecvGarbage in_call)) = false) /\
  (waiting (self (_process_responses_resume (audio_output "AAE=") in_call)) = true /\
   is_active (self (_process_responses_resume (audio_output "AAE=") in_call)) = true).
Proof.
  repeat (split; [vm_compute; reflexivity |]).
  split.
  - exact (draining_task_ends_with_session RecvGarbage in_call
             (mkTask sink (TaskWaiting JNull) 0) eq_refl eq_refl eq_refl).
  - exact (draining_task_ends_with_session (audio_output "AAE=") in_call
             (mkTask sink (TaskWaiting JNull) 0) eq_refl eq_refl eq_refl).
Defined.

Lemma receive_failure_ends_session_witness :
  waiting (self in_call) = true /\
  finished (self (_process_responses_resume
                    (RecvRaise (StreamError "validation failed")) in_call)) = true /\
  is_active (self (_process_responses_resume
                     (RecvRaise (StreamError "validation failed")) in_call)) = false.
Proof.
  split; [vm_compute; reflexivity |].
  pose proof (receive_failure_ends_session (StreamError "validation failed") in_call
                eq_refl) as (H1 & H2 & _).
  split; assumption.
Defined.

Lemma undecodable_audio_ends_session_witness :
  waiting (self in_call) = true /\
  "Zm9vYmE" <> "" /\
  b64decode (JStr "Zm9vYmE") = Raise BinasciiError /\
  finished (self (_process_responses_resume (audio_output "Zm9vYmE") in_call)) = true /\
  is_active (self (_process_responses_resume (audio_output "Zm9vYmE") in_call)) = false /\
  sink_log (env (_process_responses_resume (audio_output "Zm9vYmE") in_call)) =
    sink_log (env in_call).
Proof.
  split; [vm_compute; reflexivity |].
  split; [discriminate |].
  split; [vm_compute; reflexivity |].
  pose proof (undecodable_audio_ends_session "Zm9vYmE" BinasciiError in_call
                eq_refl ltac:(discriminate) eq_refl) as (H1 & H2 & H3 & _).
  repeat split; assumption.
Defined.

Lemma text_output_attributed_to_declared_role_witness :
  waiting (self in_call) = true /\
  is_active (self in_call) = true /\
  truthy (field_or "content" (JStr "") [("content", JStr "Hello!")]) = true /\
  log (env (deliver
              [inbound "contentStart" (JObj [("role", JStr "ASSISTANT")]);
               inbound "textOutput" (JObj [("content", JStr "Hello!")])] in_call)) =
    (log (env in_call) ++
     [mkLog INFO "Event: {}" [ArgStr "contentStart"];
      mkLog INFO "Event: {}" [ArgStr "textOutput"];
      mkLog INFO "[{}] {}" [ArgVal (JStr "ASSISTANT"); ArgVal (JStr "Hello!")]])%list.
Proof.
  repeat (split; [vm_compute; reflexivity |]).
  exact (proj1 (text_output_attributed_to_declared_role
                  [("role", JStr "ASSISTANT")] [("content", JStr "Hello!")] in_call
                  eq_refl eq_refl eq_refl)).
Defined.

Lemma stop_after_send_failure_leaves_task_witness :
  response_task (self broken_call) = Some (mkTask sink (TaskWaiting JNull) 0) /\
  waiting (self broken_call) = true /\
  is_active (self broken_call) = true /\
  send_results (env broken_call) = [Some (StreamError "connection reset")] /\
  exists st1,
    send_audio [x00; x01] broken_call = (Raise (StreamError "connection reset"), st1) /\
    stop st1 = (Ok tt, st1) /\
    waiting (self st1) = true /\
    cancellations (self st1) = cancellations (self broken_call) /\
    stream (self st1) = stream (self broken_call).
Proof.
  repeat (split; [vm_compute; reflexivity |]).
  destruct (stop_after_send_failure_leaves_task [x00; x01] broken_call
              (mkTask sink (TaskWaiting JNull) 0)
              (mkStream (handshake default_voice default_prompt (self new_call)) false)
              (StreamError "connection reset") []
              eq_refl eq_refl eq_refl eq_refl eq_refl eq_refl)
    as (st1 & H1 & H2 & H3 & H4 & H5).
  exists st1. repeat split; assumption.
Defined.


Lemma websocket_endpoint_forwards_audio_in_order_witness :
  accept_result phone = None /\
  inbox phone =
    (map receive_of [Text "websocket:connected"; Binary [x00; x01]; Silence;
                     Binary [x02; x03]] ++
     [ReceiveMessage (disconnect_message 1000)])%list /\
  open_result quiet = None /\
  sends_ok 8 (send_results quiet) = true /\
  all_harmless (vonage_sink phone) (arrivals quiet) = true /\
  exists st,
    websocket_endpoint default_voice default_prompt phone
      "prompt-1" "content-1" "audio-1" quiet = Returned st /\
    is_active (self st) = false /\
    emitted (self st) =
      (handshake default_voice default_prompt (__init__ "prompt-1" "content-1" "audio-1") ++
       [audio_input [x00; x01] (__init__ "prompt-1" "content-1" "audio-1");
        audio_input [x02; x03] (__init__ "prompt-1" "content-1" "audio-1")])%list /\
    audio_chunks_sent (self st) = 2.
Proof.
  repeat (split; [vm_compute; reflexivity |]).
  exact (websocket_endpoint_forwards_audio_in_order default_voice default_prompt phone
           "prompt-1" "content-1" "audio-1" quiet
           [Text "websocket:connected"; Binary [x00; x01]; Silence; Binary [x02; x03]]
           1000 [] eq_refl eq_refl eq_refl eq_refl eq_refl).
Defined.

Lemma websocket_endpoint_send_failure_leaves_task_witness :
  accept_result phone = None /\
  inbox phone =
    (map receive_of [Text "websocket:connected"; Binary [x00; x01]; Silence] ++
     ReceiveMessage (binary_frame [x02; x03]) ::
     [ReceiveMessage (disconnect_message 1000)])%list /\
  open_result flaky = None /\
  send_results flaky = (repeat None 7 ++ [Some (StreamError "connection reset")])%list /\
  all_harmless (vonage_sink phone) (arrivals flaky) = true /\
  exists st,
    websocket_endpoint default_voice default_prompt phone
      "prompt-1" "content-1" "audio-1" flaky = Returned st /\
    is_active (self st) = false /\
    stream (self st) =
      Some (mkStream
              (handshake default_voice default_prompt
                 (__init__ "prompt-1" "content-1" "audio-1") ++
               [audio_input [x00; x01] (__init__ "prompt-1" "content-1" "audio-1")])
              false) /\
    audio_chunks_sent (self st) = 2 /\
    exists t, response_task (self st) = Some t /\ done t = false.
Proof.
  repeat (split; [vm_compute; reflexivity |]).
  exact (websocket_endpoint_send_failure_leaves_task default_voice default_prompt phone
           "prompt-1" "content-1" "audio-1" flaky
           [Text "websocket:connected"; Binary [x00; x01]; Silence] [x02; x03]
           [ReceiveMessage (disconnect_message 1000)]
           (StreamError "connection reset") []
           eq_refl eq_refl eq_refl eq_refl eq_refl).
Defined.

Lemma get_credentials_from_imds_result_witness :
  metadata_service (role_request (granted_token metadata_service)) =
    HttpReturn (mkResponse 200 ("bridge-role" ++ nl) (inl "not JSON")) /\
  fst (get_credentials_from_imds metadata_service bare_process) =
    mkImdsResult true
      (JObj [("Code", JStr "Success");
             ("AccessKeyId", JStr "ASIAEXAMPLE");
             ("SecretAccessKey", JStr "secret-1");
             ("Token", JStr "session-1")])
      None /\
  success (fst (get_credentials_from_imds unreachable_service bare_process)) = false.
Proof.
  split; [reflexivity |]. split.
  - exact (proj2 (get_credentials_from_imds_result metadata_service bare_process)
             _ _ _ eq_refl eq_refl eq_refl eq_refl eq_refl).
  - destruct (proj1 (get_credentials_from_imds_result unreachable_service bare_process))
      as [(H & _) | (H & _)]; [discriminate H | exact H].
Defined.

Lemma setup_credentials_exports_witness :
  is_set (getenv "AWS_ACCESS_KEY_ID" (environ bare_process))
  && is_set (getenv "AWS_SECRET_ACCESS_KEY" (environ bare_process)) = false /\
  exists p',
    setup_credentials metadata_service bare_process = (Ok true, p') /\
    getenv "AWS_ACCESS_KEY_ID" (environ p') = Some "ASIAEXAMPLE" /\
    getenv "AWS_SECRET_ACCESS_KEY" (environ p') = Some "secret-1" /\
    getenv "AWS_SESSION_TOKEN" (environ p') = Some "session-1" /\
    getenv "AWS_DEFAULT_REGION" (environ p') = Some "us-east-1" /\
    fst (setup_credentials unreachable_service p') = Ok true.
Proof.
  split; [reflexivity |].
  destruct (setup_credentials_exports metadata_service bare_process
              [("Code", JStr "Success");
               ("AccessKeyId", JStr "ASIAEXAMPLE");
               ("SecretAccessKey", JStr "secret-1");
               ("Token", JStr "session-1")]
              "ASIAEXAMPLE" "secret-1" "session-1"
              eq_refl eq_refl eq_refl eq_refl eq_refl eq_refl eq_refl eq_refl)
    as (p' & H1 & H2 & H3 & H4 & H5 & H6).
  exists p'. repeat (split; [assumption |]).
  split; [now rewrite H5 |].
  exact (proj1 (H6 ltac:(discriminate) ltac:(discriminate) unreachable_service)).
Defined.

Lemma setup_credentials_partial_export_witness :
  is_set (getenv "AWS_ACCESS_KEY_ID" (environ bare_process))
  && is_set (getenv "AWS_SECRET_ACCESS_KEY" (environ bare_process)) = false /\
  exists p',
    setup_credentials tokenless_service bare_process = (Raise KeyError, p') /\
    startup tokenless_service bare_process = (Raise KeyError, p') /\
    getenv "AWS_ACCESS_KEY_ID" (environ p') = Some "AKIAEXAMPLE" /\
    getenv "AWS_SECRET_ACCESS_KEY" (environ p') = Some "secret-1" /\
    getenv "AWS_SESSION_TOKEN" (environ p') = None.
Proof.
  split; [reflexivity |].
  exact (setup_credentials_partial_export tokenless_service bare_process
           [("Code", JStr "Success");
            ("AccessKeyId", JStr "AKIAEXAMPLE");
            ("SecretAccessKey", JStr "secret-1")]
           "AKIAEXAMPLE" "secret-1"
           eq_refl eq_refl eq_refl eq_refl eq_refl eq_refl eq_refl).
Defined.

Lemma setup_credentials_unreachable_witness :
  is_set (getenv "AWS_ACCESS_KEY_ID" (environ bare_process))
  && is_set (getenv "AWS_SECRET_ACCESS_KEY" (environ bare_process)) = false /\
  fst (setup_credentials unreachable_service bare_process) = Ok false /\
  fst (startup unreachable_service bare_process) = Ok tt.
Proof.
  split; [reflexivity |].
  pose proof (setup_credentials_unreachable unreachable_service bare_process
                "connect timeout" eq_refl (fun _ => eq_refl)) as (H1 & H2).
  split; [now rewrite H1 | exact H2].
Defined.

Lemma stop_ends_draining_task_witness :
  is_active (self talking) = true /\
  has_task (self talking) = true /\
  fst (stop talking) = Ok tt /\
  finished (self (snd (stop talking))) = true /\
  is_active (self (snd (stop talking))) = false.
Proof.
  do 2 (split; [vm_compute; reflexivity |]).
  exact (stop_ends_draining_task talking eq_refl eq_refl).
Defined.

Example forged_token_payload :
  token_segment (list_byte_of_string claims_text) =
    "eyJhcHBsaWNhdGlvbl9pZCI6ICJhcHAtMSJ9".
Proof. vm_compute. reflexivity. Qed.

Lemma verify_vonage_request_ignores_signature_witness :
  "app-1" <> "" /\
  authorization forged_request =
    Ok (JStr (bearer "e30" (token_segment (list_byte_of_string claims_text))
                "not-a-signature")) /\
  segment "e30" = true /\
  segment (token_segment (list_byte_of_string claims_text)) = true /\
  fst (Api.verify_vonage_request (Some "app-1") sample_loads forged_request cold) =
    Api.Return true.
Proof.
  split; [discriminate |].
  do 3 (split; [vm_compute; reflexivity |]).
  exact (verify_vonage_request_ignores_signature "app-1" sample_loads forged_request
           "e30" (token_segment (list_byte_of_string claims_text)) "not-a-signature" cold
           ltac:(discriminate) eq_refl eq_refl eq_refl).
Defined.

Lemma handler_serves_only_verified_requests_witness :
  (Api.presigned
     (snd (Api.handler (Some "app-1") sample_loads sample_url forged_request cold)) <>
   Api.presigned cold /\
   fst (Api.verify_vonage_request (Some "app-1") sample_loads forged_request cold) =
     Api.Return true) /\
  (fst (Api.handler (Some "app-1") sample_loads sample_url foreign_request cold) =
     Api.Return (Api.mkResponse 401 None (Api.Text "Unauthorized")) /\
   Api.presigned
     (snd (Api.handler (Some "app-1") sample_loads sample_url foreign_request cold)) =
   Api.presigned cold) /\
  (Api.request_line health_request = Ok (JStr "/health", JStr "GET") /\
   String.prefix "/vonage/" "/health" = false /\
   fst (Api.handler (Some "app-1") sample_loads sample_url health_request cold) =
     Api.Return (Api.mkResponse 404 None (Api.Text "Not found"))).
Proof.
  split; [| split].
  - assert (H : Api.presigned
                  (snd (Api.handler (Some "app-1") sample_loads sample_url
                          forged_request cold)) <> Api.presigned cold)
      by (vm_compute; discriminate).
    split; [exact H |].
    exact (proj1 (proj1 (proj2 (handler_serves_only_verified_requests (Some "app-1")
                                  sample_loads sample_url forged_request cold)) H)).
  - split; vm_compute; reflexivity.
  - do 2 (split; [reflexivity |]).
    rewrite (proj2 (proj2 (handler_serves_only_verified_requests (Some "app-1")
                             sample_loads sample_url health_request cold))
               "/health" (JStr "GET") eq_refl eq_refl).
    reflexivity.
Defined.

Lemma read_claims_restores_padding_witness :
  segment "e30" = true /\
  Api.read_claims sample_loads
    (bearer "e30" "eyJhcHBsaWNhdGlvbl9pZCI6ICJhcHAtMSJ9" "signature") =
    Api.Return (JObj [("application_id", JStr "app-1")]).
Proof.
  split; [reflexivity |].
  exact (proj1 (read_claims_restores_padding sample_loads "e30"
                  (list_byte_of_string claims_text) "signature" eq_refl)).
Defined.

Lemma handler_answers_verified_call_witness :
  Api.request_line forged_request = Ok (JStr "/vonage/answer", JStr "GET") /\
  fst (Api.verify_vonage_request (Some "app-1") sample_loads forged_request cold) =
    Api.Return true /\
  query_parameters forged_request = Some [] /\
  fst (Api.handler (Some "app-1") sample_loads
         (Api.Throw (Api.ClientError "access denied")) forged_request cold) =
    Api.Return
      (Api.mkResponse 200 (Some [("Content-Type", JStr "application/json")])
         (Api.Dumps (talk_ncco "Sorry, technical difficulties."))) /\
  fst (Api.handler (Some "app-1") sample_loads sample_url forged_request cold) =
    Api.Return
      (Api.mkResponse 200 (Some [("Content-Type", JStr "application/json")])
         (Api.Dumps
            (connect_ncco (JStr "wss://runtime.example/ws?sig=1")
               (JStr "unknown") (JStr "unknown")))).
Proof.
  do 3 (split; [vm_compute; reflexivity |]).
  split.
  - exact (proj1 (handler_answers_verified_call (Some "app-1") sample_loads
                    (Api.Throw (Api.ClientError "access denied")) forged_request cold []
                    eq_refl eq_refl eq_refl)).
  - exact (proj1 (handler_answers_verified_call (Some "app-1") sample_loads
                    sample_url forged_request cold [] eq_refl eq_refl eq_refl)).
Defined.


Lemma verify_vonage_request_rejects_malformed_witness :
  "app-1" <> "" /\
  authorization (answer_request "Bearer e30") = Ok (JStr "Bearer e30") /\
  segment "e30" = true /\
  fst (Api.verify_vonage_request (Some "app-1") sample_loads
         (answer_request "Bearer e30") cold) = Api.Return false /\
  authorization health_request = Ok (JStr "") /\
  fst (Api.verify_vonage_request (Some "app-1") sample_loads health_request cold) =
    Api.Return false.
Proof.
  split; [discriminate |].
  do 2 (split; [reflexivity |]).
  split.
  - exact (proj2 (proj2 (verify_vonage_request_rejects_malformed "app-1" sample_loads
                           (answer_request "Bearer e30") "Bearer e30" cold
                           ltac:(discriminate) eq_refl))
             "e30" eq_refl eq_refl).
  - split; [reflexivity |].
    exact (proj1 (proj2 (verify_vonage_request_rejects_malformed "app-1" sample_loads
                           health_request "" cold ltac:(discriminate) eq_refl))
             eq_refl).
Defined.
